(** * The symbol bucket of mapbox-gl-js: label layout data and GPU buffers

    A shallow embedding of [src/data/bucket/symbol_bucket.js] and the
    properties of its size interpolator, line distance indexer, quad packer,
    debug geometry emitter, feature collector and buffer-set lifecycle.

    Conventions of the embedding:
    - a JavaScript [number] that carries a measure (zoom, coordinate,
      distance, size) is an exact rational [Q]; array lengths and vertex
      indices are [nat];
    - a StructArray is the [list] of its records as they are stored, in
      order: [emplaceBack] converts every argument to the member type
      declared for it ([Int16], [Uint16], [Uint32] and [Uint8] members
      hold the integer part modulo their width); [Float32] members and
      every other number are exact rationals, floating-point rounding is
      not modelled;
    - a JavaScript string is the list of its UTF-16 code units, property
      names and style keywords are [string]s;
    - a call that would throw a [TypeError] yields [Throw]. *)

From Stdlib Require Import QArith Qround Qabs Lqa ZArith Lia List String.
From stdpp Require Import gmap strings list fin_maps.

Local Open Scope Q_scope.

(* [set_solver] clears hypotheses that are already gone. *)
#[local] Set Warnings "-clear-no-such-hyp".

(* ===================================================================== *)
(** * Part I. The program                                                 *)
(* ===================================================================== *)

(** ** JavaScript values *)

(** [Math.round]: the nearest integer, halves towards +infinity. *)
Definition Math_round (x : Q) : Z := Qfloor (x + (1 # 2)).

(** The integer part of a number, towards zero: the first step of the
    conversion of a number to an integer type. *)
Definition Math_trunc (x : Q) : Z := Z.quot (Qnum x) (Z.pos (Qden x)).

(** Modelled from the spec: a StructArray ([util/struct_array], not among
    the sources) keeps every member in a typed array of the type declared
    for it by [createStructArrayType] and by the attribute lists.  A write
    to an integer member converts the number as ECMAScript's [ToInt16],
    [ToUint16], [ToUint32] and [ToUint8] do: the fraction is dropped and
    the integer is taken modulo the width of the member, into
    [-32768 .. 32767] for [Int16]. *)
Definition wrapInt16 (n : Z) : Z := ((n + 32768) mod 65536 - 32768)%Z.

Definition toInt16 (x : Q) : Z := wrapInt16 (Math_trunc x).

Definition toUint16 (x : Q) : Z := (Math_trunc x mod 65536)%Z.

(** Modelled from the spec: the same conversions for a length or an
    index, which is a natural number. *)
Definition uint16 (n : nat) : nat := Z.to_nat (Z.of_nat n mod 65536).

Definition uint32 (n : nat) : nat := Z.to_nat (Z.of_nat n mod 4294967296).

Definition uint8 (n : nat) : nat := Z.to_nat (Z.of_nat n mod 256).

(** A string, as the sequence of its UTF-16 code units ([charCodeAt]). *)
Definition jsstring := list N.

(** Truthiness of a [string | void]: [undefined] and [''] are falsy. *)
Definition truthy (v : option jsstring) : bool :=
  match v with
  | Some (_ :: _) => true
  | _ => false
  end.

(** The outcome of a call: a value, or a thrown [TypeError] (a property
    read or a method call on [undefined]). *)
Inductive outcome (A : Type) : Type :=
| Return (a : A)
| Throw.
Arguments Return {A} a.
Arguments Throw {A}.

#[global] Instance outcome_bind : MBind outcome :=
  fun A B (k : A → outcome B) (m : outcome A) =>
    match m with
    | Return a => k a
    | Throw => Throw
    end.

#[global] Instance outcome_ret : MRet outcome := @Return.

(** [o.field] where [o] may be [undefined]. *)
Definition defined {A} (o : option A) : outcome A :=
  match o with
  | Some a => Return a
  | None => Throw
  end.

(** ** Geometry (the parts of [@mapbox/point-geometry] and
    [symbol/anchor] the bucket reads) *)

Record Point : Type := { point_x : Q; point_y : Q }.

(** An anchor is a point with the index of the line segment it lies on;
    [segment] is [undefined] for a label that is not anchored on a line. *)
Record Anchor : Type := {
  anchor_x : Q;
  anchor_y : Q;
  anchor_segment : option nat
}.

Definition anchorPoint (a : Anchor) : Point :=
  {| point_x := anchor_x a; point_y := anchor_y a |}.

(** [Point.prototype.dist], the Euclidean distance (a floating-point
    square root), is kept abstract: [dist this p]. *)
Class PointGeometry : Type := { dist : Point → Point → Q }.

(** ** Vector tile features (decoded by [@mapbox/vector-tile]) *)

Record VectorTileFeature : Type := {
  vtf_type : nat;
  vtf_id : option N;
  vtf_properties : gmap string jsstring;
  vtf_geometry : list (list Point)
}.

(** One entry of the feature list handed to [populate]. *)
Record IndexedFeature : Type := {
  if_feature : VectorTileFeature;
  if_index : nat;
  if_sourceLayerIndex : nat
}.

(** ** The style layer (style/style_layer, consumed read-only)

    The layer is an external collaborator; the bucket only reads the
    layout values and calls the methods below.  [getLayoutValue] is split
    by the type of its result: [getLayoutSize] is
    [getLayoutValue(sizeProperty, {zoom})], a number ([zoom] is
    [undefined] when read off the end of the stop list), and
    [getLayoutValue] is the call with a feature, a [string | void]. *)
Record StyleLayer : Type := {
  layout_text_font : option (list string);
  layout_text_field : option jsstring;
  layout_icon_image : option jsstring;
  layout_text_rotation_alignment : string;
  layout_symbol_placement : string;
  isLayoutValueFeatureConstant : string → bool;
  isLayoutValueZoomConstant : string → bool;
  filter : VectorTileFeature → bool;
  getLayoutValue : string → Q → VectorTileFeature → option jsstring;
  getLayoutSize : string → option Q → Q;
  getLayoutValueStopZoomLevels : string → list Q
}.

(** ** Size interpolator: [getSizeData] *)

(** [while (i < levels.length && test(levels[i])) i++;] The index moves
    up by one per iteration and stops at [levels.length] at the latest,
    so [levels.length] iterations are enough ([fuel]). *)
Fixpoint whileIndex (test : Q → bool) (levels : list Q) (fuel i : nat) : nat :=
  match fuel with
  | O => i
  | S fuel' =>
      match levels !! i with
      | Some l => if test l then whileIndex test levels fuel' (S i) else i
      | None => i
      end
  end.

(** [levels[i]] for an integer [i]: [undefined] out of range. *)
Definition levelAt (levels : list Q) (i : Z) : option Q :=
  if (i <? 0)%Z then None else levels !! Z.to_nat i.

(** The two indices computed by [getSizeData] for a zoom-dependent value. *)
Definition coveringIndices (levels : list Q) (tileZoom : Q) : Z * Z :=
  let lower0 := whileIndex (fun l => Qle_bool l tileZoom) levels (length levels) 0 in
  let lower := Z.max 0 (Z.of_nat lower0 - 1) in
  let upper0 :=
    whileIndex (fun l => negb (Qle_bool (tileZoom + 1) l)) levels
               (length levels) (Z.to_nat lower) in
  let upper := Z.min (Z.of_nat (length levels) - 1) (Z.of_nat upper0) in
  (lower, upper).

Inductive SizeData : Type :=
| SourceSize
| ConstantSize (layoutSize : Q)
| CompositeSize (coveringZoomRange : option Q * option Q)
| CameraSize (layoutSize : Q) (coveringZoomRange : option Q * option Q)
             (coveringStopValues : Q * Q).

Definition getSizeData (tileZoom : Q) (layer : StyleLayer)
    (sizeProperty : string) : SizeData :=
  let isFeatureConstant := isLayoutValueFeatureConstant layer sizeProperty in
  let isZoomConstant := isLayoutValueZoomConstant layer sizeProperty in
  if isZoomConstant && negb isFeatureConstant then SourceSize
  else if isZoomConstant && isFeatureConstant then
    ConstantSize (getLayoutSize layer sizeProperty (Some (tileZoom + 1)))
  else
    let levels := getLayoutValueStopZoomLevels layer sizeProperty in
    let '(lower, upper) := coveringIndices levels tileZoom in
    let coveringZoomRange := (levelAt levels lower, levelAt levels upper) in
    if negb isFeatureConstant then CompositeSize coveringZoomRange
    else
      CameraSize (getLayoutSize layer sizeProperty (Some (tileZoom + 1)))
                 coveringZoomRange
                 (getLayoutSize layer sizeProperty (levelAt levels lower),
                  getLayoutSize layer sizeProperty (levelAt levels upper)).

(** The covering range of a size descriptor, when it has one. *)
Definition coveringZoomRangeOf (d : SizeData) : option (option Q * option Q) :=
  match d with
  | CompositeSize r | CameraSize _ r _ => Some r
  | _ => None
  end.

(** Stops in ascending order, as the style specification requires. *)
Definition ascending (levels : list Q) : Prop :=
  ∀ i j a b, (i ≤ j)%nat → levels !! i = Some a → levels !! j = Some b → a <= b.

(** The bracketing condition in the words of the specification:
    [lower ≤ zoom+1 < upper+1]. *)
Definition brackets (tileZoom lower upper : Q) : Prop :=
  lower <= tileZoom + 1 ∧ tileZoom + 1 < upper + 1.

(** A layer whose size properties all have the given dependence flags
    and zoom stops, and which evaluates every size to the zoom itself;
    used to run [getSizeData] on concrete stops. *)
Definition stopsLayer (featureConstant zoomConstant : bool) (levels : list Q)
    : StyleLayer :=
  {| layout_text_font := None;
     layout_text_field := None;
     layout_icon_image := None;
     layout_text_rotation_alignment := "viewport";
     layout_symbol_placement := "point";
     isLayoutValueFeatureConstant := fun _ => featureConstant;
     isLayoutValueZoomConstant := fun _ => zoomConstant;
     filter := fun _ => true;
     getLayoutValue := fun _ _ _ => None;
     getLayoutSize := fun _ zoom => default 0 zoom;
     getLayoutValueStopZoomLevels := fun _ => levels |}.

(** ** Line distance indexer: [addToLineVertexArray] *)

(** The object [vertices[i]] that the first two loops make for a vertex
    of the line: [{x, y, tileUnitDistanceFromAnchor}], three numbers. *)
Record VertexObject : Type := {
  vertex_x : Q;
  vertex_y : Q;
  vertex_tileUnitDistanceFromAnchor : Q
}.

Definition vertexObject (p : Point) (distance : Q) : VertexObject :=
  {| vertex_x := point_x p; vertex_y := point_y p;
     vertex_tileUnitDistanceFromAnchor := distance |}.

(** One record of the [LineVertexArray], as stored: its three members
    are declared [Int16]. *)
Record LineVertex : Type := {
  lv_x : Z;
  lv_y : Z;
  tileUnitDistanceFromAnchor : Z
}.

(** [lineVertexArray.emplaceBack(p.x, p.y, distance)]: the record the
    array holds afterwards. *)
Definition lineVertexAt (p : Point) (distance : Q) : LineVertex :=
  {| lv_x := toInt16 (point_x p); lv_y := toInt16 (point_y p);
     tileUnitDistanceFromAnchor := toInt16 distance |}.

(** [emplaceBack(vertex.x, vertex.y, vertex.tileUnitDistanceFromAnchor)]. *)
Definition emplaceVertex (vertex : VertexObject) : LineVertex :=
  lineVertexAt {| point_x := vertex_x vertex; point_y := vertex_y vertex |}
               (vertex_tileUnitDistanceFromAnchor vertex).

(** [for (let i = anchor.segment + 1; i < line.length; i++)]: [todo]
    counts the iterations left, [line.length - i]. *)
Fixpoint forwardLoop `{PointGeometry} (line : list Point) (todo i : nat)
    (vertices : gmap nat VertexObject) (sumForwardLength : Q)
    : outcome (gmap nat VertexObject) :=
  match todo with
  | O => mret vertices
  | S todo' =>
      p ← defined (line !! i);
      let vertices := <[i := vertexObject p sumForwardLength]> vertices in
      if decide (i < length line - 1)%nat then
        q ← defined (line !! (i + 1)%nat);
        forwardLoop line todo' (S i) vertices (sumForwardLength + dist q p)
      else
        forwardLoop line todo' (S i) vertices sumForwardLength
  end.

(** [for (let i = anchor.segment || 0; i >= 0; i--)]. *)
Fixpoint backwardLoop `{PointGeometry} (line : list Point) (i : nat)
    (vertices : gmap nat VertexObject) (sumBackwardLength : Q)
    : outcome (gmap nat VertexObject) :=
  p ← defined (line !! i);
  let vertices := <[i := vertexObject p sumBackwardLength]> vertices in
  match i with
  | O => mret vertices
  | S i' =>
      q ← defined (line !! i');
      backwardLoop line i' vertices (sumBackwardLength + dist q p)
  end.

(** [for (let i = 0; i < line.length; i++)]: every [vertices[i]] is
    appended; a missing one is a read of [undefined.x]. *)
Fixpoint emitLoop (vertices : gmap nat VertexObject) (todo i : nat)
    (lineVertexArray : list LineVertex) : outcome (list LineVertex) :=
  match todo with
  | O => mret lineVertexArray
  | S todo' =>
      vertex ← defined (vertices !! i);
      emitLoop vertices todo' (S i) (lineVertexArray ++ [emplaceVertex vertex])
  end.

(** The result of [addToLineVertexArray]. *)
Record LineRange : Type := { lineStartIndex : nat; lineLength : nat }.

(** [addToLineVertexArray(anchor, line)], on the bucket's
    [lineVertexArray]: the new array and the returned range. *)
Definition addToLineVertexArray `{PointGeometry} (lineVertexArray : list LineVertex)
    (anchor : Anchor) (line : list Point) : outcome (list LineVertex * LineRange) :=
  let lineStartIndex := length lineVertexArray in
  lineVertexArray' ←
    match anchor_segment anchor with
    | Some segment =>
        p1 ← defined (line !! (segment + 1)%nat);
        let sumForwardLength := dist (anchorPoint anchor) p1 in
        p0 ← defined (line !! segment);
        let sumBackwardLength := dist (anchorPoint anchor) p0 in
        let vertices : gmap nat VertexObject := ∅ in
        vertices ← forwardLoop line (length line - (segment + 1)) (segment + 1)
                               vertices sumForwardLength;
        vertices ← backwardLoop line segment vertices sumBackwardLength;
        emitLoop vertices (length line) 0 lineVertexArray
    | None => mret lineVertexArray
    end;
  mret (lineVertexArray',
        {| lineStartIndex := lineStartIndex;
           lineLength := (length lineVertexArray' - lineStartIndex)%nat |}).

(** A geometry for examples: the Manhattan length of the difference, a
    non-negative stand-in for the Euclidean distance. *)
Definition manhattan : PointGeometry :=
  {| dist := fun p q => Qabs (point_x q - point_x p) + Qabs (point_y q - point_y p) |}.

(** The distance recorded in entry [j] of a range of line vertices, and
    the distance of the [j]-th of the vertex objects it was made from. *)
Definition distanceAt (added : list LineVertex) (j : nat) : option Z :=
  tileUnitDistanceFromAnchor <$> added !! j.

Definition handedDistanceAt (vertices : list VertexObject) (j : nat) : option Q :=
  vertex_tileUnitDistanceFromAnchor <$> vertices !! j.

(** ** Buffer sets *)

(** A record of a layout vertex array, as stored.  The text and icon
    sets hold the eight components written by [addVertex]: the four of
    [a_pos_offset], declared [Int16], and the four of [a_data], declared
    [Uint16].  The two debug sets hold the six written by
    [_addCollisionDebugVertex] ([a_pos], [a_anchor_pos], [a_extrude]),
    all declared [Int16]. *)
Inductive LayoutVertex : Type :=
| SymbolVertex (anchorX anchorY ox oy : Z) (tx ty size0 size1 : Z)
| CollisionDebugVertex (posX posY anchorX anchorY extrudeX extrudeY : Z).

(** [a_projected_pos]: the anchor and the packed angle and zoom. *)
Record DynamicVertex : Type := {
  dyn_x : Q;
  dyn_y : Q;
  dyn_angleAndZoom : Q
}.

(** One element of an index array: three indices in a
    [TriangleIndexArray], two in a [LineIndexArray].  The indices the
    packers hand over are vertex counts of a segment, which
    [prepareSegment] keeps below 65535, so the [Uint16] members hold them
    as they are. *)
Inductive IndexPrimitive : Type :=
| Triangle (a b c : nat)
| LineEdge (a b : nat).

(** The number of index values an index array holds. *)
Definition indexCount (indexArray : list IndexPrimitive) : nat :=
  sum_list_with (λ prim, match prim with Triangle _ _ _ => 3 | LineEdge _ _ => 2 end)%nat
                indexArray.

(** A handle of an object of the GL context (a buffer or a vertex array
    object). *)
Definition handle := nat.

Record Segment : Type := {
  vertexOffset : nat;
  primitiveOffset : nat;
  vertexLength : nat;
  primitiveLength : nat;
  vaos : list handle
}.

(** The indices of a segment are 16 bits wide. *)
Definition MAX_VERTEX_ARRAY_LENGTH : nat := Z.to_nat 65535.

(** Modelled from the spec: [SegmentVector.prepareSegment] of
    [data/segment], which is not among the sources.  It yields a segment
    with room for [numVertices] more vertices: the last one, or a new one
    opened at the current ends of the vertex and index arrays when the
    running vertex count would exceed the 16-bit limit.  The segment
    handed back is the last element of the result; the caller updates it
    in place. *)
Definition prepareSegment {V I} (numVertices : nat) (segments : list Segment)
    (layoutVertexArray : list V) (indexArray : list I) : list Segment :=
  let opened :=
    segments ++ [ {| vertexOffset := length layoutVertexArray;
                     primitiveOffset := length indexArray;
                     vertexLength := 0;
                     primitiveLength := 0;
                     vaos := [] |} ] in
  match last segments with
  | Some segment =>
      if decide (vertexLength segment + numVertices ≤ MAX_VERTEX_ARRAY_LENGTH)%nat
      then segments else opened
  | None => opened
  end.

(** [segment.vertexLength += dv; segment.primitiveLength += dp] on the
    segment handed back by [prepareSegment]. *)
Definition growSegment (dv dp : nat) (segment : Segment) : Segment :=
  {| vertexOffset := vertexOffset segment;
     primitiveOffset := primitiveOffset segment;
     vertexLength := vertexLength segment + dv;
     primitiveLength := primitiveLength segment + dp;
     vaos := vaos segment |}.

Definition growLastSegment (dv dp : nat) (segments : list Segment) : list Segment :=
  match segments with
  | [] => []
  | _ => removelast segments ++ option_list (growSegment dv dp <$> last segments)
  end.

(** Modelled from the spec: the [ProgramConfigurationSet] of
    [data/program_configuration], which is not among the sources.  Its
    paint attribute streams hold one entry per vertex, the feature's
    values; [populatePaintArrays(length, feature)] extends them up to
    [length].  After [upload] it owns GPU buffers. *)
Record ProgramConfigurationSet : Type := {
  paintVertexArray : list VectorTileFeature;
  paintVertexBuffers : list handle
}.

(** Modelled from the spec: [populatePaintArrays(length, feature)] of the
    same class keeps the paint attribute streams aligned with the vertex
    range appended for the feature. *)
Definition populatePaintArrays (length' : nat) (feature : VectorTileFeature)
    (pcs : ProgramConfigurationSet) : ProgramConfigurationSet :=
  {| paintVertexArray :=
       paintVertexArray pcs
       ++ replicate (length' - length (paintVertexArray pcs)) feature;
     paintVertexBuffers := paintVertexBuffers pcs |}.

(** The attribute families a render target declares
    ([symbolInterfaces]). *)
Inductive IndexArrayType : Type := TriangleIndexArray | LineIndexArray.

Record ProgramInterface : Type := {
  hasDynamicLayoutAttributes : bool;
  hasOpacityAttributes : bool;
  hasCollisionAttributes : bool;
  indexArrayType : IndexArrayType
}.

Definition textInterface : ProgramInterface :=
  {| hasDynamicLayoutAttributes := true; hasOpacityAttributes := true;
     hasCollisionAttributes := false; indexArrayType := TriangleIndexArray |}.
Definition iconInterface : ProgramInterface := textInterface.
Definition collisionBoxInterface : ProgramInterface :=
  {| hasDynamicLayoutAttributes := false; hasOpacityAttributes := false;
     hasCollisionAttributes := true; indexArrayType := LineIndexArray |}.
Definition collisionCircleInterface : ProgramInterface :=
  {| hasDynamicLayoutAttributes := false; hasOpacityAttributes := false;
     hasCollisionAttributes := true; indexArrayType := TriangleIndexArray |}.

(** [class SymbolBuffers].  The optional arrays and all the buffers are
    [undefined] ([None]) until the constructor, respectively [upload],
    sets them. *)
Record SymbolBuffers : Type := {
  programInterface : ProgramInterface;
  layoutVertexArray : list LayoutVertex;
  layoutVertexBuffer : option handle;
  indexArray : list IndexPrimitive;
  indexBuffer : option handle;
  programConfigurations : ProgramConfigurationSet;
  segments : list Segment;
  dynamicLayoutVertexArray : option (list DynamicVertex);
  dynamicLayoutVertexBuffer : option handle;
  opacityVertexArray : option (list Q);
  opacityVertexBuffer : option handle;
  collisionVertexArray : option (list (Q * Q));
  collisionVertexBuffer : option handle
}.

(** [new SymbolBuffers(programInterface, layers, zoom)], without
    serialized arrays. *)
Definition newSymbolBuffers (programInterface : ProgramInterface) : SymbolBuffers :=
  {| programInterface := programInterface;
     layoutVertexArray := [];
     layoutVertexBuffer := None;
     indexArray := [];
     indexBuffer := None;
     programConfigurations := {| paintVertexArray := []; paintVertexBuffers := [] |};
     segments := [];
     dynamicLayoutVertexArray :=
       if hasDynamicLayoutAttributes programInterface then Some [] else None;
     dynamicLayoutVertexBuffer := None;
     opacityVertexArray :=
       if hasOpacityAttributes programInterface then Some [] else None;
     opacityVertexBuffer := None;
     collisionVertexArray :=
       if hasCollisionAttributes programInterface then Some [] else None;
     collisionVertexBuffer := None |}.

(** Replacing the CPU-side arrays of a buffer set; the interface and the
    GPU buffers stay. *)
Definition withArrays (arrays : SymbolBuffers)
    (layout : list LayoutVertex) (index : list IndexPrimitive)
    (pcs : ProgramConfigurationSet) (segs : list Segment)
    (dynamic : option (list DynamicVertex)) (opacity : option (list Q))
    (collision : option (list (Q * Q))) : SymbolBuffers :=
  {| programInterface := programInterface arrays;
     layoutVertexArray := layout;
     layoutVertexBuffer := layoutVertexBuffer arrays;
     indexArray := index;
     indexBuffer := indexBuffer arrays;
     programConfigurations := pcs;
     segments := segs;
     dynamicLayoutVertexArray := dynamic;
     dynamicLayoutVertexBuffer := dynamicLayoutVertexBuffer arrays;
     opacityVertexArray := opacity;
     opacityVertexBuffer := opacityVertexBuffer arrays;
     collisionVertexArray := collision;
     collisionVertexBuffer := collisionVertexBuffer arrays |}.

(** ** Quad packer *)

(** A shaped quad ([symbol/quads]): four corners, the rectangle on the
    atlas texture and the glyph offset. *)
Record TextureRect : Type := { tex_x : Q; tex_y : Q; tex_w : Q; tex_h : Q }.

Record SymbolQuad : Type := {
  quad_tl : Point;
  quad_tr : Point;
  quad_bl : Point;
  quad_br : Point;
  quad_tex : TextureRect;
  quad_glyphOffset : Q * Q
}.

(** [addVertex(array, anchorX, anchorY, ox, oy, tx, ty, sizeVertex)].
    The rounded offsets are integers already; without a size vertex the
    two size components are [undefined], which is stored as 0. *)
Definition addVertex (array : list LayoutVertex) (anchorX anchorY ox oy tx ty : Q)
    (sizeVertex : option (Q * Q)) : list LayoutVertex :=
  array ++ [ SymbolVertex (toInt16 anchorX) (toInt16 anchorY)
                          (wrapInt16 (Math_round (ox * 64)))
                          (wrapInt16 (Math_round (oy * 64)))
                          (toUint16 tx) (toUint16 ty)
                          (toUint16 (default 0 (fst <$> sizeVertex)))
                          (toUint16 (default 0 (snd <$> sizeVertex))) ].

(** The encoding of two bytes in one float ([shaders/encode_attribute])
    and the fraction of a full turn of an angle,
    [((angle + twoPi) % twoPi) / twoPi], a floating-point computation
    with [Math.PI]; both are kept abstract. *)
Class AttributeEncoding : Type := {
  packUint8ToFloat : Q → Q → Q;
  turnFraction : Q → Q
}.

(** [addDynamicAttributes(dynamicLayoutVertexArray, p, angle, placementZoom)];
    the array is [undefined] in a set without dynamic attributes. *)
Definition addDynamicAttributes `{AttributeEncoding}
    (dynamicLayoutVertexArray : option (list DynamicVertex))
    (p : Point) (angle placementZoom : Q) : outcome (list DynamicVertex) :=
  let angleAndZoom := packUint8ToFloat (turnFraction angle * 255) (placementZoom * 10) in
  array ← defined dynamicLayoutVertexArray;
  let vertex := {| dyn_x := point_x p; dyn_y := point_y p;
                   dyn_angleAndZoom := angleAndZoom |} in
  mret (array ++ [vertex; vertex; vertex; vertex]).

(** One entry of a [PlacedSymbolArray], as stored.  The members are
    declared [Int16] (anchor), [Uint16] (glyph range, segment, sizes),
    [Uint32] (line range), [Float32] (line offset, placement zoom) and
    [Uint8] (writing mode, hidden); [hidden] is read as a truth value. *)
Record PlacedSymbol : Type := {
  ps_anchorX : Z;
  ps_anchorY : Z;
  ps_glyphStartIndex : nat;
  ps_numGlyphs : nat;
  ps_lineStartIndex : nat;
  ps_lineLength : nat;
  ps_segment : nat;
  ps_lowerSize : Z;
  ps_upperSize : Z;
  ps_lineOffsetX : Q;
  ps_lineOffsetY : Q;
  ps_placementZoom : Q;
  ps_writingMode : nat;
  ps_hidden : bool
}.

(** [placedSymbolArray.emplaceBack(anchorX, anchorY, glyphStartIndex,
    numGlyphs, lineStartIndex, lineLength, segment, lowerSize, upperSize,
    lineOffsetX, lineOffsetY, placementZoom, writingMode, hidden)]: the
    entry the array holds afterwards.  A segment that is [undefined] is
    stored as 0. *)
Definition emplacePlacedSymbol (anchorX anchorY : Q)
    (glyphStartIndex numGlyphs lineStartIndex lineLength : nat)
    (segment : option nat) (lowerSize upperSize : Q)
    (lineOffsetX lineOffsetY placementZoom : Q) (writingMode : nat)
    (hidden : bool) : PlacedSymbol :=
  {| ps_anchorX := toInt16 anchorX;
     ps_anchorY := toInt16 anchorY;
     ps_glyphStartIndex := uint16 glyphStartIndex;
     ps_numGlyphs := uint16 numGlyphs;
     ps_lineStartIndex := uint32 lineStartIndex;
     ps_lineLength := uint32 lineLength;
     ps_segment := uint16 (default 0%nat segment);
     ps_lowerSize := toUint16 lowerSize;
     ps_upperSize := toUint16 upperSize;
     ps_lineOffsetX := lineOffsetX;
     ps_lineOffsetY := lineOffsetY;
     ps_placementZoom := placementZoom;
     ps_writingMode := uint8 writingMode;
     ps_hidden := hidden |}.

(** The body of the loop of [addSymbols] over the quads, on the buffer
    set and the bucket's [glyphOffsetArray]. *)
Definition addSymbolQuad `{AttributeEncoding} (sizeVertex : option (Q * Q))
    (labelAnchor : Anchor) (placementZoom : Q)
    (arrays : SymbolBuffers) (glyphOffsetArray : list Q) (symbol : SymbolQuad)
    : outcome (SymbolBuffers * list Q) :=
  let tl := quad_tl symbol in
  let tr := quad_tr symbol in
  let bl := quad_bl symbol in
  let br := quad_br symbol in
  let tex := quad_tex symbol in
  let segs := prepareSegment 4 (segments arrays) (layoutVertexArray arrays)
                             (indexArray arrays) in
  segment ← defined (last segs);
  let index := vertexLength segment in
  let y := snd (quad_glyphOffset symbol) in
  let ax := anchor_x labelAnchor in
  let ay := anchor_y labelAnchor in
  let layout := layoutVertexArray arrays in
  let layout := addVertex layout ax ay (point_x tl) (y + point_y tl)
                          (tex_x tex) (tex_y tex) sizeVertex in
  let layout := addVertex layout ax ay (point_x tr) (y + point_y tr)
                          (tex_x tex + tex_w tex) (tex_y tex) sizeVertex in
  let layout := addVertex layout ax ay (point_x bl) (y + point_y bl)
                          (tex_x tex) (tex_y tex + tex_h tex) sizeVertex in
  let layout := addVertex layout ax ay (point_x br) (y + point_y br)
                          (tex_x tex + tex_w tex) (tex_y tex + tex_h tex) sizeVertex in
  dynamic ← addDynamicAttributes (dynamicLayoutVertexArray arrays)
                                 (anchorPoint labelAnchor) 0 placementZoom;
  opacity ← defined (opacityVertexArray arrays);
  let opacity := opacity ++ [0; 0; 0; 0] in
  let index' := indexArray arrays
                ++ [ Triangle index (index + 1) (index + 2);
                     Triangle (index + 1) (index + 2) (index + 3) ] in
  let segs := growLastSegment 4 2 segs in
  mret (withArrays arrays layout index' (programConfigurations arrays) segs
                   (Some dynamic) (Some opacity) (collisionVertexArray arrays),
        glyphOffsetArray ++ [fst (quad_glyphOffset symbol)]).

(** [for (const symbol of quads)]. *)
Fixpoint addSymbolQuads `{AttributeEncoding} (sizeVertex : option (Q * Q))
    (labelAnchor : Anchor) (placementZoom : Q)
    (arrays : SymbolBuffers) (glyphOffsetArray : list Q) (quads : list SymbolQuad)
    : outcome (SymbolBuffers * list Q) :=
  match quads with
  | [] => mret (arrays, glyphOffsetArray)
  | symbol :: quads' =>
      '(arrays, glyphOffsetArray) ←
        addSymbolQuad sizeVertex labelAnchor placementZoom arrays glyphOffsetArray symbol;
      addSymbolQuads sizeVertex labelAnchor placementZoom arrays glyphOffsetArray quads'
  end.

(** [addSymbols], as a function of the two fields of the bucket it uses
    ([zoom], [glyphOffsetArray]) and of the buffer set and the placed-symbol
    array it is handed; it yields the three arrays it has written to. *)
Definition addSymbols `{AttributeEncoding} (zoom : Q) (glyphOffsetArray : list Q)
    (arrays : SymbolBuffers) (quads : list SymbolQuad)
    (sizeVertex : option (Q * Q)) (lineOffset : Q * Q) (alongLine : bool)
    (feature : VectorTileFeature) (writingMode : nat) (labelAnchor : Anchor)
    (lineStartIndex lineLength : nat) (placedSymbolArray : list PlacedSymbol)
    : outcome (list Q * SymbolBuffers * list PlacedSymbol) :=
  let placementZoom := zoom in
  let glyphOffsetArrayStart := length glyphOffsetArray in
  '(arrays, glyphOffsetArray) ←
    addSymbolQuads sizeVertex labelAnchor placementZoom arrays glyphOffsetArray quads;
  let placedSymbolArray :=
    placedSymbolArray
    ++ [ emplacePlacedSymbol
           (anchor_x labelAnchor) (anchor_y labelAnchor)
           glyphOffsetArrayStart
           (length glyphOffsetArray - glyphOffsetArrayStart)%nat
           lineStartIndex lineLength (anchor_segment labelAnchor)
           (match sizeVertex with Some s => fst s | None => 0 end)
           (match sizeVertex with Some s => snd s | None => 0 end)
           (fst lineOffset) (snd lineOffset)
           placementZoom writingMode false ] in
  let pcs := populatePaintArrays (length (layoutVertexArray arrays)) feature
                                 (programConfigurations arrays) in
  mret (glyphOffsetArray,
        withArrays arrays (layoutVertexArray arrays) (indexArray arrays) pcs
                   (segments arrays) (dynamicLayoutVertexArray arrays)
                   (opacityVertexArray arrays) (collisionVertexArray arrays),
        placedSymbolArray).

(** ** Collision boxes and the debug geometry emitter *)

(** A record of the shared collision-box store ([symbol/collision_box]);
    [anchorPoint] is the point made of [anchorPointX] and
    [anchorPointY]. *)
Record CollisionBox : Type := {
  box_anchorPointX : Q;
  box_anchorPointY : Q;
  box_x1 : Q;
  box_y1 : Q;
  box_x2 : Q;
  box_y2 : Q;
  box_radius : Q;
  box_distanceToAnchor : Q
}.

Definition box_anchorPoint (box : CollisionBox) : Point :=
  {| point_x := box_anchorPointX box; point_y := box_anchorPointY box |}.

(** Modelled from the spec: [collisionBoxArray.get(k)] of the shared
    collision-box store ([symbol/collision_box]), which is not among the
    sources.  The store is read by index inside its bounds only; a read
    past its end is not a record. *)
Definition getBox (collisionBoxArray : list CollisionBox) (k : nat)
    : outcome CollisionBox :=
  defined (collisionBoxArray !! k).

Record CollisionFeature : Type := { boxStartIndex : nat; boxEndIndex : nat }.

Record SymbolInstance : Type := {
  si_key : string;
  textBoxStartIndex : nat;
  textBoxEndIndex : nat;
  iconBoxStartIndex : nat;
  iconBoxEndIndex : nat;
  si_textOffset : Q * Q;
  si_iconOffset : Q * Q;
  si_anchor : Anchor;
  si_line : list Point;
  si_featureIndex : nat;
  si_feature : VectorTileFeature;
  si_writingModes : nat;
  textCollisionFeature : option CollisionFeature;
  iconCollisionFeature : option CollisionFeature
}.

(** [symbolInstance.textCollisionFeature = ...;
     symbolInstance.iconCollisionFeature = ...]. *)
Definition withCollisionFeatures (si : SymbolInstance) : SymbolInstance :=
  {| si_key := si_key si;
     textBoxStartIndex := textBoxStartIndex si;
     textBoxEndIndex := textBoxEndIndex si;
     iconBoxStartIndex := iconBoxStartIndex si;
     iconBoxEndIndex := iconBoxEndIndex si;
     si_textOffset := si_textOffset si;
     si_iconOffset := si_iconOffset si;
     si_anchor := si_anchor si;
     si_line := si_line si;
     si_featureIndex := si_featureIndex si;
     si_feature := si_feature si;
     si_writingModes := si_writingModes si;
     textCollisionFeature :=
       Some {| boxStartIndex := textBoxStartIndex si;
               boxEndIndex := textBoxEndIndex si |};
     iconCollisionFeature :=
       Some {| boxStartIndex := iconBoxStartIndex si;
               boxEndIndex := iconBoxEndIndex si |} |}.

(** [_addCollisionDebugVertex]: one record in each of the two arrays. *)
Definition _addCollisionDebugVertex (layoutVertexArray : list LayoutVertex)
    (collisionVertexArray : option (list (Q * Q))) (point : Point)
    (anchor : Anchor) (extrude : Point)
    : outcome (list LayoutVertex * list (Q * Q)) :=
  collision ← defined collisionVertexArray;
  mret (layoutVertexArray
          ++ [ CollisionDebugVertex (toInt16 (point_x point)) (toInt16 (point_y point))
                                    (toInt16 (anchor_x anchor)) (toInt16 (anchor_y anchor))
                                    (wrapInt16 (Math_round (point_x extrude)))
                                    (wrapInt16 (Math_round (point_y extrude))) ],
        collision ++ [(0, 0)]).

(** [addCollisionDebugVertices(x1, y1, x2, y2, arrays, boxAnchorPoint,
    symbolInstance, isCircle)]. *)
Definition addCollisionDebugVertices (x1 y1 x2 y2 : Q) (arrays : SymbolBuffers)
    (boxAnchorPoint : Point) (symbolInstance : SymbolInstance) (isCircle : bool)
    : outcome SymbolBuffers :=
  let segs := prepareSegment 4 (segments arrays) (layoutVertexArray arrays)
                             (indexArray arrays) in
  segment ← defined (last segs);
  let index := vertexLength segment in
  let anchor := si_anchor symbolInstance in
  let corner x y := {| point_x := x; point_y := y |} in
  '(layout, collision) ←
    _addCollisionDebugVertex (layoutVertexArray arrays) (collisionVertexArray arrays)
                             boxAnchorPoint anchor (corner x1 y1);
  '(layout, collision) ←
    _addCollisionDebugVertex layout (Some collision) boxAnchorPoint anchor (corner x2 y1);
  '(layout, collision) ←
    _addCollisionDebugVertex layout (Some collision) boxAnchorPoint anchor (corner x2 y2);
  '(layout, collision) ←
    _addCollisionDebugVertex layout (Some collision) boxAnchorPoint anchor (corner x1 y2);
  let segs := growLastSegment 4 0 segs in
  if isCircle then
    let index' := indexArray arrays
                  ++ [ Triangle index (index + 1) (index + 2);
                       Triangle index (index + 2) (index + 3) ] in
    mret (withArrays arrays layout index' (programConfigurations arrays)
                     (growLastSegment 0 2 segs)
                     (dynamicLayoutVertexArray arrays) (opacityVertexArray arrays)
                     (Some collision))
  else
    let index' := indexArray arrays
                  ++ [ LineEdge index (index + 1);
                       LineEdge (index + 1) (index + 2);
                       LineEdge (index + 2) (index + 3);
                       LineEdge (index + 3) index ] in
    mret (withArrays arrays layout index' (programConfigurations arrays)
                     (growLastSegment 0 4 segs)
                     (dynamicLayoutVertexArray arrays) (opacityVertexArray arrays)
                     (Some collision)).

(** The body of the innermost loop of [generateCollisionDebugBuffers]:
    one record of the store, sent to the circle or to the box set. *)
Definition addCollisionDebugBox (symbolInstance : SymbolInstance)
    (collisionBox collisionCircle : SymbolBuffers) (box : CollisionBox)
    : outcome (SymbolBuffers * SymbolBuffers) :=
  let x1 := box_x1 box in
  let y1 := box_y1 box in
  let x2 := box_x2 box in
  let y2 := box_y2 box in
  let isCircle := negb (Qle_bool (box_radius box) 0) in
  if isCircle then
    collisionCircle ← addCollisionDebugVertices x1 y1 x2 y2 collisionCircle
                        (box_anchorPoint box) symbolInstance isCircle;
    mret (collisionBox, collisionCircle)
  else
    collisionBox ← addCollisionDebugVertices x1 y1 x2 y2 collisionBox
                     (box_anchorPoint box) symbolInstance isCircle;
    mret (collisionBox, collisionCircle).

(** [for (let b = feature.boxStartIndex; b < feature.boxEndIndex; b++)];
    [todo] counts the iterations left. *)
Fixpoint addCollisionDebugRange (collisionBoxArray : list CollisionBox)
    (symbolInstance : SymbolInstance) (todo b : nat)
    (collisionBox collisionCircle : SymbolBuffers)
    : outcome (SymbolBuffers * SymbolBuffers) :=
  match todo with
  | O => mret (collisionBox, collisionCircle)
  | S todo' =>
      box ← getBox collisionBoxArray b;
      '(collisionBox, collisionCircle) ←
        addCollisionDebugBox symbolInstance collisionBox collisionCircle box;
      addCollisionDebugRange collisionBoxArray symbolInstance todo' (S b)
                             collisionBox collisionCircle
  end.

(** [for (let i = 0; i < 2; i++)]: the text feature, then the icon
    feature, each skipped when it is not there. *)
Definition addCollisionDebugFeature (collisionBoxArray : list CollisionBox)
    (symbolInstance : SymbolInstance) (feature : option CollisionFeature)
    (collisionBox collisionCircle : SymbolBuffers)
    : outcome (SymbolBuffers * SymbolBuffers) :=
  match feature with
  | None => mret (collisionBox, collisionCircle)
  | Some feature =>
      addCollisionDebugRange collisionBoxArray symbolInstance
        (boxEndIndex feature - boxStartIndex feature) (boxStartIndex feature)
        collisionBox collisionCircle
  end.

(** [generateCollisionDebugBuffers], on the fields of the bucket it
    touches: the symbol instances and the two debug sets. *)
Fixpoint generateCollisionDebugBuffers (collisionBoxArray : list CollisionBox)
    (symbolInstances : list SymbolInstance)
    (collisionBox collisionCircle : SymbolBuffers)
    : outcome (list SymbolInstance * SymbolBuffers * SymbolBuffers) :=
  match symbolInstances with
  | [] => mret ([], collisionBox, collisionCircle)
  | symbolInstance :: rest =>
      let symbolInstance := withCollisionFeatures symbolInstance in
      '(collisionBox, collisionCircle) ←
        addCollisionDebugFeature collisionBoxArray symbolInstance
          (textCollisionFeature symbolInstance) collisionBox collisionCircle;
      '(collisionBox, collisionCircle) ←
        addCollisionDebugFeature collisionBoxArray symbolInstance
          (iconCollisionFeature symbolInstance) collisionBox collisionCircle;
      '(rest, collisionBox, collisionCircle) ←
        generateCollisionDebugBuffers collisionBoxArray rest collisionBox collisionCircle;
      mret (symbolInstance :: rest, collisionBox, collisionCircle)
  end.

(** ** Flattening of collision records *)

(** An element of a flattened array: a number, or the [false] that marks
    a circle as not used yet. *)
Inductive FlatValue : Type :=
| FlatNumber (q : Q)
| FlatBoolean (b : bool).

(** [deserializeCollisionBoxes]: the loop from [k] with [todo]
    iterations left; [return []] leaves the function. *)
Fixpoint deserializeCollisionBoxesLoop (collisionBoxArray : list CollisionBox)
    (todo k : nat) (boxes : list FlatValue) : outcome (list FlatValue) :=
  match todo with
  | O => mret boxes
  | S todo' =>
      box ← getBox collisionBoxArray k;
      if negb (Qeq_bool (box_radius box) 0) then mret []
      else
        deserializeCollisionBoxesLoop collisionBoxArray todo' (S k)
          (boxes ++ [ FlatNumber (box_x1 box); FlatNumber (box_y1 box);
                      FlatNumber (box_x2 box); FlatNumber (box_y2 box);
                      FlatNumber (box_anchorPointX box);
                      FlatNumber (box_anchorPointY box) ])
  end.

Definition deserializeCollisionBoxes (collisionBoxArray : list CollisionBox)
    (startIndex endIndex : nat) : outcome (list FlatValue) :=
  deserializeCollisionBoxesLoop collisionBoxArray (endIndex - startIndex) startIndex [].

Fixpoint deserializeCollisionCirclesLoop (collisionBoxArray : list CollisionBox)
    (todo k : nat) (circles : list FlatValue) : outcome (list FlatValue) :=
  match todo with
  | O => mret circles
  | S todo' =>
      circle ← getBox collisionBoxArray k;
      if Qeq_bool (box_radius circle) 0 then mret []
      else
        deserializeCollisionCirclesLoop collisionBoxArray todo' (S k)
          (circles ++ [ FlatNumber (box_anchorPointX circle);
                        FlatNumber (box_anchorPointY circle);
                        FlatNumber (box_radius circle);
                        FlatNumber (box_distanceToAnchor circle);
                        FlatBoolean false ])
  end.

Definition deserializeCollisionCircles (collisionBoxArray : list CollisionBox)
    (startIndex endIndex : nat) : outcome (list FlatValue) :=
  deserializeCollisionCirclesLoop collisionBoxArray (endIndex - startIndex) startIndex [].

(** ** Vocabulary of the properties *)

(** The two triangles of a quad whose first vertex has index [index] in
    its segment. *)
Definition quadTriangles (index : nat) : list IndexPrimitive :=
  [ Triangle index (index + 1) (index + 2);
    Triangle (index + 1) (index + 2) (index + 3) ].

(** The four edges of the outline of a debug box. *)
Definition boxEdges (index : nat) : list IndexPrimitive :=
  [ LineEdge index (index + 1); LineEdge (index + 1) (index + 2);
    LineEdge (index + 2) (index + 3); LineEdge (index + 3) index ].

(** The two triangles of a debug circle. *)
Definition circleTriangles (index : nat) : list IndexPrimitive :=
  [ Triangle index (index + 1) (index + 2);
    Triangle index (index + 2) (index + 3) ].

(** A set that has the arrays of a text or icon target. *)
Definition hasSymbolArrays (arrays : SymbolBuffers) : Prop :=
  is_Some (dynamicLayoutVertexArray arrays) ∧ is_Some (opacityVertexArray arrays).

(** The open segment ends where the layout vertex array ends. *)
Definition segmentsCover (arrays : SymbolBuffers) : Prop :=
  ∀ segment, last (segments arrays) = Some segment →
    (vertexOffset segment + vertexLength segment = length (layoutVertexArray arrays))%nat.

(** An encoding for examples: the two bytes side by side, and no
    rotation. *)
Definition plainEncoding : AttributeEncoding :=
  {| packUint8ToFloat := λ a b, 256 * a + b; turnFraction := λ _, 0 |}.

Definition unitQuad : SymbolQuad :=
  {| quad_tl := {| point_x := 0; point_y := 0 |};
     quad_tr := {| point_x := 1; point_y := 0 |};
     quad_bl := {| point_x := 0; point_y := 1 |};
     quad_br := {| point_x := 1; point_y := 1 |};
     quad_tex := {| tex_x := 0; tex_y := 0; tex_w := 8; tex_h := 8 |};
     quad_glyphOffset := (3, 0) |}.


Definition noFeature : VectorTileFeature :=
  {| vtf_type := 1; vtf_id := None; vtf_properties := ∅; vtf_geometry := [] |}.

Definition pointAnchor : Anchor :=
  {| anchor_x := 10; anchor_y := 20; anchor_segment := None |}.

(** ** Feature collector: [populate] *)

Record SymbolFeature : Type := {
  sf_text : option jsstring;
  sf_icon : option jsstring;
  sf_index : nat;
  sf_sourceLayerIndex : nat;
  sf_geometry : list (list Point);
  sf_properties : gmap string jsstring;
  sf_type : option string;
  sf_id : option N
}.

(** The collaborators of [populate]: token substitution ([util/token]),
    text transforms ([symbol/transform_text]), script detection, the
    table of vertical punctuation, geometry loading, line merging and the
    names of the feature types. *)
Class TextCollaborators : Type := {
  resolveTokens : gmap string jsstring → option jsstring → option jsstring;
  transformText : option jsstring → StyleLayer → Q → VectorTileFeature → option jsstring;
  allowsVerticalWritingMode : jsstring → bool;
  verticalizePunctuation_lookup : N → option jsstring;
  loadGeometry : VectorTileFeature → list (list Point);
  mergeLines : list SymbolFeature → list SymbolFeature;
  vectorTileFeatureTypes : nat → option string
}.

(** [options]: the two dependency sets, shared by the buckets of a
    tile.  [glyphDependencies] maps a font stack to the set of the code
    points needed from it. *)
Record PopulateParameters : Type := {
  iconDependencies : gset jsstring;
  glyphDependencies : gmap string (gset N)
}.

(** The key [stacks[textFont]] is read under: the array of font names as
    a string, or ['undefined']. *)
Definition fontStackKey (textFont : option (list string)) : string :=
  match textFont with
  | Some fonts => String.concat "," fonts
  | None => "undefined"
  end.

(** [hasText] and [hasIcon]. *)
Definition hasText (layer : StyleLayer) : bool :=
  (negb (isLayoutValueFeatureConstant layer "text-field")
   || truthy (layout_text_field layer))
  && bool_decide (is_Some (layout_text_font layer)).

Definition hasIcon (layer : StyleLayer) : bool :=
  negb (isLayoutValueFeatureConstant layer "icon-image")
  || truthy (layout_icon_image layer).

(** The text of a feature, as [populate] evaluates it. *)
Definition featureText `{TextCollaborators} (layer : StyleLayer) (zoom : Q)
    (feature : VectorTileFeature) : option jsstring :=
  if hasText layer then
    let text := getLayoutValue layer "text-field" zoom feature in
    let text :=
      if isLayoutValueFeatureConstant layer "text-field"
      then resolveTokens (vtf_properties feature) text else text in
    transformText text layer zoom feature
  else None.

Definition featureIcon `{TextCollaborators} (layer : StyleLayer) (zoom : Q)
    (feature : VectorTileFeature) : option jsstring :=
  if hasIcon layer then
    let icon := getLayoutValue layer "icon-image" zoom feature in
    if isLayoutValueFeatureConstant layer "icon-image"
    then resolveTokens (vtf_properties feature) icon else icon
  else None.

(** [textAlongLine]. *)
Definition textAlongLine (layer : StyleLayer) : bool :=
  bool_decide (layout_text_rotation_alignment layer = "map")
  && bool_decide (layout_symbol_placement layer = "line").

(** The body of [for (let i = 0; i < text.length; i++)] for the code unit
    [c = text.charCodeAt(i)]. *)
Definition addGlyphDependency `{TextCollaborators} (vertical : bool)
    (stack : gset N) (c : N) : gset N :=
  let stack := {[c]} ∪ stack in
  if vertical then
    match verticalizePunctuation_lookup c with
    | Some (verticalChar :: _) => {[verticalChar]} ∪ stack
    | _ => stack
    end
  else stack.

Definition addGlyphDependencies `{TextCollaborators} (layer : StyleLayer)
    (stack : gset N) (text : jsstring) : gset N :=
  let vertical := textAlongLine layer && allowsVerticalWritingMode text in
  foldl (addGlyphDependency vertical) stack text.

(** What the loop of [populate] carries: [this.features], [icons] and
    [stack], the object [stacks[textFont]]. *)
Record Collected : Type := {
  col_features : list SymbolFeature;
  col_icons : gset jsstring;
  col_stack : gset N
}.

(** The body of [for (const {feature, index, sourceLayerIndex} of features)]. *)
Definition populateFeature `{TextCollaborators} (layer : StyleLayer) (zoom : Q)
    (acc : Collected) (indexed : IndexedFeature) : Collected :=
  let feature := if_feature indexed in
  if negb (filter layer feature) then acc
  else
    let text := featureText layer zoom feature in
    let icon := featureIcon layer zoom feature in
    if negb (truthy text) && negb (truthy icon) then acc
    else
      let symbolFeature :=
        {| sf_text := text;
           sf_icon := icon;
           sf_index := if_index indexed;
           sf_sourceLayerIndex := if_sourceLayerIndex indexed;
           sf_geometry := loadGeometry feature;
           sf_properties := vtf_properties feature;
           sf_type := vectorTileFeatureTypes (vtf_type feature);
           sf_id := vtf_id feature |} in
      {| col_features := col_features acc ++ [symbolFeature];
         col_icons :=
           match icon with
           | Some (c :: name) => {[c :: name]} ∪ col_icons acc
           | _ => col_icons acc
           end;
         col_stack :=
           match text with
           | Some (c :: rest) => addGlyphDependencies layer (col_stack acc) (c :: rest)
           | _ => col_stack acc
           end |}.

(** [populate(features, options)] for the first layer of the bucket at
    the bucket's zoom: [this.features] and the dependency sets after the
    call. *)
Definition populate `{TextCollaborators} (layers : list StyleLayer) (zoom : Q)
    (features : list IndexedFeature) (options : PopulateParameters)
    : outcome (list SymbolFeature * PopulateParameters) :=
  layer ← defined (head layers);
  let textFont := layout_text_font layer in
  if negb (hasText layer) && negb (hasIcon layer) then mret ([], options)
  else
    let icons := iconDependencies options in
    let stacks := glyphDependencies options in
    let key := fontStackKey textFont in
    let stack := default ∅ (stacks !! key) in
    let acc :=
      foldl (populateFeature layer zoom)
            {| col_features := []; col_icons := icons; col_stack := stack |}
            features in
    let features' :=
      if bool_decide (layout_symbol_placement layer = "line")
      then mergeLines (col_features acc) else col_features acc in
    mret (features',
          {| iconDependencies := col_icons acc;
             glyphDependencies := <[key := col_stack acc]> stacks |}).

(** ** The bucket *)

(** [class SymbolBucket], once its arrays exist (after [createArrays] on
    the worker, or after deserialization on the main thread). *)
Record SymbolBucket : Type := {
  bucket_zoom : Q;
  bucket_layers : list StyleLayer;
  bucket_features : list SymbolFeature;
  collisionBoxArray : list CollisionBox;
  symbolInstances : list SymbolInstance;
  placedGlyphArray : list PlacedSymbol;
  placedIconArray : list PlacedSymbol;
  glyphOffsetArray : list Q;
  lineVertexArray : list LineVertex;
  text : SymbolBuffers;
  icon : SymbolBuffers;
  collisionBox : SymbolBuffers;
  collisionCircle : SymbolBuffers
}.

(** [createArrays()]. *)
Definition createArrays (b : SymbolBucket) : SymbolBucket :=
  {| bucket_zoom := bucket_zoom b;
     bucket_layers := bucket_layers b;
     bucket_features := bucket_features b;
     collisionBoxArray := collisionBoxArray b;
     symbolInstances := symbolInstances b;
     placedGlyphArray := [];
     placedIconArray := [];
     glyphOffsetArray := [];
     lineVertexArray := [];
     text := newSymbolBuffers textInterface;
     icon := newSymbolBuffers iconInterface;
     collisionBox := newSymbolBuffers collisionBoxInterface;
     collisionCircle := newSymbolBuffers collisionCircleInterface |}.

(** [this.addToLineVertexArray(anchor, line)] on the bucket. *)
Definition SymbolBucket_addToLineVertexArray `{PointGeometry} (b : SymbolBucket)
    (anchor : Anchor) (line : list Point) : outcome (SymbolBucket * LineRange) :=
  '(lineVertexArray', range) ← addToLineVertexArray (lineVertexArray b) anchor line;
  mret ({| bucket_zoom := bucket_zoom b;
           bucket_layers := bucket_layers b;
           bucket_features := bucket_features b;
           collisionBoxArray := collisionBoxArray b;
           symbolInstances := symbolInstances b;
           placedGlyphArray := placedGlyphArray b;
           placedIconArray := placedIconArray b;
           glyphOffsetArray := glyphOffsetArray b;
           lineVertexArray := lineVertexArray';
           text := text b;
           icon := icon b;
           collisionBox := collisionBox b;
           collisionCircle := collisionCircle b |},
        range).

(** [this.populate(features, options)] and
    [this.generateCollisionDebugBuffers()] on the bucket. *)
Definition SymbolBucket_populate `{TextCollaborators} (b : SymbolBucket)
    (features : list IndexedFeature) (options : PopulateParameters)
    : outcome (SymbolBucket * PopulateParameters) :=
  '(features', options') ←
    populate (bucket_layers b) (bucket_zoom b) features options;
  mret ({| bucket_zoom := bucket_zoom b;
           bucket_layers := bucket_layers b;
           bucket_features := features';
           collisionBoxArray := collisionBoxArray b;
           symbolInstances := symbolInstances b;
           placedGlyphArray := placedGlyphArray b;
           placedIconArray := placedIconArray b;
           glyphOffsetArray := glyphOffsetArray b;
           lineVertexArray := lineVertexArray b;
           text := text b;
           icon := icon b;
           collisionBox := collisionBox b;
           collisionCircle := collisionCircle b |},
        options').

Definition SymbolBucket_generateCollisionDebugBuffers (b : SymbolBucket)
    : outcome SymbolBucket :=
  '(instances, collisionBox', collisionCircle') ←
    generateCollisionDebugBuffers (collisionBoxArray b) (symbolInstances b)
                                  (collisionBox b) (collisionCircle b);
  mret {| bucket_zoom := bucket_zoom b;
          bucket_layers := bucket_layers b;
          bucket_features := bucket_features b;
          collisionBoxArray := collisionBoxArray b;
          symbolInstances := instances;
          placedGlyphArray := placedGlyphArray b;
          placedIconArray := placedIconArray b;
          glyphOffsetArray := glyphOffsetArray b;
          lineVertexArray := lineVertexArray b;
          text := text b;
          icon := icon b;
          collisionBox := collisionBox';
          collisionCircle := collisionCircle' |}.

(** The two ways the layout calls [addSymbols]: on [this.text] with
    [this.placedGlyphArray], and on [this.icon] with
    [this.placedIconArray]. *)
Inductive SymbolTarget : Type := TextTarget | IconTarget.

Definition SymbolBucket_addSymbols `{AttributeEncoding} (b : SymbolBucket)
    (target : SymbolTarget) (quads : list SymbolQuad)
    (sizeVertex : option (Q * Q)) (lineOffset : Q * Q) (alongLine : bool)
    (feature : VectorTileFeature) (writingMode : nat) (labelAnchor : Anchor)
    (lineStart lineLen : nat) : outcome SymbolBucket :=
  let arrays := match target with TextTarget => text b | IconTarget => icon b end in
  let placed :=
    match target with
    | TextTarget => placedGlyphArray b
    | IconTarget => placedIconArray b
    end in
  '(glyphs', arrays', placed') ←
    addSymbols (bucket_zoom b) (glyphOffsetArray b) arrays quads sizeVertex lineOffset
               alongLine feature writingMode labelAnchor lineStart lineLen placed;
  mret {| bucket_zoom := bucket_zoom b;
          bucket_layers := bucket_layers b;
          bucket_features := bucket_features b;
          collisionBoxArray := collisionBoxArray b;
          symbolInstances := symbolInstances b;
          placedGlyphArray :=
            match target with TextTarget => placed' | IconTarget => placedGlyphArray b end;
          placedIconArray :=
            match target with TextTarget => placedIconArray b | IconTarget => placed' end;
          glyphOffsetArray := glyphs';
          lineVertexArray := lineVertexArray b;
          text := match target with TextTarget => arrays' | IconTarget => text b end;
          icon := match target with TextTarget => icon b | IconTarget => arrays' end;
          collisionBox := collisionBox b;
          collisionCircle := collisionCircle b |}.

(** The packing of a bucket: from [createArrays], any sequence of calls
    of [addToLineVertexArray] and of [addSymbols], the latter with a line
    range that [addToLineVertexArray] has returned.  The second index
    collects the ranges returned so far. *)
Inductive packing `{PointGeometry} `{AttributeEncoding}
    : SymbolBucket → list LineRange → Prop :=
| packing_created (b : SymbolBucket) :
    packing (createArrays b) []
| packing_line (b b' : SymbolBucket) (ranges : list LineRange)
    (anchor : Anchor) (line : list Point) (range : LineRange) :
    packing b ranges →
    SymbolBucket_addToLineVertexArray b anchor line = Return (b', range) →
    packing b' (ranges ++ [range])
| packing_symbols (b b' : SymbolBucket) (ranges : list LineRange)
    (target : SymbolTarget) (quads : list SymbolQuad)
    (sizeVertex : option (Q * Q)) (lineOffset : Q * Q) (alongLine : bool)
    (feature : VectorTileFeature) (writingMode : nat) (labelAnchor : Anchor)
    (range : LineRange) :
    packing b ranges →
    range ∈ ranges →
    SymbolBucket_addSymbols b target quads sizeVertex lineOffset alongLine feature
                            writingMode labelAnchor
                            (lineStartIndex range) (lineLength range)
    = Return b' →
    packing b' ranges.

(** Two ranges [(start, length)] that are equal or do not overlap. *)
Definition rangesCompatible (r1 r2 : nat * nat) : Prop :=
  r1 = r2 ∨ (r1.1 + r1.2 ≤ r2.1)%nat ∨ (r2.1 + r2.2 ≤ r1.1)%nat.

Definition glyphRange (entry : PlacedSymbol) : nat * nat :=
  (ps_glyphStartIndex entry, ps_numGlyphs entry).

Definition lineRangeOf (entry : PlacedSymbol) : nat * nat :=
  (ps_lineStartIndex entry, ps_lineLength entry).

(** All the placed-symbol entries of a bucket. *)
Definition placedSymbols (b : SymbolBucket) : list PlacedSymbol :=
  placedGlyphArray b ++ placedIconArray b.

(** What holds of a bucket all along its packing. *)
Definition packingInvariant (b : SymbolBucket) (ranges : list LineRange) : Prop :=
  hasSymbolArrays (text b) ∧ hasSymbolArrays (icon b)
  ∧ (∀ e, e ∈ placedSymbols b →
       (ps_glyphStartIndex e + ps_numGlyphs e ≤ length (glyphOffsetArray b))%nat)
  ∧ (∀ e1 e2, e1 ∈ placedSymbols b → e2 ∈ placedSymbols b →
       rangesCompatible (glyphRange e1) (glyphRange e2))
  ∧ (∀ r, r ∈ ranges →
       (lineStartIndex r + lineLength r ≤ length (lineVertexArray b))%nat)
  ∧ (∀ r1 r2, r1 ∈ ranges → r2 ∈ ranges →
       rangesCompatible (lineStartIndex r1, lineLength r1)
                        (lineStartIndex r2, lineLength r2))
  ∧ (∀ e, e ∈ placedSymbols b →
       ∃ r, r ∈ ranges ∧ lineRangeOf e = (lineStartIndex r, lineLength r)).

(** The shared arrays of a bucket are short enough for the [Uint16] and
    [Uint32] members of the placed-symbol entries to hold every index
    into them. *)
Definition indicesFit (b : SymbolBucket) : Prop :=
  (length (glyphOffsetArray b) < Z.to_nat 65536)%nat
  ∧ (Z.of_nat (length (lineVertexArray b)) < 4294967296)%Z.

(** A bucket at zoom 5 with fresh arrays, and a label on a line, for
    examples. *)
Definition blankBucket : SymbolBucket :=
  createArrays
    {| bucket_zoom := 5;
       bucket_layers := [];
       bucket_features := [];
       collisionBoxArray := [];
       symbolInstances := [];
       placedGlyphArray := [];
       placedIconArray := [];
       glyphOffsetArray := [];
       lineVertexArray := [];
       text := newSymbolBuffers textInterface;
       icon := newSymbolBuffers iconInterface;
       collisionBox := newSymbolBuffers collisionBoxInterface;
       collisionCircle := newSymbolBuffers collisionCircleInterface |}.

Definition threePointLine : list Point :=
  [ {| point_x := 0; point_y := 0 |};
    {| point_x := 4; point_y := 0 |};
    {| point_x := 4; point_y := 3 |} ].

Definition lineAnchor : Anchor :=
  {| anchor_x := 1; anchor_y := 0; anchor_segment := Some 0%nat |}.

(** The value of a call that returns. *)
Definition returned {A} (fallback : A) (m : outcome A) : A :=
  match m with
  | Return a => a
  | Throw => fallback
  end.

(** The label laid out on the blank bucket: its line, then its text with
    one quad and its icon with two, both on the line range. *)
Definition labelledBucket : SymbolBucket :=
  let '(b1, range) :=
    returned (blankBucket, {| lineStartIndex := 0; lineLength := 0 |})
      (@SymbolBucket_addToLineVertexArray manhattan blankBucket lineAnchor
         threePointLine) in
  let b2 :=
    returned b1
      (@SymbolBucket_addSymbols plainEncoding b1 TextTarget [unitQuad]
         (Some (12, 12)) (0, 0) true noFeature 1 lineAnchor
         (lineStartIndex range) (lineLength range)) in
  returned b2
    (@SymbolBucket_addSymbols plainEncoding b2 IconTarget [unitQuad; unitQuad]
       None (0, 0) true noFeature 1 lineAnchor
       (lineStartIndex range) (lineLength range)).

(** Two labels packed on the blank bucket with line ranges that no call
    of [addToLineVertexArray] has returned: [(0, 3)], then [(1, 3)]. *)
Definition uncheckedRangesBucket : SymbolBucket :=
  let b1 :=
    returned blankBucket
      (@SymbolBucket_addSymbols plainEncoding blankBucket TextTarget [unitQuad]
         (Some (12, 12)) (0, 0) true noFeature 1 lineAnchor 0 3) in
  returned b1
    (@SymbolBucket_addSymbols plainEncoding b1 TextTarget [unitQuad]
       (Some (12, 12)) (0, 0) true noFeature 1 lineAnchor 1 3).

(** The values one record contributes to a flattened array. *)
Definition boxValues (box : CollisionBox) : list FlatValue :=
  [ FlatNumber (box_x1 box); FlatNumber (box_y1 box);
    FlatNumber (box_x2 box); FlatNumber (box_y2 box);
    FlatNumber (box_anchorPointX box); FlatNumber (box_anchorPointY box) ].

Definition circleValues (circle : CollisionBox) : list FlatValue :=
  [ FlatNumber (box_anchorPointX circle); FlatNumber (box_anchorPointY circle);
    FlatNumber (box_radius circle); FlatNumber (box_distanceToAnchor circle);
    FlatBoolean false ].

(** The kind of a record, as the flattening routines tell it: a box has
    radius 0, a circle any other radius. *)
Definition boxKind (box : CollisionBox) : Prop := box_radius box == 0.
Definition circleKind (box : CollisionBox) : Prop := ¬ box_radius box == 0.

(** The records of the range [[startIndex, endIndex)]. *)
Definition recordsOf (collisionBoxArray : list CollisionBox)
    (startIndex endIndex : nat) : list CollisionBox :=
  take (endIndex - startIndex) (drop startIndex collisionBoxArray).

(** A record with a negative radius, and one symbol instance whose text
    range is that record, for examples. *)
Definition negativeRecord : CollisionBox :=
  {| box_anchorPointX := 100; box_anchorPointY := 200;
     box_x1 := -4; box_y1 := -2; box_x2 := 4; box_y2 := 2;
     box_radius := -3; box_distanceToAnchor := 0 |}.

Definition oneRecordInstance : SymbolInstance :=
  {| si_key := "label";
     textBoxStartIndex := 0; textBoxEndIndex := 1;
     iconBoxStartIndex := 1; iconBoxEndIndex := 1;
     si_textOffset := (0, 0); si_iconOffset := (0, 0);
     si_anchor := pointAnchor; si_line := [];
     si_featureIndex := 0; si_feature := noFeature; si_writingModes := 1;
     textCollisionFeature := None; iconCollisionFeature := None |}.

Definition boxRecord : CollisionBox :=
  {| box_anchorPointX := 100; box_anchorPointY := 200;
     box_x1 := -4; box_y1 := -2; box_x2 := 4; box_y2 := 2;
     box_radius := 0; box_distanceToAnchor := 0 |}.

(** A circle record, a store of a box and a circle, and a symbol
    instance whose text range is the whole store, for examples. *)
Definition circleRecord : CollisionBox :=
  {| box_anchorPointX := 100; box_anchorPointY := 200;
     box_x1 := -4; box_y1 := -2; box_x2 := 4; box_y2 := 2;
     box_radius := 2; box_distanceToAnchor := 0 |}.

Definition twoRecordInstance : SymbolInstance :=
  {| si_key := "label";
     textBoxStartIndex := 0; textBoxEndIndex := 2;
     iconBoxStartIndex := 2; iconBoxEndIndex := 2;
     si_textOffset := (0, 0); si_iconOffset := (0, 0);
     si_anchor := pointAnchor; si_line := [];
     si_featureIndex := 0; si_feature := noFeature; si_writingModes := 1;
     textCollisionFeature := None; iconCollisionFeature := None |}.

(** A feature is retained when it passes the filter of the layer and
    its text or its icon is truthy. *)
Definition retained `{TextCollaborators} (layer : StyleLayer) (zoom : Q)
    (indexed : IndexedFeature) : bool :=
  filter layer (if_feature indexed)
  && (truthy (featureText layer zoom (if_feature indexed))
      || truthy (featureIcon layer zoom (if_feature indexed))).

(** The [SymbolFeature] made of a retained feature. *)
Definition symbolFeatureOf `{TextCollaborators} (layer : StyleLayer) (zoom : Q)
    (indexed : IndexedFeature) : SymbolFeature :=
  let feature := if_feature indexed in
  {| sf_text := featureText layer zoom feature;
     sf_icon := featureIcon layer zoom feature;
     sf_index := if_index indexed;
     sf_sourceLayerIndex := if_sourceLayerIndex indexed;
     sf_geometry := loadGeometry feature;
     sf_properties := vtf_properties feature;
     sf_type := vectorTileFeatureTypes (vtf_type feature);
     sf_id := vtf_id feature |}.

(** The character codes a text asks for: its own UTF-16 code units, and
    the first code unit of the vertical substitute of each of them when
    the text may be laid out vertically along a line. *)
Definition glyphNeeded `{TextCollaborators} (layer : StyleLayer) (text : jsstring)
    (c : N) : Prop :=
  c ∈ text
  ∨ (textAlongLine layer = true
     ∧ allowsVerticalWritingMode text = true
     ∧ ∃ ch rest, ch ∈ text ∧ verticalizePunctuation_lookup ch = Some (c :: rest)).

(** Modelled from the spec: the code points of a text, which pair a
    high surrogate (D800 to DBFF) followed by a low surrogate (DC00 to
    DFFF) into one code point above FFFF. *)
Definition isHighSurrogate (c : N) : bool := (55296 <=? c)%N && (c <=? 56319)%N.

Definition isLowSurrogate (c : N) : bool := (56320 <=? c)%N && (c <=? 57343)%N.

Fixpoint codePoints (text : jsstring) : list N :=
  match text with
  | [] => []
  | c :: rest =>
      match rest with
      | low :: rest' =>
          if isHighSurrogate c && isLowSurrogate low
          then (65536 + (c - 55296) * 1024 + (low - 56320))%N :: codePoints rest'
          else c :: codePoints rest
      | [] => [c]
      end
  end.

(** Collaborators for examples: no tokens, no transform, every text may
    be vertical, the horizontal ellipsis (U+2026) has the vertical
    substitute U+FE19, and lines are not merged. *)
Definition plainCollaborators : TextCollaborators :=
  {| resolveTokens := λ _ text, text;
     transformText := λ text _ _ _, text;
     allowsVerticalWritingMode := λ _, true;
     verticalizePunctuation_lookup :=
       λ c, if decide (c = 8230%N) then Some [65049%N] else None;
     loadGeometry := vtf_geometry;
     mergeLines := λ features, features;
     vectorTileFeatureTypes :=
       λ type, ["Unknown"; "Point"; "LineString"; "Polygon"] !! type |}.

(** A layer that labels every feature with its ["name"] property, along
    lines. *)
Definition nameLayer : StyleLayer :=
  {| layout_text_font := Some ["Open Sans Regular"];
     layout_text_field := None;
     layout_icon_image := None;
     layout_text_rotation_alignment := "map";
     layout_symbol_placement := "line";
     isLayoutValueFeatureConstant := λ property, bool_decide (property = "icon-image");
     isLayoutValueZoomConstant := λ _, true;
     filter := λ _, true;
     getLayoutValue :=
       λ property _ feature,
         if decide (property = "text-field")
         then vtf_properties feature !! "name" else None;
     getLayoutSize := λ _ _, 12;
     getLayoutValueStopZoomLevels := λ _, [] |}.

Definition namedFeature (name : jsstring) (index : nat) : IndexedFeature :=
  {| if_feature := {| vtf_type := 2; vtf_id := None;
                      vtf_properties := {["name" := name]};
                      vtf_geometry := [] |};
     if_index := index;
     if_sourceLayerIndex := 0 |}.

Definition unnamedFeature (index : nat) : IndexedFeature :=
  {| if_feature := noFeature; if_index := index; if_sourceLayerIndex := 0 |}.

Definition noDependencies : PopulateParameters :=
  {| iconDependencies := ∅; glyphDependencies := ∅ |}.

(** A layer that gives every feature the same icon (the name [m]) and no
    text, for examples. *)
Definition markerLayer : StyleLayer :=
  {| layout_text_font := None;
     layout_text_field := None;
     layout_icon_image := Some [109%N];
     layout_text_rotation_alignment := "viewport";
     layout_symbol_placement := "point";
     isLayoutValueFeatureConstant := λ _, true;
     isLayoutValueZoomConstant := λ _, true;
     filter := λ _, true;
     getLayoutValue :=
       λ property _ _,
         if decide (property = "icon-image") then Some [109%N] else None;
     getLayoutSize := λ _ _, 12;
     getLayoutValueStopZoomLevels := λ _, [] |}.

(** ** Lifecycle of a buffer set: [upload] and [destroy] *)

(** Modelled from the spec: the GPU side of [gl/vertex_buffer],
    [gl/index_buffer], [data/program_configuration] and [data/segment],
    which are not among the sources.  The render context owns the GPU
    objects: the ones alive, the next free handle, and the log of the
    objects released.  Creating a buffer makes a new object. *)
Record GL : Type := {
  gl_live : gset handle;
  gl_next : handle;
  gl_released : list handle
}.

(** Modelled from the spec: [new VertexBuffer(gl, array)] and
    [new IndexBuffer(gl, array)] produce one GPU buffer object each. *)
Definition createObject (gl : GL) : handle * GL :=
  (gl_next gl,
   {| gl_live := {[gl_next gl]} ∪ gl_live gl;
      gl_next := S (gl_next gl);
      gl_released := gl_released gl |}).

(** Modelled from the spec: [destroy] of a buffer or of a vertex array
    object releases its GPU object; teardown is safe to repeat, so on an
    object that is not alive any more it does nothing. *)
Definition destroyObject (gl : GL) (h : handle) : GL :=
  if decide (h ∈ gl_live gl) then
    {| gl_live := gl_live gl ∖ {[h]};
       gl_next := gl_next gl;
       gl_released := gl_released gl ++ [h] |}
  else gl.

(** Modelled from the spec: [ProgramConfigurationSet.upload]; the paint
    attribute streams are uploaded to a GPU buffer like the other
    arrays. *)
Definition ProgramConfigurationSet_upload (pcs : ProgramConfigurationSet) (gl : GL)
    : ProgramConfigurationSet * GL :=
  let '(h, gl) := createObject gl in
  ({| paintVertexArray := paintVertexArray pcs;
      paintVertexBuffers := paintVertexBuffers pcs ++ [h] |}, gl).

(** Modelled from the spec: [ProgramConfigurationSet.destroy] releases
    the buffers of the configurations. *)
Definition ProgramConfigurationSet_destroy (pcs : ProgramConfigurationSet) (gl : GL)
    : GL :=
  foldl destroyObject gl (paintVertexBuffers pcs).

(** Modelled from the spec: [SegmentVector.destroy] releases the vertex
    array objects of the segments. *)
Definition SegmentVector_destroy (segs : list Segment) (gl : GL) : GL :=
  foldl destroyObject gl (concat (vaos <$> segs)).

(** [new VertexBuffer(gl, array)] when the interface declares the
    attribute family. *)
Definition uploadOptional (declared : bool) (gl : GL) : option handle * GL :=
  if declared then let '(h, gl) := createObject gl in (Some h, gl)
  else (None, gl).

(** [SymbolBuffers.upload(gl)]. *)
Definition SymbolBuffers_upload (arrays : SymbolBuffers) (gl : GL)
    : SymbolBuffers * GL :=
  let '(layoutBuffer, gl) := createObject gl in
  let '(indexBuffer', gl) := createObject gl in
  let '(pcs, gl) := ProgramConfigurationSet_upload (programConfigurations arrays) gl in
  let '(dynamicBuffer, gl) :=
    uploadOptional (hasDynamicLayoutAttributes (programInterface arrays)) gl in
  let '(opacityBuffer, gl) :=
    uploadOptional (hasOpacityAttributes (programInterface arrays)) gl in
  let '(collisionBuffer, gl) :=
    uploadOptional (hasCollisionAttributes (programInterface arrays)) gl in
  ({| programInterface := programInterface arrays;
      layoutVertexArray := layoutVertexArray arrays;
      layoutVertexBuffer := Some layoutBuffer;
      indexArray := indexArray arrays;
      indexBuffer := Some indexBuffer';
      programConfigurations := pcs;
      segments := segments arrays;
      dynamicLayoutVertexArray := dynamicLayoutVertexArray arrays;
      dynamicLayoutVertexBuffer := dynamicBuffer;
      opacityVertexArray := opacityVertexArray arrays;
      opacityVertexBuffer := opacityBuffer;
      collisionVertexArray := collisionVertexArray arrays;
      collisionVertexBuffer := collisionBuffer |}, gl).

(** [if (buffer) buffer.destroy()]. *)
Definition destroyOptional (buffer : option handle) (gl : GL) : GL :=
  match buffer with
  | Some h => destroyObject gl h
  | None => gl
  end.

(** [SymbolBuffers.destroy()]: the fields of the set are not written
    to, only the render context changes. *)
Definition SymbolBuffers_destroy (arrays : SymbolBuffers) (gl : GL) : outcome GL :=
  match layoutVertexBuffer arrays with
  | None => mret gl
  | Some layoutBuffer =>
      let gl := destroyObject gl layoutBuffer in
      indexBuffer' ← defined (indexBuffer arrays);
      let gl := destroyObject gl indexBuffer' in
      let gl := ProgramConfigurationSet_destroy (programConfigurations arrays) gl in
      let gl := SegmentVector_destroy (segments arrays) gl in
      let gl := destroyOptional (dynamicLayoutVertexBuffer arrays) gl in
      let gl := destroyOptional (opacityVertexBuffer arrays) gl in
      let gl := destroyOptional (collisionVertexBuffer arrays) gl in
      mret gl
  end.

(** [SymbolBucket.upload(gl)] and [SymbolBucket.destroy()]. *)
Definition SymbolBucket_upload (b : SymbolBucket) (gl : GL) : SymbolBucket * GL :=
  let '(text', gl) := SymbolBuffers_upload (text b) gl in
  let '(icon', gl) := SymbolBuffers_upload (icon b) gl in
  let '(collisionBox', gl) := SymbolBuffers_upload (collisionBox b) gl in
  let '(collisionCircle', gl) := SymbolBuffers_upload (collisionCircle b) gl in
  ({| bucket_zoom := bucket_zoom b;
      bucket_layers := bucket_layers b;
      bucket_features := bucket_features b;
      collisionBoxArray := collisionBoxArray b;
      symbolInstances := symbolInstances b;
      placedGlyphArray := placedGlyphArray b;
      placedIconArray := placedIconArray b;
      glyphOffsetArray := glyphOffsetArray b;
      lineVertexArray := lineVertexArray b;
      text := text';
      icon := icon';
      collisionBox := collisionBox';
      collisionCircle := collisionCircle' |}, gl).

Definition SymbolBucket_destroy (b : SymbolBucket) (gl : GL) : outcome GL :=
  gl ← SymbolBuffers_destroy (text b) gl;
  gl ← SymbolBuffers_destroy (icon b) gl;
  gl ← SymbolBuffers_destroy (collisionBox b) gl;
  SymbolBuffers_destroy (collisionCircle b) gl.

(** The GPU objects a buffer set holds, in the order [destroy] goes
    through them; none before [upload]. *)
Definition ownedObjects (arrays : SymbolBuffers) : list handle :=
  match layoutVertexBuffer arrays with
  | None => []
  | Some layoutBuffer =>
      layoutBuffer
      :: option_list (indexBuffer arrays)
      ++ paintVertexBuffers (programConfigurations arrays)
      ++ concat (vaos <$> segments arrays)
      ++ option_list (dynamicLayoutVertexBuffer arrays)
      ++ option_list (opacityVertexBuffer arrays)
      ++ option_list (collisionVertexBuffer arrays)
  end.

Definition bucketObjects (b : SymbolBucket) : list handle :=
  ownedObjects (text b) ++ ownedObjects (icon b)
  ++ ownedObjects (collisionBox b) ++ ownedObjects (collisionCircle b).

(** A set that [upload] has not been called on. *)
Definition neverUploaded (arrays : SymbolBuffers) : Prop :=
  layoutVertexBuffer arrays = None.

(** A render context with nothing in it. *)
Definition emptyGL : GL := {| gl_live := ∅; gl_next := 0%nat; gl_released := [] |}.

(** ** Vocabulary of the further properties *)

(** The four layout vertices of a quad as they are stored, in the order
    [addSymbols] writes them: top left, top right, bottom left, bottom
    right; anchor and offset in [Int16] members, texture corner and size
    pair in [Uint16] members. *)
Definition quadVertices (sizeVertex : option (Q * Q)) (labelAnchor : Anchor)
    (symbol : SymbolQuad) : list LayoutVertex :=
  let tex := quad_tex symbol in
  let y := snd (quad_glyphOffset symbol) in
  let vertex corner tx ty :=
    SymbolVertex (toInt16 (anchor_x labelAnchor)) (toInt16 (anchor_y labelAnchor))
                 (wrapInt16 (Math_round (point_x corner * 64)))
                 (wrapInt16 (Math_round ((y + point_y corner) * 64)))
                 (toUint16 tx) (toUint16 ty)
                 (toUint16 (default 0 (fst <$> sizeVertex)))
                 (toUint16 (default 0 (snd <$> sizeVertex))) in
  [ vertex (quad_tl symbol) (tex_x tex) (tex_y tex);
    vertex (quad_tr symbol) (tex_x tex + tex_w tex) (tex_y tex);
    vertex (quad_bl symbol) (tex_x tex) (tex_y tex + tex_h tex);
    vertex (quad_br symbol) (tex_x tex + tex_w tex) (tex_y tex + tex_h tex) ].

(** The dynamic-layout record of a freshly packed label: its anchor, no
    rotation, the zoom it was built for. *)
Definition dynamicVertexOf `{AttributeEncoding} (labelAnchor : Anchor)
    (placementZoom : Q) : DynamicVertex :=
  {| dyn_x := anchor_x labelAnchor;
     dyn_y := anchor_y labelAnchor;
     dyn_angleAndZoom := packUint8ToFloat (turnFraction 0 * 255) (placementZoom * 10) |}.

(** The segments, one after the other from vertex [v] and primitive [p],
    end at vertex [nv] and primitive [np]: each starts where the one
    before it ends. *)
Fixpoint tilesFrom (v p : nat) (segs : list Segment) (nv np : nat) : Prop :=
  match segs with
  | [] => v = nv ∧ p = np
  | segment :: rest =>
      vertexOffset segment = v ∧ primitiveOffset segment = p
      ∧ tilesFrom (v + vertexLength segment) (p + primitiveLength segment) rest nv np
  end.

(** The segments of a set cut its layout vertex array and its index
    array into consecutive windows, without gap or overlap, and no
    segment has more vertices than 16-bit indices can address. *)
Definition segmentsTile (arrays : SymbolBuffers) : Prop :=
  tilesFrom 0 0 (segments arrays)
            (length (layoutVertexArray arrays)) (length (indexArray arrays))
  ∧ Forall (λ segment, vertexLength segment ≤ MAX_VERTEX_ARRAY_LENGTH)%nat
           (segments arrays).

(** The element type of an index primitive, and a set whose index array
    holds elements of the type its interface declares only. *)
Definition primitiveType (prim : IndexPrimitive) : IndexArrayType :=
  match prim with
  | Triangle _ _ _ => TriangleIndexArray
  | LineEdge _ _ => LineIndexArray
  end.

Definition indexArrayTyped (arrays : SymbolBuffers) : Prop :=
  Forall (λ prim, primitiveType prim = indexArrayType (programInterface arrays))
         (indexArray arrays).

(** Every optional vertex array a set has is as long as its layout
    vertex array. *)
Definition vertexArraysAligned (arrays : SymbolBuffers) : Prop :=
  (∀ dynamic, dynamicLayoutVertexArray arrays = Some dynamic →
     length dynamic = length (layoutVertexArray arrays))
  ∧ (∀ opacity, opacityVertexArray arrays = Some opacity →
       length opacity = length (layoutVertexArray arrays))
  ∧ (∀ collision, collisionVertexArray arrays = Some collision →
       length collision = length (layoutVertexArray arrays)).

(** A set has exactly the optional arrays its interface declares. *)
Definition matchesInterface (arrays : SymbolBuffers) : Prop :=
  (is_Some (dynamicLayoutVertexArray arrays)
   ↔ hasDynamicLayoutAttributes (programInterface arrays) = true)
  ∧ (is_Some (opacityVertexArray arrays)
     ↔ hasOpacityAttributes (programInterface arrays) = true)
  ∧ (is_Some (collisionVertexArray arrays)
     ↔ hasCollisionAttributes (programInterface arrays) = true).

(** A set as the packers keep it: the optional arrays its interface
    declares, all as long as the layout vertex array, segments that tile
    the arrays, and an index array of the declared element type. *)
Definition setWellFormed (arrays : SymbolBuffers) : Prop :=
  matchesInterface arrays ∧ vertexArraysAligned arrays
  ∧ segmentsTile arrays ∧ indexArrayTyped arrays.

(** The four layout vertices of the debug outline of a collision record
    as they are stored, in the order [addCollisionDebugVertices] writes
    them: the corners [(x1, y1)], [(x2, y1)], [(x2, y2)], [(x1, y2)],
    rounded, around the anchor point of the record, for the anchor of the
    symbol instance, all in [Int16] members. *)
Definition debugBoxVertices (x1 y1 x2 y2 : Q) (boxAnchorPoint : Point)
    (anchor : Anchor) : list LayoutVertex :=
  let vertex x y :=
    CollisionDebugVertex (toInt16 (point_x boxAnchorPoint))
                         (toInt16 (point_y boxAnchorPoint))
                         (toInt16 (anchor_x anchor)) (toInt16 (anchor_y anchor))
                         (wrapInt16 (Math_round x)) (wrapInt16 (Math_round y)) in
  [ vertex x1 y1; vertex x2 y1; vertex x2 y2; vertex x1 y2 ].

Definition debugVertices (record : Anchor * CollisionBox) : list LayoutVertex :=
  debugBoxVertices (box_x1 record.2) (box_y1 record.2)
                   (box_x2 record.2) (box_y2 record.2)
                   (box_anchorPoint record.2) record.1.

(** The test of [generateCollisionDebugBuffers]: [box.radius > 0]. *)
Definition isCircleRecord (record : Anchor * CollisionBox) : bool :=
  negb (Qle_bool (box_radius record.2) 0).

(** The records [generateCollisionDebugBuffers] visits, in the order it
    visits them, each with the anchor of its symbol instance: instance
    after instance, the text range, then the icon range. *)
Definition debugRecords (collisionBoxArray : list CollisionBox)
    (symbolInstances : list SymbolInstance) : list (Anchor * CollisionBox) :=
  flat_map
    (λ symbolInstance,
       pair (si_anchor symbolInstance)
       <$> (recordsOf collisionBoxArray (textBoxStartIndex symbolInstance)
                      (textBoxEndIndex symbolInstance)
            ++ recordsOf collisionBoxArray (iconBoxStartIndex symbolInstance)
                         (iconBoxEndIndex symbolInstance)))
    symbolInstances.

(** A debug set after the outlines of [records] have been added to it:
    four vertices and four zero collision records per outline, one group
    of index elements per outline (two triangles in the circle set, four
    edges in the box set), and everything else as before. *)
Definition debugEmitted (isCircle : bool) (arrays arrays' : SymbolBuffers)
    (records : list (Anchor * CollisionBox)) : Prop :=
  layoutVertexArray arrays'
  = layoutVertexArray arrays ++ concat (debugVertices <$> records)
  ∧ (∃ bases,
       length bases = length records
       ∧ Forall (λ index, index + 4 ≤ MAX_VERTEX_ARRAY_LENGTH)%nat bases
       ∧ indexArray arrays'
         = indexArray arrays
           ++ concat ((if isCircle then circleTriangles else boxEdges) <$> bases))
  ∧ collisionVertexArray arrays'
    = (λ collision, collision ++ replicate (4 * length records) (0, 0))
      <$> collisionVertexArray arrays
  ∧ dynamicLayoutVertexArray arrays' = dynamicLayoutVertexArray arrays
  ∧ opacityVertexArray arrays' = opacityVertexArray arrays
  ∧ programConfigurations arrays' = programConfigurations arrays
  ∧ programInterface arrays' = programInterface arrays
  ∧ layoutVertexBuffer arrays' = layoutVertexBuffer arrays
  ∧ indexBuffer arrays' = indexBuffer arrays
  ∧ dynamicLayoutVertexBuffer arrays' = dynamicLayoutVertexBuffer arrays
  ∧ opacityVertexBuffer arrays' = opacityVertexBuffer arrays
  ∧ collisionVertexBuffer arrays' = collisionVertexBuffer arrays
  ∧ (segmentsTile arrays → segmentsTile arrays').

(** A range of the collision-box store that can be read: it is empty, or
    it ends inside the store. *)
Definition rangeInStore (collisionBoxArray : list CollisionBox)
    (startIndex endIndex : nat) : Prop :=
  (startIndex < endIndex → endIndex ≤ length collisionBoxArray)%nat.

Definition instanceInStore (collisionBoxArray : list CollisionBox)
    (symbolInstance : SymbolInstance) : Prop :=
  rangeInStore collisionBoxArray (textBoxStartIndex symbolInstance)
               (textBoxEndIndex symbolInstance)
  ∧ rangeInStore collisionBoxArray (iconBoxStartIndex symbolInstance)
                 (iconBoxEndIndex symbolInstance).

(** The number of glyph offsets the entries of a placed-symbol array
    stand for, and the number of line vertices of a list of ranges. *)
Definition glyphTotal (placed : list PlacedSymbol) : nat :=
  sum_list_with ps_numGlyphs placed.

Definition lineTotal (ranges : list LineRange) : nat :=
  sum_list_with lineLength ranges.

(** A render context whose live objects were all made by it: their
    handles are below the next free one. *)
Definition glWellFormed (gl : GL) : Prop :=
  ∀ h, h ∈ gl_live gl → (h < gl_next gl)%nat.

(** A set that holds optional buffers of declared attribute families
    only, as the constructor makes it and [upload] leaves it. *)
Definition optionalBuffersDeclared (arrays : SymbolBuffers) : Prop :=
  (is_Some (dynamicLayoutVertexBuffer arrays)
   → hasDynamicLayoutAttributes (programInterface arrays) = true)
  ∧ (is_Some (opacityVertexBuffer arrays)
     → hasOpacityAttributes (programInterface arrays) = true)
  ∧ (is_Some (collisionVertexBuffer arrays)
     → hasCollisionAttributes (programInterface arrays) = true).

(** The buffers of a set that [upload] replaces, and the objects it
    carries over: the buffers of the paint configurations and the vertex
    array objects of the segments. *)
Definition replacedBuffers (arrays : SymbolBuffers) : list handle :=
  option_list (layoutVertexBuffer arrays)
  ++ option_list (indexBuffer arrays)
  ++ option_list (dynamicLayoutVertexBuffer arrays)
  ++ option_list (opacityVertexBuffer arrays)
  ++ option_list (collisionVertexBuffer arrays).

Definition carriedObjects (arrays : SymbolBuffers) : list handle :=
  paintVertexBuffers (programConfigurations arrays)
  ++ concat (vaos <$> segments arrays).

(** A text set uploaded once to an empty context. *)
Definition uploadedOnce : SymbolBuffers * GL :=
  SymbolBuffers_upload (newSymbolBuffers textInterface) emptyGL.

(** The number of optional attribute families an interface declares. *)
Definition declaredFamilies (interface : ProgramInterface) : nat :=
  (Nat.b2n (hasDynamicLayoutAttributes interface)
   + Nat.b2n (hasOpacityAttributes interface)
   + Nat.b2n (hasCollisionAttributes interface))%nat.

(** ** Buffer sets across the transfer: [serialize] and the constructor *)

(** Modelled from the spec: a [StructArray] ([util/struct_array], not
    among the sources) is serialized to a transfer-safe copy of its
    records, and the array built from the copy holds these records
    again; built from [undefined] it is empty.  In the same way a
    [ProgramConfigurationSet] is serialized to its paint entries and a
    [SegmentVector] to its segments.  [SerializedSymbolBuffer]: an array
    the set does not have is [undefined]. *)
Record SerializedSymbolBuffer : Type := {
  ser_layoutVertexArray : list LayoutVertex;
  ser_indexArray : list IndexPrimitive;
  ser_programConfigurations : list VectorTileFeature;
  ser_segments : list Segment;
  ser_dynamicLayoutVertexArray : option (list DynamicVertex);
  ser_opacityVertexArray : option (list Q);
  ser_collisionVertexArray : option (list (Q * Q))
}.

(** [SymbolBuffers.serialize(transferables)]. *)
Definition SymbolBuffers_serialize (arrays : SymbolBuffers) : SerializedSymbolBuffer :=
  {| ser_layoutVertexArray := layoutVertexArray arrays;
     ser_indexArray := indexArray arrays;
     ser_programConfigurations := paintVertexArray (programConfigurations arrays);
     ser_segments := segments arrays;
     ser_dynamicLayoutVertexArray := dynamicLayoutVertexArray arrays;
     ser_opacityVertexArray := opacityVertexArray arrays;
     ser_collisionVertexArray := collisionVertexArray arrays |}.

(** [new SymbolBuffers(programInterface, layers, zoom, arrays)], with or
    without serialized arrays: each array is built from
    [arrays && arrays.<name>], the optional ones only when the interface
    declares their attribute family. *)
Definition newSymbolBuffersFrom (programInterface : ProgramInterface)
    (arrays : option SerializedSymbolBuffer) : SymbolBuffers :=
  {| programInterface := programInterface;
     layoutVertexArray := default [] (ser_layoutVertexArray <$> arrays);
     layoutVertexBuffer := None;
     indexArray := default [] (ser_indexArray <$> arrays);
     indexBuffer := None;
     programConfigurations :=
       {| paintVertexArray := default [] (ser_programConfigurations <$> arrays);
          paintVertexBuffers := [] |};
     segments := default [] (ser_segments <$> arrays);
     dynamicLayoutVertexArray :=
       if hasDynamicLayoutAttributes programInterface
       then Some (default [] (arrays ≫= ser_dynamicLayoutVertexArray)) else None;
     dynamicLayoutVertexBuffer := None;
     opacityVertexArray :=
       if hasOpacityAttributes programInterface
       then Some (default [] (arrays ≫= ser_opacityVertexArray)) else None;
     opacityVertexBuffer := None;
     collisionVertexArray :=
       if hasCollisionAttributes programInterface
       then Some (default [] (arrays ≫= ser_collisionVertexArray)) else None;
     collisionVertexBuffer := None |}.

(** A set that holds no GPU object. *)
Definition noBuffers (arrays : SymbolBuffers) : Prop :=
  layoutVertexBuffer arrays = None ∧ indexBuffer arrays = None
  ∧ dynamicLayoutVertexBuffer arrays = None ∧ opacityVertexBuffer arrays = None
  ∧ collisionVertexBuffer arrays = None
  ∧ paintVertexBuffers (programConfigurations arrays) = [].

(* ===================================================================== *)
(** * Part II. Properties                                                 *)
(* ===================================================================== *)

(** ** Size interpolator *)

Section WhileIndex.
Variable test : Q → bool.
Variable levels : list Q.

(** The loop leaves by its condition, never by lack of fuel: it stops
    at the end of the array or at the first element failing the test. *)
Lemma whileIndex_exit fuel i :
  (i ≤ length levels)%nat → (length levels - i ≤ fuel)%nat →
  let r := whileIndex test levels fuel i in
  (i ≤ r ≤ length levels)%nat
  ∧ (∀ j l, (i ≤ j < r)%nat → levels !! j = Some l → test l = true)
  ∧ (r = length levels ∨ ∃ l, levels !! r = Some l ∧ test l = false).
Proof.
  revert i. induction fuel as [|fuel IH]; intros i Hi Hfuel; simpl.
  - assert (i = length levels) as -> by lia.
    split; [lia|]. split; [intros; lia|]. by left.
  - destruct (levels !! i) as [l|] eqn:Hl.
    + apply lookup_lt_Some in Hl as Hlt.
      destruct (test l) eqn:Ht.
      * destruct (IH (S i)) as (Hr & Hall & Hstop); [lia|lia|].
        split; [lia|]. split; [|done].
        intros j l' Hj Hl'. destruct (decide (j = i)) as [->|Hne].
        -- congruence.
        -- eapply Hall; [|done]. lia.
      * split; [lia|]. split; [intros; lia|]. right. eauto.
    + apply lookup_ge_None in Hl.
      split; [lia|]. split; [intros; lia|]. left. lia.
Qed.
End WhileIndex.

(** What the two scans and the two clamps of [getSizeData] compute. *)
Lemma coveringIndices_spec (levels : list Q) (tileZoom : Q) :
  levels ≠ [] →
  ∃ (ilo iup : nat) (lo up : Q),
    coveringIndices levels tileZoom = (Z.of_nat ilo, Z.of_nat iup)
    ∧ levels !! ilo = Some lo ∧ levels !! iup = Some up
    ∧ (∀ first, levels !! 0%nat = Some first → first <= tileZoom → lo <= tileZoom)
    ∧ (∀ first, levels !! 0%nat = Some first → ¬ first <= tileZoom → lo = first)
    ∧ (∀ lst, last levels = Some lst → tileZoom + 1 <= lst → tileZoom + 1 <= up)
    ∧ ((∀ l, l ∈ levels → l < tileZoom + 1) → last levels = Some up)
    ∧ (ascending levels →
       (∀ l, l ∈ levels → l <= tileZoom → l <= lo)
       ∧ (∀ l, l ∈ levels → tileZoom + 1 <= l → up <= l)).
Proof.
  intros Hne.
  assert (0 < length levels)%nat as Hlen by (destruct levels; [done|simpl; lia]).
  unfold coveringIndices.
  set (testLo := fun l => Qle_bool l tileZoom).
  set (testUp := fun l => negb (Qle_bool (tileZoom + 1) l)).
  set (lower0 := whileIndex testLo levels (length levels) 0).
  destruct (whileIndex_exit testLo levels (length levels) 0) as (HloR & HloAll & HloStop);
    [lia|lia|]. fold lower0 in HloR, HloAll, HloStop.
  set (ilo := (lower0 - 1)%nat).
  assert (Z.max 0 (Z.of_nat lower0 - 1) = Z.of_nat ilo) as -> by lia.
  rewrite Nat2Z.id.
  set (upper0 := whileIndex testUp levels (length levels) ilo).
  destruct (whileIndex_exit testUp levels (length levels) ilo) as (HupR & HupAll & HupStop);
    [lia|lia|]. fold upper0 in HupR, HupAll, HupStop.
  set (iup := Nat.min (length levels - 1) upper0).
  assert (Z.min (Z.of_nat (length levels) - 1) (Z.of_nat upper0) = Z.of_nat iup) as -> by lia.
  destruct (lookup_lt_is_Some_2 levels ilo) as [lo Hlo]; [lia|].
  destruct (lookup_lt_is_Some_2 levels iup) as [up Hup]; [lia|].
  assert (∀ l, testLo l = true ↔ l <= tileZoom) as HtestLo
    by (intros l; apply Qle_bool_iff).
  assert (∀ l, testUp l = false ↔ tileZoom + 1 <= l) as HtestUp.
  { intros l. unfold testUp. rewrite negb_false_iff. apply Qle_bool_iff. }
  assert (∀ l, testUp l = true → l < tileZoom + 1) as HtestUp'.
  { intros l Ht. apply Qnot_le_lt. intros Hle. apply HtestUp in Hle. congruence. }
  (* the lower stop is at or below the tile zoom once the scan moved *)
  assert ((0 < lower0)%nat → lo <= tileZoom) as HloLe.
  { intros Hpos. apply HtestLo. eapply HloAll; [|exact Hlo]. lia. }
  exists ilo, iup, lo, up. split; [done|]. split; [done|]. split; [done|].
  split; [|split; [|split; [|split]]].
  - intros first Hfirst Hle. destruct (decide (lower0 = 0%nat)) as [H0|H0]; [|apply HloLe; lia].
    destruct HloStop as [Hend|(l & Hl & Ht)]; [lia|].
    rewrite H0, Hfirst in Hl. injection Hl as <-.
    apply HtestLo in Hle. congruence.
  - intros first Hfirst Hnle. destruct (decide (lower0 = 0%nat)) as [H0|H0].
    + assert (ilo = 0%nat) as Hi by lia. rewrite Hi, Hfirst in Hlo. congruence.
    + exfalso. apply Hnle, HtestLo. eapply HloAll; [|exact Hfirst]. lia.
  - intros lst Hlst Hle. rewrite last_lookup in Hlst.
    destruct HupStop as [Hend|(l & Hl & Ht)].
    + exfalso. assert (lst < tileZoom + 1) as Hlt.
      { apply HtestUp'. eapply HupAll; [|exact Hlst]. lia. }
      lra.
    + apply lookup_lt_Some in Hl as Hlt.
      assert (iup = upper0) as Hi by lia. rewrite Hi, Hl in Hup.
      injection Hup as <-. by apply HtestUp.
  - intros Hall. rewrite last_lookup.
    destruct HupStop as [Hend|(l & Hl & Ht)].
    + assert (iup = pred (length levels)) as Hi by lia. by rewrite <- Hi.
    + exfalso. apply HtestUp in Ht.
      assert (l < tileZoom + 1) as Hlt by (apply Hall; eapply list_elem_of_lookup_2; done).
      lra.
  - intros Hasc. split.
    + intros l Hin Hle. apply list_elem_of_lookup in Hin as [j Hj].
      destruct (decide (j ≤ ilo)%nat) as [Hji|Hji]; [by eapply Hasc|].
      exfalso. destruct HloStop as [Hend|(l0 & Hl0 & Ht0)].
      * apply lookup_lt_Some in Hj. lia.
      * assert (l0 <= l) as Hmono by (eapply (Hasc lower0 j); [lia|done|done]).
        assert (l0 <= tileZoom) as Hbad by lra.
        apply HtestLo in Hbad. congruence.
    + intros l Hin Hle. apply list_elem_of_lookup in Hin as [j Hj].
      apply lookup_lt_Some in Hj as Hjlt.
      destruct (decide (j < ilo)%nat) as [Hji|Hji].
      { exfalso. assert (l <= lo) as Hmono by (eapply (Hasc j ilo); [lia|done|done]).
        assert (lo <= tileZoom) as Hlot by (apply HloLe; lia). lra. }
      destruct (decide (j < upper0)%nat) as [Hju|Hju].
      { exfalso. assert (l < tileZoom + 1) as Hlt.
        { apply HtestUp'. eapply HupAll; [|exact Hj]. lia. }
        lra. }
      eapply (Hasc iup j); [lia|done|done].
Qed.

(** C1 (as amended).  For a zoom-dependent size property with at least one
    stop, both ends of [coveringZoomRange] are declared stop levels (the
    indices are clamped to the array).  When the first stop is at or below
    the tile zoom and the last stop is at or above [zoom+1], the range
    brackets: [lower ≤ tileZoom < zoom+1 ≤ upper], hence
    [lower ≤ zoom+1 < upper+1], a stop exactly at [zoom+1] included.
    Outside of that the clamps decide: [lower] is the first stop when the
    tile zoom is below it, and [upper] is the last stop when every stop is
    below [zoom+1].  For ascending stops the pair is the tightest one. *)
Theorem getSizeData_covering_range (layer : StyleLayer)
    (sizeProperty : string) (tileZoom : Q) :
  isLayoutValueZoomConstant layer sizeProperty = false →
  getLayoutValueStopZoomLevels layer sizeProperty ≠ [] →
  let levels := getLayoutValueStopZoomLevels layer sizeProperty in
  ∃ lo up : Q,
    coveringZoomRangeOf (getSizeData tileZoom layer sizeProperty)
      = Some (Some lo, Some up)
    ∧ lo ∈ levels ∧ up ∈ levels
    ∧ (∀ first lst, head levels = Some first → last levels = Some lst →
         first <= tileZoom → tileZoom + 1 <= lst →
         lo <= tileZoom ∧ tileZoom + 1 <= up ∧ tileZoom < up + 1
         ∧ brackets tileZoom lo up)
    ∧ (∀ first, head levels = Some first → ¬ first <= tileZoom → lo = first)
    ∧ ((∀ l, l ∈ levels → l < tileZoom + 1) → last levels = Some up)
    ∧ (ascending levels →
       (∀ l, l ∈ levels → l <= tileZoom → l <= lo)
       ∧ (∀ l, l ∈ levels → tileZoom + 1 <= l → up <= l)).
Proof.
  intros Hzoom Hne levels.
  destruct (coveringIndices_spec levels tileZoom Hne)
    as (ilo & iup & lo & up & Hidx & Hlo & Hup & Hin & Hbelow & Hcover & Habove & Htight).
  assert ((Z.of_nat ilo <? 0)%Z = false) as Hilo by (apply Z.ltb_ge; lia).
  assert ((Z.of_nat iup <? 0)%Z = false) as Hiup by (apply Z.ltb_ge; lia).
  exists lo, up. split.
  - unfold getSizeData. fold levels. rewrite Hzoom, Hidx. simpl.
    unfold levelAt. rewrite Hilo, Hiup, !Nat2Z.id, Hlo, Hup.
    by destruct (isLayoutValueFeatureConstant layer sizeProperty).
  - split; [by eapply list_elem_of_lookup_2|].
    split; [by eapply list_elem_of_lookup_2|].
    split; [|split; [|split]]; [| |done|done].
    + intros first lst Hfirst Hlast Hle1 Hle2.
      rewrite head_lookup in Hfirst.
      pose proof (Hin first Hfirst Hle1). pose proof (Hcover lst Hlast Hle2).
      unfold brackets. repeat split; lra.
    + intros first Hfirst. rewrite head_lookup in Hfirst. by apply Hbelow.
Qed.

(** Stops at 0, 6 and 10 and a tile at zoom 5: [zoom+1] is exactly a stop. *)
Lemma getSizeData_covering_range_witness :
  ∃ lo up : Q,
    coveringZoomRangeOf (getSizeData 5 (stopsLayer false false [0; 6; 10]) "text-size")
      = Some (Some lo, Some up)
    ∧ lo = 0 ∧ up = 6 ∧ brackets 5 lo up.
Proof.
  destruct (getSizeData_covering_range (stopsLayer false false [0; 6; 10])
              "text-size" 5 eq_refl ltac:(discriminate))
    as (lo & up & Hrange & _ & _ & Hbr & _).
  exists lo, up. split; [exact Hrange|].
  vm_compute in Hrange. injection Hrange as <- <-.
  split; [reflexivity|]. split; [reflexivity|].
  apply (Hbr 0 10); [reflexivity|reflexivity|lra|lra].
Defined.

(** C1, as stated, fails below the first stop: with stops at 5 and 10 and a
    tile at zoom 2 the range is clamped to [[5, 5]], and neither
    [lower ≤ zoom+1 < upper+1] nor [lower ≤ tileZoom < upper+1] holds. *)
Lemma getSizeData_covering_range_below_stops :
  coveringZoomRangeOf (getSizeData 2 (stopsLayer false false [5; 10]) "text-size")
    = Some (Some 5, Some 5)
  ∧ ¬ brackets 2 5 5
  ∧ ¬ (5 <= 2 ∧ 2 < 5 + 1).
Proof.
  split; [reflexivity|]. unfold brackets. split; intros [H1 H2]; lra.
Qed.

(** The same at the last stop: a tile at zoom 10 gets [[10, 10]], and
    [zoom+1 < upper+1] fails. *)
Lemma getSizeData_covering_range_at_last_stop :
  coveringZoomRangeOf (getSizeData 10 (stopsLayer true false [0; 10]) "text-size")
    = Some (Some 10, Some 10)
  ∧ ¬ brackets 10 10 10.
Proof.
  split; [reflexivity|]. unfold brackets. intros [H1 H2]; lra.
Qed.

(** ** Stored values *)

(** On a non-negative number the integer part is the floor. *)
Lemma Math_trunc_nonneg (x : Q) : 0 <= x → Math_trunc x = Qfloor x.
Proof.
  destruct x as [n d]. unfold Qle. simpl. intros Hn. unfold Math_trunc. simpl.
  apply Z.quot_div_nonneg; lia.
Qed.

Lemma Math_trunc_inject_Z (n : Z) : Math_trunc (inject_Z n) = n.
Proof. unfold Math_trunc. simpl. apply Z.quot_1_r. Qed.

(** On a number that is not positive the integer part is the ceiling. *)
Lemma Math_trunc_nonpos (x : Q) : x <= 0 → Math_trunc x = Qceiling x.
Proof.
  destruct x as [n d]. unfold Qle. simpl. intros Hn.
  unfold Math_trunc, Qceiling, Qfloor, Qopp. simpl.
  rewrite <- (Z.opp_involutive n) at 1.
  rewrite Z.quot_opp_l by lia. rewrite Z.quot_div_nonneg by lia. done.
Qed.

(** Two representations of the same rational have the same integer
    part. *)
Lemma Math_trunc_proper (x y : Q) : x == y → Math_trunc x = Math_trunc y.
Proof.
  intros Heq. destruct (Qlt_le_dec x 0) as [Hneg|Hpos].
  - rewrite !Math_trunc_nonpos by lra. by apply Qceiling_comp.
  - rewrite !Math_trunc_nonneg by lra. by apply Qfloor_comp.
Qed.

(** An integer that fits in 16 bits is stored as it is. *)
Lemma wrapInt16_in_range (n : Z) : (-32768 ≤ n ≤ 32767)%Z → wrapInt16 n = n.
Proof. intros Hn. unfold wrapInt16. rewrite Z.mod_small by lia. lia. Qed.

Lemma wrapInt16_range (n : Z) : (-32768 ≤ wrapInt16 n ≤ 32767)%Z.
Proof.
  unfold wrapInt16. pose proof (Z.mod_pos_bound (n + 32768) 65536 ltac:(lia)). lia.
Qed.

Lemma toInt16_inject_Z (n : Z) :
  (-32768 ≤ n ≤ 32767)%Z → toInt16 (inject_Z n) = n.
Proof.
  intros Hn. unfold toInt16. rewrite Math_trunc_inject_Z.
  by apply wrapInt16_in_range.
Qed.

Lemma toUint16_inject_Z (n : Z) :
  (0 ≤ n ≤ 65535)%Z → toUint16 (inject_Z n) = n.
Proof.
  intros Hn. unfold toUint16. rewrite Math_trunc_inject_Z.
  apply Z.mod_small. lia.
Qed.

(** Below 32768 the conversion to [Int16] keeps the order of
    non-negative numbers. *)
Lemma toInt16_mono (a b : Q) :
  0 <= a → a <= b → b < 32768 → (toInt16 a ≤ toInt16 b)%Z.
Proof.
  intros Ha Hab Hb. unfold toInt16.
  rewrite !Math_trunc_nonneg by lra.
  assert (0 ≤ Qfloor a)%Z as H0.
  { change 0%Z with (Qfloor 0). by apply Qfloor_resp_le. }
  assert (Qfloor a ≤ Qfloor b)%Z as Hle by (by apply Qfloor_resp_le).
  assert (Qfloor b < 32768)%Z as Hlt.
  { rewrite Zlt_Qlt. pose proof (Qfloor_le b). change (inject_Z 32768) with 32768.
    lra. }
  rewrite !wrapInt16_in_range by lia. done.
Qed.

Lemma uint16_small (n : nat) : (n < Z.to_nat 65536)%nat → uint16 n = n.
Proof. intros Hn. unfold uint16. rewrite Z.mod_small by lia. lia. Qed.

Lemma uint16_le (n : nat) : (uint16 n ≤ n)%nat.
Proof.
  unfold uint16. pose proof (Z.mod_le (Z.of_nat n) 65536 ltac:(lia) ltac:(lia)).
  pose proof (Z.mod_pos_bound (Z.of_nat n) 65536 ltac:(lia)). lia.
Qed.

Lemma uint32_small (n : nat) : (Z.of_nat n < 4294967296)%Z → uint32 n = n.
Proof. intros Hn. unfold uint32. rewrite Z.mod_small by lia. lia. Qed.

Lemma uint8_small (n : nat) : (n < 256)%nat → uint8 n = n.
Proof. intros Hn. unfold uint8. rewrite Z.mod_small by lia. lia. Qed.

(** ** Line distance indexer *)

Section LineDistance.
Context `{PointGeometry}.
Variable line : list Point.

(** The forward loop fills the indices from [i] to the end of the line,
    starting from the running sum and adding one segment per step. *)
Lemma forwardLoop_spec todo : ∀ i vertices sum,
  (i + todo = length line)%nat →
  ∃ vertices',
    forwardLoop line todo i vertices sum = Return vertices'
    ∧ (∀ j, (j < i)%nat → vertices' !! j = vertices !! j)
    ∧ (∀ j, (i ≤ j < length line)%nat →
         ∃ p d, line !! j = Some p ∧ vertices' !! j = Some (vertexObject p d))
    ∧ (∀ p, line !! i = Some p → vertices' !! i = Some (vertexObject p sum))
    ∧ (∀ j p q d, (i ≤ j)%nat → line !! j = Some p → line !! S j = Some q →
         vertices' !! j = Some (vertexObject p d) →
         vertices' !! S j = Some (vertexObject q (d + dist q p))).
Proof.
  induction todo as [|todo IH]; intros i vertices sum Hlen; simpl.
  - exists vertices. split; [done|]. split; [done|]. split; [intros; lia|].
    split.
    + intros p Hp. apply lookup_lt_Some in Hp. lia.
    + intros j p q d Hj Hp Hq. apply lookup_lt_Some in Hq. lia.
  - destruct (lookup_lt_is_Some_2 line i) as [p Hp]; [lia|].
    rewrite Hp. simpl.
    set (vertices1 := <[i:=vertexObject p sum]> vertices).
    destruct (decide (i < length line - 1)%nat) as [Hlt|Hge].
    + destruct (lookup_lt_is_Some_2 line (i + 1)) as [q Hq]; [lia|].
      rewrite Hq. simpl.
      destruct (IH (S i) vertices1 (sum + dist q p)) as (vs & Hrun & Hold & Hall & Hfirst & Hrec);
        [lia|].
      exists vs. split; [done|].
      assert (vs !! i = Some (vertexObject p sum)) as Hi.
      { rewrite Hold by lia. apply lookup_insert_eq. }
      split; [|split; [|split]].
      * intros j Hj. rewrite Hold by lia. apply lookup_insert_ne. lia.
      * intros j Hj. destruct (decide (j = i)) as [->|Hne]; [eauto|].
        apply Hall. lia.
      * intros p' Hp'. congruence.
      * intros j p' q' d Hj Hp' Hq' Hd. destruct (decide (j = i)) as [->|Hne].
        -- rewrite Hi in Hd. replace p' with p in * by congruence.
           injection Hd as <-.
           rewrite Nat.add_1_r in Hq. replace q' with q by congruence.
           by apply Hfirst.
        -- apply (Hrec j p'); [lia|done|done|done].
    + destruct (IH (S i) vertices1 sum) as (vs & Hrun & Hold & Hall & Hfirst & Hrec); [lia|].
      exists vs. split; [done|].
      assert (vs !! i = Some (vertexObject p sum)) as Hi.
      { rewrite Hold by lia. apply lookup_insert_eq. }
      split; [|split; [|split]].
      * intros j Hj. rewrite Hold by lia. apply lookup_insert_ne. lia.
      * intros j Hj. destruct (decide (j = i)) as [->|Hne]; [eauto|].
        apply Hall. lia.
      * intros p' Hp'. congruence.
      * intros j p' q' d Hj Hp' Hq' Hd. apply lookup_lt_Some in Hq'. lia.
Qed.

(** The backward loop fills the indices from [i] down to 0. *)
Lemma backwardLoop_spec i : ∀ vertices sum,
  (i < length line)%nat →
  ∃ vertices',
    backwardLoop line i vertices sum = Return vertices'
    ∧ (∀ j, (i < j)%nat → vertices' !! j = vertices !! j)
    ∧ (∀ j, (j ≤ i)%nat →
         ∃ p d, line !! j = Some p ∧ vertices' !! j = Some (vertexObject p d))
    ∧ (∀ p, line !! i = Some p → vertices' !! i = Some (vertexObject p sum))
    ∧ (∀ j p q d, (S j ≤ i)%nat → line !! S j = Some p → line !! j = Some q →
         vertices' !! S j = Some (vertexObject p d) →
         vertices' !! j = Some (vertexObject q (d + dist q p))).
Proof.
  induction i as [|i IH]; intros vertices sum Hlen.
  - destruct (lookup_lt_is_Some_2 line 0) as [p Hp]; [lia|].
    simpl. rewrite Hp. simpl. eexists. split; [done|].
    split; [|split; [|split]].
    + intros j Hj. apply lookup_insert_ne. lia.
    + intros j Hj. assert (j = 0%nat) as -> by lia.
      exists p, sum. split; [done|]. apply lookup_insert_eq.
    + intros p' Hp'. replace p' with p by congruence. apply lookup_insert_eq.
    + intros; lia.
  - destruct (lookup_lt_is_Some_2 line (S i)) as [p Hp]; [lia|].
    destruct (lookup_lt_is_Some_2 line i) as [q Hq]; [lia|].
    simpl. rewrite Hp. simpl. rewrite Hq. simpl.
    set (vertices1 := <[S i:=vertexObject p sum]> vertices).
    destruct (IH vertices1 (sum + dist q p)) as (vs & Hrun & Hold & Hall & Hfirst & Hrec);
      [lia|].
    exists vs. split; [done|].
    assert (vs !! S i = Some (vertexObject p sum)) as Hi.
    { rewrite Hold by lia. apply lookup_insert_eq. }
    split; [|split; [|split]].
    + intros j Hj. rewrite Hold by lia. apply lookup_insert_ne. lia.
    + intros j Hj. destruct (decide (j = S i)) as [->|Hne]; [eauto|].
      apply Hall. lia.
    + intros p' Hp'. congruence.
    + intros j p' q' d Hj Hp' Hq' Hd. destruct (decide (j = i)) as [->|Hne].
      * rewrite Hi in Hd. replace p' with p in * by congruence.
        injection Hd as <-. replace q' with q by congruence. by apply Hfirst.
      * apply (Hrec j p'); [lia|done|done|done].
Qed.

(** The last loop appends the record of [vertices[i]], ..., in order. *)
Lemma emitLoop_spec (vertices : gmap nat VertexObject) todo : ∀ i lineVertexArray,
  (∀ j, (i ≤ j < i + todo)%nat → is_Some (vertices !! j)) →
  ∃ objects,
    emitLoop vertices todo i lineVertexArray
    = Return (lineVertexArray ++ (emplaceVertex <$> objects))
    ∧ length objects = todo
    ∧ (∀ k, (k < todo)%nat → objects !! k = vertices !! (i + k)%nat).
Proof.
  induction todo as [|todo IH]; intros i arr Hall; simpl.
  - exists []. simpl. rewrite app_nil_r. split; [done|]. split; [done|]. intros; lia.
  - destruct (Hall i) as [v Hv]; [lia|]. rewrite Hv. simpl.
    destruct (IH (S i) (arr ++ [emplaceVertex v])) as (objects & Hrun & Hlen & Hget).
    { intros j Hj. apply Hall. lia. }
    exists (v :: objects). split; [|split].
    + rewrite Hrun. by rewrite <- app_assoc.
    + simpl. by rewrite Hlen.
    + intros [|k] Hk; simpl.
      * by rewrite Nat.add_0_r.
      * rewrite Hget by lia. f_equal. lia.
Qed.

(** A chain of values, each the previous one plus a non-negative
    increment, is non-decreasing. *)
Lemma chain_monotone (f : nat → option Q) (lo hi : nat) :
  (∀ j a, (lo ≤ j < hi)%nat → f j = Some a →
     ∃ w, 0 <= w ∧ f (S j) = Some (a + w)) →
  ∀ m j dj, (lo ≤ j)%nat → (j + m ≤ hi)%nat → f j = Some dj →
    ∃ dk, f (j + m)%nat = Some dk ∧ dj <= dk.
Proof.
  intros Hstep. induction m as [|m IH]; intros j dj Hlo Hhi Hj.
  - exists dj. rewrite Nat.add_0_r. split; [done|lra].
  - destruct (IH j dj) as (dk & Hk & Hle); [lia|lia|done|].
    destruct (Hstep (j + m)%nat dk) as (w & Hw & Hnext); [lia|done|].
    exists (dk + w). replace (j + S m)%nat with (S (j + m)) by lia.
    split; [done|lra].
Qed.

Hypothesis dist_nonneg : ∀ p q, 0 <= dist p q.

(** C4.  Without a segment index nothing is appended and the returned
    length is zero.  With the index of a segment of the line, one record
    per vertex of the line is appended, in order, and the returned length
    is the number of vertices.  The distances handed to the array start
    from the distance of the anchor to the two ends of its segment and
    accumulate segment by segment, forwards after the anchor segment and
    backwards at or before it, so they are non-negative and
    non-decreasing away from the anchor in both directions.  What is
    recorded is each coordinate and each distance converted to [Int16];
    the recorded distances are non-decreasing away from the anchor as
    long as the distances handed over stay below 32768. *)
Theorem addToLineVertexArray_range (lineVertexArray : list LineVertex)
    (anchor : Anchor) :
  (anchor_segment anchor = None →
     addToLineVertexArray lineVertexArray anchor line
     = Return (lineVertexArray,
               {| lineStartIndex := length lineVertexArray; lineLength := 0 |}))
  ∧ (∀ segment,
       anchor_segment anchor = Some segment → (segment + 1 < length line)%nat →
       ∃ vertices added,
         added = emplaceVertex <$> vertices
         ∧ addToLineVertexArray lineVertexArray anchor line
           = Return (lineVertexArray ++ added,
                     {| lineStartIndex := length lineVertexArray;
                        lineLength := length line |})
         ∧ length added = length line
         ∧ (∀ j p, line !! j = Some p →
              ∃ d, vertices !! j = Some (vertexObject p d)
                   ∧ added !! j = Some (lineVertexAt p d))
         ∧ (∀ p, line !! (segment + 1)%nat = Some p →
              handedDistanceAt vertices (segment + 1)
              = Some (dist (anchorPoint anchor) p))
         ∧ (∀ p, line !! segment = Some p →
              handedDistanceAt vertices segment = Some (dist (anchorPoint anchor) p))
         ∧ (∀ j p q d, (segment < j)%nat →
              line !! j = Some p → line !! S j = Some q →
              handedDistanceAt vertices j = Some d →
              handedDistanceAt vertices (S j) = Some (d + dist q p))
         ∧ (∀ j p q d, (S j ≤ segment)%nat →
              line !! S j = Some p → line !! j = Some q →
              handedDistanceAt vertices (S j) = Some d →
              handedDistanceAt vertices j = Some (d + dist q p))
         ∧ (∀ j k dj dk, (segment < j ≤ k)%nat →
              handedDistanceAt vertices j = Some dj →
              handedDistanceAt vertices k = Some dk →
              dj <= dk)
         ∧ (∀ j k dj dk, (j ≤ k ≤ segment)%nat →
              handedDistanceAt vertices j = Some dj →
              handedDistanceAt vertices k = Some dk →
              dk <= dj)
         ∧ (∀ j d, handedDistanceAt vertices j = Some d →
              0 <= d ∧ distanceAt added j = Some (toInt16 d))
         ∧ ((∀ j d, handedDistanceAt vertices j = Some d → d < 32768) →
            (∀ j k dj dk, (segment < j ≤ k)%nat →
               distanceAt added j = Some dj → distanceAt added k = Some dk →
               (dj ≤ dk)%Z)
            ∧ (∀ j k dj dk, (j ≤ k ≤ segment)%nat →
                 distanceAt added j = Some dj → distanceAt added k = Some dk →
                 (dk ≤ dj)%Z))).
Proof.
  split.
  - intros Hseg. unfold addToLineVertexArray. rewrite Hseg. simpl.
    by rewrite Nat.sub_diag.
  - intros segment Hseg Hvalid. unfold addToLineVertexArray. rewrite Hseg.
    destruct (lookup_lt_is_Some_2 line (segment + 1)) as [p1 Hp1]; [lia|].
    destruct (lookup_lt_is_Some_2 line segment) as [p0 Hp0]; [lia|].
    rewrite Hp1. simpl. rewrite Hp0. simpl.
    destruct (forwardLoop_spec (length line - (segment + 1)) (segment + 1) ∅
                (dist (anchorPoint anchor) p1))
      as (vs1 & Hrun1 & _ & Hall1 & Hfirst1 & Hrec1); [lia|].
    rewrite Hrun1. simpl.
    destruct (backwardLoop_spec segment vs1 (dist (anchorPoint anchor) p0))
      as (vs2 & Hrun2 & Hold2 & Hall2 & Hfirst2 & Hrec2); [lia|].
    rewrite Hrun2. simpl.
    assert (∀ j, (j < length line)%nat →
              ∃ p d, line !! j = Some p ∧ vs2 !! j = Some (vertexObject p d)) as Hall.
    { intros j Hj. destruct (decide (j ≤ segment)%nat) as [Hle|Hgt].
      - by apply Hall2.
      - rewrite Hold2 by lia. apply Hall1. lia. }
    destruct (emitLoop_spec vs2 (length line) 0 lineVertexArray)
      as (objects & Hrun3 & Hlen & Hget).
    { intros j Hj. destruct (Hall j) as (p & d & _ & Hv); [lia|]. by rewrite Hv. }
    rewrite Hrun3. simpl. exists objects, (emplaceVertex <$> objects).
    split; [done|].
    assert (∀ j, (j < length line)%nat → objects !! j = vs2 !! j) as Hadded
      by (intros j Hj; by rewrite Hget).
    assert (∀ j p d, line !! j = Some p → handedDistanceAt objects j = Some d →
              vs2 !! j = Some (vertexObject p d)) as Hdist.
    { intros j p d Hp Hd. apply lookup_lt_Some in Hp as Hj.
      destruct (Hall j Hj) as (p' & d' & Hp' & Hv).
      unfold handedDistanceAt in Hd. rewrite Hadded, Hv in Hd by done.
      injection Hd as <-. congruence. }
    assert (∀ j p q d, (segment < j)%nat →
              line !! j = Some p → line !! S j = Some q →
              handedDistanceAt objects j = Some d →
              handedDistanceAt objects (S j) = Some (d + dist q p)) as Hfwd.
    { intros j p q d Hj Hp Hq Hd. apply lookup_lt_Some in Hq as HSj.
      unfold handedDistanceAt. rewrite Hadded, Hold2 by lia.
      erewrite (Hrec1 j p q d); [done|lia|done|done|].
      rewrite <- Hold2 by lia. by apply Hdist. }
    assert (∀ j p q d, (S j ≤ segment)%nat →
              line !! S j = Some p → line !! j = Some q →
              handedDistanceAt objects (S j) = Some d →
              handedDistanceAt objects j = Some (d + dist q p)) as Hbwd.
    { intros j p q d Hj Hp Hq Hd. apply lookup_lt_Some in Hq as HSj.
      unfold handedDistanceAt. rewrite Hadded by lia.
      erewrite (Hrec2 j p q d); [done|lia|done|done|].
      by apply Hdist. }
    assert (handedDistanceAt objects (segment + 1)
            = Some (dist (anchorPoint anchor) p1)) as Hstart1.
    { unfold handedDistanceAt. rewrite Hadded, Hold2 by lia.
      by rewrite (Hfirst1 p1 Hp1). }
    assert (handedDistanceAt objects segment
            = Some (dist (anchorPoint anchor) p0)) as Hstart0.
    { unfold handedDistanceAt. rewrite Hadded by lia.
      by rewrite (Hfirst2 p0 Hp0). }
    assert (∀ j k dj dk, (segment < j ≤ k)%nat →
              handedDistanceAt objects j = Some dj →
              handedDistanceAt objects k = Some dk →
              dj <= dk) as Hmono1.
    { intros j k dj dk Hjk Hdj Hdk.
      assert (k < length line)%nat as Hk.
      { unfold handedDistanceAt in Hdk. destruct (objects !! k) eqn:E; [|done].
        apply lookup_lt_Some in E. lia. }
      destruct (chain_monotone (handedDistanceAt objects) (S segment)
                               (length line - 1))
        with (m := (k - j)%nat) (j := j) (dj := dj) as (dk' & Hk' & Hle);
        [|lia|lia|done|].
      * intros i a Hi Ha.
        destruct (lookup_lt_is_Some_2 line i) as [p Hp]; [lia|].
        destruct (lookup_lt_is_Some_2 line (S i)) as [q Hq]; [lia|].
        exists (dist q p). split; [apply dist_nonneg|].
        apply (Hfwd i p q a); [lia|done|done|done].
      * replace (j + (k - j))%nat with k in Hk' by lia.
        replace dk with dk' by congruence. done. }
    assert (∀ j k dj dk, (j ≤ k ≤ segment)%nat →
              handedDistanceAt objects j = Some dj →
              handedDistanceAt objects k = Some dk →
              dk <= dj) as Hmono0.
    { intros j k dj dk Hjk Hdj Hdk.
      destruct (chain_monotone (fun m => handedDistanceAt objects (segment - m))
                               0 segment)
        with (m := (k - j)%nat) (j := (segment - k)%nat) (dj := dk)
        as (dj' & Hj' & Hle); [|lia|lia| |].
      * intros i a Hi Ha.
        destruct (lookup_lt_is_Some_2 line (segment - i)) as [p Hp]; [lia|].
        destruct (lookup_lt_is_Some_2 line (segment - S i)) as [q Hq]; [lia|].
        exists (dist q p). split; [apply dist_nonneg|].
        apply (Hbwd (segment - S i)%nat p q a); [lia| |done|].
        -- by replace (S (segment - S i)) with (segment - i)%nat by lia.
        -- by replace (S (segment - S i)) with (segment - i)%nat by lia.
      * simpl. by replace (segment - (segment - k))%nat with k by lia.
      * simpl in Hj'.
        replace (segment - (segment - k + (k - j)))%nat with j in Hj' by lia.
        replace dj with dj' by congruence. done. }
    assert (∀ j d, handedDistanceAt objects j = Some d → 0 <= d) as Hnonneg.
    { intros j d Hd. destruct (decide (j ≤ segment)%nat) as [Hle|Hgt].
      - pose proof (Hmono0 j segment d _ ltac:(lia) Hd Hstart0) as Hge.
        pose proof (dist_nonneg (anchorPoint anchor) p0). lra.
      - rewrite Nat.add_1_r in Hstart1.
        pose proof (Hmono1 (S segment) j _ d ltac:(lia) Hstart1 Hd) as Hge.
        pose proof (dist_nonneg (anchorPoint anchor) p1). lra. }
    assert (∀ j, distanceAt (emplaceVertex <$> objects) j
                 = toInt16 <$> handedDistanceAt objects j) as Hrecorded.
    { intros j. unfold distanceAt, handedDistanceAt.
      rewrite list_lookup_fmap. by destruct (objects !! j). }
    split.
    { do 2 f_equal. rewrite length_app, length_fmap, Hlen. f_equal. lia. }
    split; [by rewrite length_fmap|].
    split.
    { intros j p Hp. apply lookup_lt_Some in Hp as Hj.
      destruct (Hall j Hj) as (p' & d & Hp' & Hv).
      exists d. rewrite list_lookup_fmap, Hadded, Hv by done.
      replace p with p' by congruence. done. }
    split.
    { intros p Hp. by replace p with p1 by congruence. }
    split.
    { intros p Hp. by replace p with p0 by congruence. }
    do 4 (split; [done|]).
    split.
    { intros j d Hd. split; [by eapply Hnonneg|]. by rewrite Hrecorded, Hd. }
    intros Hbound. split.
    + intros j k dj dk Hjk Hdj Hdk. rewrite Hrecorded in Hdj, Hdk.
      destruct (handedDistanceAt objects j) as [hj|] eqn:Hhj; [|done].
      destruct (handedDistanceAt objects k) as [hk|] eqn:Hhk; [|done].
      injection Hdj as <-. injection Hdk as <-.
      apply toInt16_mono; [by eapply Hnonneg|by eapply Hmono1|by eapply Hbound].
    + intros j k dj dk Hjk Hdj Hdk. rewrite Hrecorded in Hdj, Hdk.
      destruct (handedDistanceAt objects j) as [hj|] eqn:Hhj; [|done].
      destruct (handedDistanceAt objects k) as [hk|] eqn:Hhk; [|done].
      injection Hdj as <-. injection Hdk as <-.
      apply toInt16_mono; [by eapply Hnonneg|by eapply Hmono0|by eapply Hbound].
Qed.

End LineDistance.

Lemma manhattan_nonneg (p q : Point) : 0 <= @dist manhattan p q.
Proof.
  unfold dist, manhattan. pose proof (Qabs_nonneg (point_x q - point_x p)).
  pose proof (Qabs_nonneg (point_y q - point_y p)). lra.
Qed.

(** A line of three vertices and an anchor on its first segment. *)
Lemma addToLineVertexArray_range_witness :
  let line := [ {| point_x := 0; point_y := 0 |};
                {| point_x := 4; point_y := 0 |};
                {| point_x := 4; point_y := 3 |} ] in
  let anchor := {| anchor_x := 1; anchor_y := 0; anchor_segment := Some 0%nat |} in
  (0 + 1 < length line)%nat
  ∧ ∃ added,
      @addToLineVertexArray manhattan [] anchor line
      = Return ([] ++ added, {| lineStartIndex := 0; lineLength := 3 |})
      ∧ length added = 3%nat.
Proof.
  intros line anchor. split; [simpl; lia|].
  destruct (@addToLineVertexArray_range manhattan line manhattan_nonneg [] anchor)
    as [_ Hsegment].
  destruct (Hsegment 0%nat eq_refl ltac:(simpl; lia))
    as (vertices & added & _ & Hrun & Hlen & _).
  exists added. split; [exact Hrun|exact Hlen].
Defined.

(** C4, as stated, fails for the recorded distances: on a line whose
    vertices are 0, 30000 and 60000 units from the anchor the distances
    handed over are 0, 30000 and 60000, and the [Int16] members record 0,
    30000 and -5536, which decrease away from the anchor. *)
Lemma addToLineVertexArray_recorded_distances_wrap :
  let line := [ {| point_x := 0; point_y := 0 |};
                {| point_x := 30000; point_y := 0 |};
                {| point_x := 60000; point_y := 0 |} ] in
  let anchor := {| anchor_x := 0; anchor_y := 0; anchor_segment := Some 0%nat |} in
  (λ r, map tileUnitDistanceFromAnchor r.1)
    <$> (match @addToLineVertexArray manhattan [] anchor line with
         | Return r => Some r | Throw => None end)
  = Some [0; 30000; -5536]%Z
  ∧ ¬ (30000 ≤ -5536)%Z.
Proof. split; [vm_compute; reflexivity|lia]. Qed.

(** The precondition on the segment index is the code's own: an index
    that is not the index of a segment of the line makes
    [line[anchor.segment + 1]] undefined, and [anchor.dist] throws. *)
Lemma addToLineVertexArray_bad_segment `{PointGeometry}
    (lineVertexArray : list LineVertex) (anchor : Anchor) (line : list Point)
    (segment : nat) :
  anchor_segment anchor = Some segment → (length line ≤ segment + 1)%nat →
  addToLineVertexArray lineVertexArray anchor line = Throw.
Proof.
  intros Hseg Hlen. unfold addToLineVertexArray. rewrite Hseg.
  by rewrite (lookup_ge_None_2 line (segment + 1)) by lia.
Qed.

(** The distances of a three-vertex line seen from its first segment. *)
Example addToLineVertexArray_distances :
  let line := [ {| point_x := 0; point_y := 0 |};
                {| point_x := 4; point_y := 0 |};
                {| point_x := 4; point_y := 3 |} ] in
  let anchor := {| anchor_x := 1; anchor_y := 0; anchor_segment := Some 0%nat |} in
  (λ r, (map tileUnitDistanceFromAnchor r.1, r.2))
    <$> (match @addToLineVertexArray manhattan [] anchor line with
         | Return r => Some r | Throw => None end)
  = Some ([1; 3; 6]%Z, {| lineStartIndex := 0; lineLength := 3 |}).
Proof. vm_compute. reflexivity. Qed.

(** ** Segments *)

Lemma growLastSegment_snoc dv dp (init : list Segment) (segment : Segment) :
  growLastSegment dv dp (init ++ [segment]) = init ++ [growSegment dv dp segment].
Proof.
  unfold growLastSegment. rewrite last_snoc, removelast_last. simpl.
  by destruct init.
Qed.

(** [prepareSegment] hands back a segment with room, and keeps the
    segments before it. *)
Lemma prepareSegment_spec {V I} (numVertices : nat) (segs : list Segment)
    (layout : list V) (index : list I) :
  ∃ init segment,
    prepareSegment numVertices segs layout index = init ++ [segment]
    ∧ (numVertices ≤ MAX_VERTEX_ARRAY_LENGTH →
       vertexLength segment + numVertices ≤ MAX_VERTEX_ARRAY_LENGTH)%nat
    ∧ (segs = init ++ [segment]
       ∨ (init = segs ∧ vertexOffset segment = length layout
          ∧ vertexLength segment = 0%nat)).
Proof.
  unfold prepareSegment. destruct (last segs) as [segment|] eqn:Hlast.
  - apply last_Some in Hlast as [init ->].
    destruct (decide (vertexLength segment + numVertices ≤ MAX_VERTEX_ARRAY_LENGTH)%nat).
    + exists init, segment. split; [done|]. split; [done|]. by left.
    + eexists (init ++ [segment]), _. split; [done|]. split; [simpl; lia|].
      right. by simpl.
  - eexists segs, _. split; [done|]. split; [simpl; lia|]. right. by simpl.
Qed.

Lemma four_vertices_fit : (4 ≤ MAX_VERTEX_ARRAY_LENGTH)%nat.
Proof. unfold MAX_VERTEX_ARRAY_LENGTH. lia. Qed.

(** ** Quad packer *)

Section QuadPacker.
Context `{AttributeEncoding}.
Variable sizeVertex : option (Q * Q).
Variable labelAnchor : Anchor.
Variable placementZoom : Q.

(** One quad: four vertices in every vertex array of the set, two
    triangles on the four vertices just written, one glyph offset. *)
Lemma addSymbolQuad_spec (arrays : SymbolBuffers) (glyphs : list Q)
    (symbol : SymbolQuad) :
  hasSymbolArrays arrays →
  ∃ arrays' index,
    addSymbolQuad sizeVertex labelAnchor placementZoom arrays glyphs symbol
    = Return (arrays', glyphs ++ [fst (quad_glyphOffset symbol)])
    ∧ length (layoutVertexArray arrays') = (length (layoutVertexArray arrays) + 4)%nat
    ∧ indexArray arrays' = indexArray arrays ++ quadTriangles index
    ∧ (index + 4 ≤ MAX_VERTEX_ARRAY_LENGTH)%nat
    ∧ hasSymbolArrays arrays'
    ∧ length <$> dynamicLayoutVertexArray arrays'
      = (λ l, length l + 4)%nat <$> dynamicLayoutVertexArray arrays
    ∧ length <$> opacityVertexArray arrays'
      = (λ l, length l + 4)%nat <$> opacityVertexArray arrays
    ∧ map vertexOffset (segments arrays)
        `prefix_of` map vertexOffset (segments arrays')
    ∧ (segmentsCover arrays →
       segmentsCover arrays'
       ∧ (index ≤ length (layoutVertexArray arrays))%nat
       ∧ (length (layoutVertexArray arrays) - index)%nat
           ∈ map vertexOffset (segments arrays')).
Proof.
  intros [[dyn Hdyn] [op Hop]]. unfold addSymbolQuad.
  destruct (prepareSegment_spec 4 (segments arrays) (layoutVertexArray arrays)
              (indexArray arrays)) as (init & segment & Hprep & Hroom & Hcase).
  rewrite Hprep, last_snoc. simpl.
  unfold addDynamicAttributes. rewrite Hdyn, Hop. simpl.
  rewrite growLastSegment_snoc.
  eexists _, (vertexLength segment). split; [reflexivity|]. simpl.
  split; [unfold addVertex; rewrite !length_app; simpl; lia|].
  split; [done|]. split; [apply Hroom, four_vertices_fit|].
  split; [split; simpl; eauto|].
  split; [by rewrite length_app|].
  split; [by rewrite length_app|].
  split.
  - destruct Hcase as [->|(-> & _)].
    + by rewrite !map_app.
    + rewrite map_app. by apply prefix_app_r.
  - intros Hcover. unfold segmentsCover in *. simpl.
    assert (vertexOffset segment + vertexLength segment
            = length (layoutVertexArray arrays))%nat as Hseg.
    { destruct Hcase as [Heq|(_ & Hoff & Hlen)].
      - apply Hcover. by rewrite Heq, last_snoc.
      - lia. }
    split; [|split].
    + intros segment'. rewrite last_snoc. intros [= <-]. simpl.
      unfold addVertex. rewrite !length_app. simpl. lia.
    + lia.
    + rewrite map_app. apply elem_of_app. right. simpl.
      apply list_elem_of_singleton. lia.
Qed.

(** The loop over the quads of a label. *)
Lemma addSymbolQuads_spec (quads : list SymbolQuad) :
  ∀ (arrays : SymbolBuffers) (glyphs : list Q),
  hasSymbolArrays arrays →
  ∃ arrays' bases,
    addSymbolQuads sizeVertex labelAnchor placementZoom arrays glyphs quads
    = Return (arrays', glyphs ++ map (λ symbol, fst (quad_glyphOffset symbol)) quads)
    ∧ length bases = length quads
    ∧ length (layoutVertexArray arrays')
      = (length (layoutVertexArray arrays) + 4 * length quads)%nat
    ∧ indexArray arrays' = indexArray arrays ++ concat (quadTriangles <$> bases)
    ∧ Forall (λ index, index + 4 ≤ MAX_VERTEX_ARRAY_LENGTH)%nat bases
    ∧ hasSymbolArrays arrays'
    ∧ length <$> dynamicLayoutVertexArray arrays'
      = (λ l, length l + 4 * length quads)%nat <$> dynamicLayoutVertexArray arrays
    ∧ length <$> opacityVertexArray arrays'
      = (λ l, length l + 4 * length quads)%nat <$> opacityVertexArray arrays
    ∧ map vertexOffset (segments arrays)
        `prefix_of` map vertexOffset (segments arrays')
    ∧ (segmentsCover arrays →
       segmentsCover arrays'
       ∧ ∀ j index, bases !! j = Some index →
           (index ≤ length (layoutVertexArray arrays) + 4 * j)%nat
           ∧ (length (layoutVertexArray arrays) + 4 * j - index)%nat
               ∈ map vertexOffset (segments arrays')).
Proof.
  induction quads as [|symbol quads IH]; intros arrays glyphs Hsym.
  - exists arrays, []. simpl. rewrite !app_nil_r, Nat.add_0_r.
    split; [done|]. split; [done|]. split; [done|]. split; [done|].
    split; [constructor|]. split; [done|].
    destruct Hsym as [[dyn Hdyn] [op Hop]]. rewrite Hdyn, Hop. simpl.
    rewrite !Nat.add_0_r. split; [done|]. split; [done|]. split; [done|].
    intros Hcover. split; [done|]. intros j index Hj. done.
  - destruct (addSymbolQuad_spec arrays glyphs symbol Hsym)
      as (arrays1 & index & Hrun1 & Hlay1 & Hidx1 & Hroom1 & Hsym1 & Hdyn1 & Hop1
          & Hpre1 & Hcov1).
    destruct (IH arrays1 (glyphs ++ [fst (quad_glyphOffset symbol)]) Hsym1)
      as (arrays' & bases & Hrun & Hlen & Hlay & Hidx & Hroom & Hsym' & Hdyn & Hop
          & Hpre & Hcov).
    exists arrays', (index :: bases). simpl. rewrite Hrun1. simpl. rewrite Hrun.
    split; [by rewrite <- app_assoc|]. split; [by rewrite Hlen|].
    split; [lia|]. split; [by rewrite Hidx, Hidx1, <- app_assoc|].
    split; [by constructor|]. split; [done|].
    destruct Hsym as [[dyn Hd] [op Ho]]. rewrite Hd, Ho in *.
    destruct (dynamicLayoutVertexArray arrays1) as [dyn1|]; [|done].
    destruct (opacityVertexArray arrays1) as [op1|]; [|done].
    simpl in Hdyn1, Hop1. injection Hdyn1 as Hdyn1. injection Hop1 as Hop1.
    rewrite Hdyn, Hop. simpl.
    split; [f_equal; lia|]. split; [f_equal; lia|].
    split; [by etrans|].
    intros Hcover. destruct (Hcov1 Hcover) as (Hcover1 & Hle1 & Hin1).
    destruct (Hcov Hcover1) as (Hcover' & Hbases).
    split; [done|]. intros [|j] index' Hj; simpl in Hj.
    + injection Hj as <-. split; [lia|].
      match goal with
      | |- ?offset ∈ _ =>
          replace offset with (length (layoutVertexArray arrays) - index)%nat by lia
      end.
      destruct Hpre as [rest ->]. apply elem_of_app. by left.
    + destruct (Hbases j index' Hj) as [Hle Hin]. rewrite Hlay1 in Hle, Hin.
      split; [lia|].
      match goal with
      | |- ?offset ∈ _ =>
          replace offset
            with (length (layoutVertexArray arrays) + 4 + 4 * j - index')%nat by lia
      end.
      done.
Qed.

(** [addSymbols] as a whole, for a set with the arrays of a text or icon
    target: it returns, and this is what it has written. *)
Lemma addSymbols_spec (zoom : Q) (glyphs : list Q) (arrays : SymbolBuffers)
    (quads : list SymbolQuad) (lineOffset : Q * Q) (alongLine : bool)
    (feature : VectorTileFeature) (writingMode : nat)
    (lineStart lineLen : nat) (placed : list PlacedSymbol) :
  placementZoom = zoom →
  hasSymbolArrays arrays →
  ∃ arrays' bases,
    addSymbols zoom glyphs arrays quads sizeVertex lineOffset alongLine feature
               writingMode labelAnchor lineStart lineLen placed
    = Return (glyphs ++ map (λ symbol, fst (quad_glyphOffset symbol)) quads,
              arrays',
              placed
              ++ [ emplacePlacedSymbol
                     (anchor_x labelAnchor) (anchor_y labelAnchor)
                     (length glyphs) (length quads) lineStart lineLen
                     (anchor_segment labelAnchor)
                     (match sizeVertex with Some s => fst s | None => 0 end)
                     (match sizeVertex with Some s => snd s | None => 0 end)
                     (fst lineOffset) (snd lineOffset) zoom writingMode false ])
    ∧ length bases = length quads
    ∧ length (layoutVertexArray arrays')
      = (length (layoutVertexArray arrays) + 4 * length quads)%nat
    ∧ indexArray arrays' = indexArray arrays ++ concat (quadTriangles <$> bases)
    ∧ Forall (λ index, index + 4 ≤ MAX_VERTEX_ARRAY_LENGTH)%nat bases
    ∧ hasSymbolArrays arrays'
    ∧ (segmentsCover arrays →
       segmentsCover arrays'
       ∧ ∀ j index, bases !! j = Some index →
           (index ≤ length (layoutVertexArray arrays) + 4 * j)%nat
           ∧ (length (layoutVertexArray arrays) + 4 * j - index)%nat
               ∈ map vertexOffset (segments arrays')).
Proof.
  intros <- Hsym. unfold addSymbols.
  destruct (addSymbolQuads_spec quads arrays glyphs Hsym)
    as (arrays' & bases & Hrun & Hlen & Hlay & Hidx & Hroom & Hsym' & _ & _ & _ & Hcov).
  rewrite Hrun. cbn [mbind outcome_bind mret outcome_ret]. eexists _, bases. split.
  - replace (length (glyphs ++ map (λ symbol, (quad_glyphOffset symbol).1) quads)
             - length glyphs)%nat with (length quads); [done|].
    rewrite length_app, length_map. lia.
  - simpl. do 4 (split; [done|]). split; [done|].
    intros Hcover. destruct (Hcov Hcover) as [Hcover' Hbases]. split; [|done].
    unfold segmentsCover in *. by simpl.
Qed.
End QuadPacker.

(** ** Debug geometry emitter *)

(** One collision record: four vertices in the layout and in the
    collision vertex array, and the outline or the two triangles. *)
Lemma addCollisionDebugVertices_spec (x1 y1 x2 y2 : Q) (arrays : SymbolBuffers)
    (boxAnchorPoint : Point) (symbolInstance : SymbolInstance) (isCircle : bool) :
  is_Some (collisionVertexArray arrays) →
  ∃ arrays' index,
    addCollisionDebugVertices x1 y1 x2 y2 arrays boxAnchorPoint symbolInstance isCircle
    = Return arrays'
    ∧ length (layoutVertexArray arrays') = (length (layoutVertexArray arrays) + 4)%nat
    ∧ length <$> collisionVertexArray arrays'
      = (λ l, length l + 4)%nat <$> collisionVertexArray arrays
    ∧ indexArray arrays'
      = indexArray arrays ++ (if isCircle then circleTriangles index else boxEdges index)
    ∧ (index + 4 ≤ MAX_VERTEX_ARRAY_LENGTH)%nat.
Proof.
  intros [collision Hcol]. unfold addCollisionDebugVertices.
  destruct (prepareSegment_spec 4 (segments arrays) (layoutVertexArray arrays)
              (indexArray arrays)) as (init & segment & Hprep & Hroom & _).
  rewrite Hprep, last_snoc, Hcol. simpl.
  destruct isCircle; simpl.
  - eexists _, (vertexLength segment).
    split; [reflexivity|]. simpl. rewrite !length_app. simpl.
    split; [lia|]. split; [f_equal; lia|]. split; [done|].
    apply Hroom, four_vertices_fit.
  - eexists _, (vertexLength segment).
    split; [reflexivity|]. simpl. rewrite !length_app. simpl.
    split; [lia|]. split; [f_equal; lia|]. split; [done|].
    apply Hroom, four_vertices_fit.
Qed.

Lemma indexCount_app (a b : list IndexPrimitive) :
  indexCount (a ++ b) = (indexCount a + indexCount b)%nat.
Proof. unfold indexCount. induction a as [|prim a IH]; simpl; [done|]. lia. Qed.

Lemma indexCount_quadTriangles (bases : list nat) :
  indexCount (concat (quadTriangles <$> bases)) = (6 * length bases)%nat.
Proof.
  induction bases as [|index bases IH]; [done|].
  rewrite fmap_cons. cbn [concat]. rewrite indexCount_app, IH.
  unfold indexCount. simpl. lia.
Qed.

Lemma length_quadTriangles (bases : list nat) :
  length (concat (quadTriangles <$> bases)) = (2 * length bases)%nat.
Proof.
  induction bases as [|index bases IH]; [done|].
  rewrite fmap_cons. cbn [concat]. rewrite length_app, IH. simpl. lia.
Qed.

(** C2.  [addSymbols] with [k] quads on a set with the arrays of a text
    or icon target returns, the layout vertex array is [4k] records longer
    and the index array [2k] triangles ([6k] index values) longer; the
    triangles of a quad are [(index, index+1, index+2)] and
    [(index+1, index+2, index+3)], where [index], the vertex count of the
    quad's segment, is the place of the quad's first vertex counted from
    the vertex offset of that segment.  [addCollisionDebugVertices] on a
    debug set appends four vertices, and the four edges of the outline for
    a box, two triangles for a circle. *)
Theorem addSymbols_quad_packing `{AttributeEncoding} :
  (∀ (zoom : Q) (glyphs : list Q) (arrays : SymbolBuffers) (quads : list SymbolQuad)
     (sizeVertex : option (Q * Q)) (lineOffset : Q * Q) (alongLine : bool)
     (feature : VectorTileFeature) (writingMode : nat) (labelAnchor : Anchor)
     (lineStart lineLen : nat) (placed : list PlacedSymbol),
     hasSymbolArrays arrays →
     ∃ glyphs' arrays' placed' bases,
       addSymbols zoom glyphs arrays quads sizeVertex lineOffset alongLine feature
                  writingMode labelAnchor lineStart lineLen placed
       = Return (glyphs', arrays', placed')
       ∧ length (layoutVertexArray arrays')
         = (length (layoutVertexArray arrays) + 4 * length quads)%nat
       ∧ length (indexArray arrays')
         = (length (indexArray arrays) + 2 * length quads)%nat
       ∧ indexCount (indexArray arrays')
         = (indexCount (indexArray arrays) + 6 * length quads)%nat
       ∧ length bases = length quads
       ∧ indexArray arrays' = indexArray arrays ++ concat (quadTriangles <$> bases)
       ∧ (segmentsCover arrays →
          ∀ j index, bases !! j = Some index →
            (index ≤ length (layoutVertexArray arrays) + 4 * j)%nat
            ∧ (length (layoutVertexArray arrays) + 4 * j - index)%nat
                ∈ map vertexOffset (segments arrays')))
  ∧ (∀ (x1 y1 x2 y2 : Q) (arrays : SymbolBuffers) (boxAnchorPoint : Point)
       (symbolInstance : SymbolInstance) (isCircle : bool),
       is_Some (collisionVertexArray arrays) →
       ∃ arrays' index,
         addCollisionDebugVertices x1 y1 x2 y2 arrays boxAnchorPoint symbolInstance
                                   isCircle
         = Return arrays'
         ∧ length (layoutVertexArray arrays')
           = (length (layoutVertexArray arrays) + 4)%nat
         ∧ indexArray arrays'
           = indexArray arrays
             ++ (if isCircle then circleTriangles index else boxEdges index)).
Proof.
  split.
  - intros zoom glyphs arrays quads sizeVertex lineOffset alongLine feature
           writingMode labelAnchor lineStart lineLen placed Hsym.
    destruct (addSymbols_spec sizeVertex labelAnchor zoom zoom glyphs arrays quads
                lineOffset alongLine feature writingMode lineStart lineLen placed
                eq_refl Hsym)
      as (arrays' & bases & Hrun & Hlen & Hlay & Hidx & _ & _ & Hcov).
    eexists _, arrays', _, bases. split; [exact Hrun|].
    split; [done|]. split; [|split; [|split; [done|split; [done|]]]].
    + by rewrite Hidx, length_app, length_quadTriangles, Hlen.
    + by rewrite Hidx, indexCount_app, indexCount_quadTriangles, Hlen.
    + intros Hcover. by destruct (Hcov Hcover).
  - intros x1 y1 x2 y2 arrays boxAnchorPoint symbolInstance isCircle Hcol.
    destruct (addCollisionDebugVertices_spec x1 y1 x2 y2 arrays boxAnchorPoint
                symbolInstance isCircle Hcol)
      as (arrays' & index & Hrun & Hlay & _ & Hidx & _).
    by exists arrays', index.
Qed.

(** Two quads packed into a fresh text set. *)
Lemma addSymbols_quad_packing_witness :
  hasSymbolArrays (newSymbolBuffers textInterface)
  ∧ ∃ glyphs' arrays' placed',
      @addSymbols plainEncoding 5 [] (newSymbolBuffers textInterface)
                  [unitQuad; unitQuad] (Some (12, 12)) (0, 0) false noFeature 1
                  pointAnchor 0 0 []
      = Return (glyphs', arrays', placed')
      ∧ length (layoutVertexArray arrays') = 8%nat
      ∧ indexCount (indexArray arrays') = 12%nat.
Proof.
  assert (hasSymbolArrays (newSymbolBuffers textInterface)) as Hsym
    by (split; simpl; eauto).
  split; [exact Hsym|].
  destruct (@addSymbols_quad_packing plainEncoding) as [Hpack _].
  destruct (Hpack 5 [] (newSymbolBuffers textInterface) [unitQuad; unitQuad]
              (Some (12, 12)) (0, 0) false noFeature 1%nat pointAnchor 0%nat 0%nat []
              Hsym)
    as (glyphs' & arrays' & placed' & bases & Hrun & Hlay & _ & Hcount & _).
  exists glyphs', arrays', placed'. split; [exact Hrun|]. split; [exact Hlay|exact Hcount].
Defined.

(** What the two quads look like in the index array. *)
Example addSymbols_two_quads :
  (λ r, indexArray r.1.2)
    <$> (match @addSymbols plainEncoding 5 [] (newSymbolBuffers textInterface)
                 [unitQuad; unitQuad] (Some (12, 12)) (0, 0) false noFeature 1
                 pointAnchor 0 0 [] with
         | Return r => Some r | Throw => None end)
  = Some [Triangle 0 1 2; Triangle 1 2 3; Triangle 4 5 6; Triangle 5 6 7].
Proof. vm_compute. reflexivity. Qed.

(** On a set without the dynamic and opacity arrays (a debug set) the
    first quad throws: the hypothesis of C2 is the code's own. *)
Example addSymbols_on_debug_set :
  @addSymbols plainEncoding 5 [] (newSymbolBuffers collisionBoxInterface)
              [unitQuad] (Some (12, 12)) (0, 0) false noFeature 1 pointAnchor 0 0 []
  = Throw.
Proof. vm_compute. reflexivity. Qed.




(** ** Ranges of the placed symbols *)

Lemma rangesCompatible_sym (r1 r2 : nat * nat) :
  rangesCompatible r1 r2 → rangesCompatible r2 r1.
Proof. unfold rangesCompatible. intros [->|[?|?]]; auto. Qed.

(** A range that starts at the end of everything claimed so far. *)
Lemma rangesCompatible_fresh (r : nat * nat) (start len : nat) :
  (r.1 + r.2 ≤ start)%nat → rangesCompatible r (start, len).
Proof. unfold rangesCompatible. simpl. auto. Qed.

Lemma emitLoop_grows (vertices : gmap nat VertexObject) todo :
  ∀ i arr arr', emitLoop vertices todo i arr = Return arr' →
    (length arr ≤ length arr')%nat.
Proof.
  induction todo as [|todo IH]; intros i arr arr'; simpl.
  - by intros [= ->].
  - destruct (vertices !! i) as [v|]; simpl; [|done].
    intros Hrun. apply IH in Hrun. rewrite length_app in Hrun. simpl in Hrun. lia.
Qed.

(** Whatever the anchor, a call that returns has claimed the window from
    the old end of the array to its new end. *)
Lemma addToLineVertexArray_window `{PointGeometry} (arr arr' : list LineVertex)
    (anchor : Anchor) (line : list Point) (range : LineRange) :
  addToLineVertexArray arr anchor line = Return (arr', range) →
  lineStartIndex range = length arr
  ∧ (lineStartIndex range + lineLength range = length arr')%nat.
Proof.
  unfold addToLineVertexArray.
  destruct (anchor_segment anchor) as [segment|]; simpl.
  - destruct (line !! (segment + 1)%nat) as [p1|]; simpl; [|done].
    destruct (line !! segment) as [p0|]; simpl; [|done].
    destruct (forwardLoop _ _ _ _ _) as [vs1|]; simpl; [|done].
    destruct (backwardLoop _ _ _ _) as [vs2|]; simpl; [|done].
    destruct (emitLoop _ _ _ _) as [arr1|] eqn:Hemit; simpl; [|done].
    intros [= <- <-]. simpl. apply emitLoop_grows in Hemit. lia.
  - intros [= <- <-]. simpl. lia.
Qed.

(** The loop over the quads only appends to the glyph offsets, whether
    it returns or not. *)
Lemma addSymbolQuads_glyphs `{AttributeEncoding} (sizeVertex : option (Q * Q))
    (labelAnchor : Anchor) (placementZoom : Q) (quads : list SymbolQuad) :
  ∀ arrays glyphs arrays' glyphs',
  addSymbolQuads sizeVertex labelAnchor placementZoom arrays glyphs quads
  = Return (arrays', glyphs') →
  ∃ more, glyphs' = glyphs ++ more.
Proof.
  induction quads as [|symbol quads IH]; intros arrays glyphs arrays' glyphs' Hrun.
  - injection Hrun as _ <-. exists []. by rewrite app_nil_r.
  - cbn [addSymbolQuads] in Hrun.
    destruct (addSymbolQuad _ _ _ _ _ _) as [[arrays1 glyphs1]|] eqn:Hquad;
      [|done].
    cbn [mbind outcome_bind] in Hrun. apply IH in Hrun as [more ->].
    unfold addSymbolQuad in Hquad.
    destruct (defined (last _)) as [segment|]; [|done].
    cbn [mbind outcome_bind] in Hquad.
    destruct (addDynamicAttributes _ _ _ _) as [dynamic|]; [|done].
    cbn [mbind outcome_bind] in Hquad.
    destruct (defined (opacityVertexArray arrays)) as [opacity|]; [|done].
    cbn [mbind outcome_bind mret outcome_ret] in Hquad.
    injection Hquad as _ <-. eexists. by rewrite <- app_assoc.
Qed.

Section Packing.
Context `{PointGeometry} `{AttributeEncoding}.

Lemma packingInvariant_created (b : SymbolBucket) :
  packingInvariant (createArrays b) [].
Proof.
  unfold packingInvariant, placedSymbols. simpl.
  split; [split; simpl; eauto|]. split; [split; simpl; eauto|].
  repeat split; intros; set_solver.
Qed.

Lemma packingInvariant_line b b' ranges anchor line range :
  packingInvariant b ranges →
  SymbolBucket_addToLineVertexArray b anchor line = Return (b', range) →
  packingInvariant b' (ranges ++ [range]).
Proof.
  intros (Htext & Hicon & Hglyph & Hglyphs & Hline & Hlines & Hplaced) Hrun.
  unfold SymbolBucket_addToLineVertexArray in Hrun.
  destruct (addToLineVertexArray _ _ _) as [[arr' range']|] eqn:Hadd;
    simpl in Hrun; [|done].
  injection Hrun as <- <-.
  apply addToLineVertexArray_window in Hadd as [Hstart Hend].
  unfold packingInvariant, placedSymbols in *. simpl.
  split; [done|]. split; [done|]. split; [done|]. split; [done|].
  assert (∀ r, r ∈ ranges →
            rangesCompatible (lineStartIndex r, lineLength r)
                             (lineStartIndex range', lineLength range')) as Hfresh.
  { intros r Hr. apply rangesCompatible_fresh. simpl.
    rewrite Hstart. by apply Hline. }
  split; [|split].
  - intros r [Hr|Hr%list_elem_of_singleton]%elem_of_app.
    + apply Hline in Hr. lia.
    + subst r. lia.
  - intros r1 r2 Hin1 Hin2.
    apply elem_of_app in Hin1 as [Hin1|Hin1]; apply elem_of_app in Hin2 as [Hin2|Hin2];
      try apply list_elem_of_singleton in Hin1;
      try apply list_elem_of_singleton in Hin2; subst.
    + by apply Hlines.
    + by apply Hfresh.
    + by apply rangesCompatible_sym, Hfresh.
    + by left.
  - intros e He. destruct (Hplaced e He) as (r & Hr & Heq).
    exists r. split; [|done]. apply elem_of_app. by left.
Qed.

Lemma packingInvariant_symbols b b' ranges target quads sizeVertex lineOffset
    alongLine feature writingMode labelAnchor range :
  packingInvariant b ranges →
  range ∈ ranges →
  SymbolBucket_addSymbols b target quads sizeVertex lineOffset alongLine feature
                          writingMode labelAnchor
                          (lineStartIndex range) (lineLength range)
  = Return b' →
  indicesFit b' →
  packingInvariant b' ranges.
Proof.
  intros (Htext & Hicon & Hglyph & Hglyphs & Hline & Hlines & Hplaced) Hrange Hrun
         [Hfit16 Hfit32].
  unfold SymbolBucket_addSymbols in Hrun.
  set (arrays := match target with TextTarget => text b | IconTarget => icon b end)
    in Hrun.
  set (placed := match target with
                 | TextTarget => placedGlyphArray b
                 | IconTarget => placedIconArray b
                 end) in Hrun.
  assert (hasSymbolArrays arrays) as Hsym by (by destruct target).
  destruct (addSymbols_spec sizeVertex labelAnchor (bucket_zoom b) (bucket_zoom b)
              (glyphOffsetArray b) arrays quads lineOffset alongLine feature
              writingMode (lineStartIndex range) (lineLength range) placed
              eq_refl Hsym)
    as (arrays' & bases & Hspec & _ & _ & _ & _ & Hsym' & _).
  rewrite Hspec in Hrun. cbn [mbind outcome_bind mret outcome_ret] in Hrun.
  injection Hrun as <-.
  cbn [glyphOffsetArray lineVertexArray] in Hfit16, Hfit32.
  rewrite length_app, length_map in Hfit16.
  match type of Hspec with
  | _ = Return (_, _, _ ++ [?entry]) => set (e := entry) in *
  end.
  assert (glyphRange e = (length (glyphOffsetArray b), length quads)) as Heglyph.
  { unfold glyphRange, e. cbn [emplacePlacedSymbol ps_glyphStartIndex ps_numGlyphs].
    by rewrite !uint16_small by lia. }
  assert (lineRangeOf e = (lineStartIndex range, lineLength range)) as Heline.
  { unfold lineRangeOf, e. cbn [emplacePlacedSymbol ps_lineStartIndex ps_lineLength].
    apply Hline in Hrange. by rewrite !uint32_small by lia. }
  assert (∀ x, x ∈ placedSymbols b →
            rangesCompatible (glyphRange x) (glyphRange e)) as Hfresh.
  { intros x Hx. rewrite Heglyph. apply rangesCompatible_fresh. by apply Hglyph. }
  assert (∀ x, x ∈ (match target with
                    | TextTarget => placed ++ [e]
                    | IconTarget => placedGlyphArray b
                    end)
                   ++ (match target with
                       | TextTarget => placedIconArray b
                       | IconTarget => placed ++ [e]
                       end)
            ↔ x ∈ placedSymbols b ∨ x = e) as Hmem.
  { intros x. unfold placedSymbols, placed.
    destruct target; rewrite !elem_of_app, list_elem_of_singleton; tauto. }
  unfold packingInvariant, placedSymbols.
  cbn [text icon placedGlyphArray placedIconArray glyphOffsetArray lineVertexArray].
  split; [by destruct target|]. split; [by destruct target|].
  split; [|split; [|split; [done|split; [done|]]]].
  - intros x [Hx| ->]%Hmem; rewrite length_app, length_map.
    + apply Hglyph in Hx. lia.
    + change (ps_glyphStartIndex e) with (glyphRange e).1.
      change (ps_numGlyphs e) with (glyphRange e).2. rewrite Heglyph. simpl. lia.
  - intros x1 x2 [H1| ->]%Hmem [H2| ->]%Hmem.
    + by apply Hglyphs.
    + by apply Hfresh.
    + by apply rangesCompatible_sym, Hfresh.
    + by left.
  - intros x [Hx| ->]%Hmem.
    + by apply Hplaced.
    + by exists range.
Qed.

(** Along the packing the shared arrays only grow, so a bucket whose
    indices fit was reached through buckets whose indices fit. *)
Lemma packing_invariant b ranges :
  packing b ranges → indicesFit b → packingInvariant b ranges.
Proof.
  induction 1 as [b|b b' ranges anchor line range _ IH Hrun
                  |b b' ranges target quads sizeVertex lineOffset alongLine feature
                     writingMode labelAnchor range _ IH Hrange Hrun];
    intros Hfit.
  - apply packingInvariant_created.
  - eapply packingInvariant_line; [|done]. apply IH.
    unfold SymbolBucket_addToLineVertexArray in Hrun.
    destruct (addToLineVertexArray _ _ _) as [[arr' range']|] eqn:Hadd;
      simpl in Hrun; [|done].
    injection Hrun as <- <-.
    apply addToLineVertexArray_window in Hadd as [Hstart Hend].
    destruct Hfit as [Hfit16 Hfit32]. simpl in *. split; [done|lia].
  - eapply packingInvariant_symbols; [|done|done|done]. apply IH.
    unfold SymbolBucket_addSymbols in Hrun.
    destruct (addSymbols _ _ _ _ _ _ _ _ _ _ _ _ _) as [[[glyphs' arrays'] placed']|]
      eqn:Hadd; simpl in Hrun; [|done].
    injection Hrun as <-. destruct Hfit as [Hfit16 Hfit32]. simpl in *.
    split; [|done].
    unfold addSymbols in Hadd.
    destruct (addSymbolQuads _ _ _ _ _ _) as [[arrays1 glyphs1]|] eqn:Hquads;
      simpl in Hadd; [|done].
    injection Hadd as <- _ _.
    apply addSymbolQuads_glyphs in Hquads as [more ->].
    rewrite length_app in Hfit16. lia.
Qed.

(** C6.  All along the packing of a bucket (any sequence of calls of
    [addToLineVertexArray] and of [addSymbols], from [createArrays], each
    [addSymbols] with a line range that [addToLineVertexArray] has
    returned), and as long as the glyph-offset array has fewer than 65536
    entries and the line vertex array fewer than 2^32, the glyph-offset
    ranges of any two placed-symbol entries are equal or disjoint, and so
    are their line-vertex ranges; every range lies inside its array. *)
Theorem placed_ranges_never_partially_overlap b ranges e1 e2 :
  packing b ranges →
  indicesFit b →
  e1 ∈ placedSymbols b → e2 ∈ placedSymbols b →
  rangesCompatible (glyphRange e1) (glyphRange e2)
  ∧ rangesCompatible (lineRangeOf e1) (lineRangeOf e2)
  ∧ ((glyphRange e1).1 + (glyphRange e1).2 ≤ length (glyphOffsetArray b))%nat
  ∧ ((lineRangeOf e1).1 + (lineRangeOf e1).2 ≤ length (lineVertexArray b))%nat.
Proof.
  intros Hpacking Hfit H1 H2.
  destruct (packing_invariant b ranges Hpacking Hfit)
    as (_ & _ & Hglyph & Hglyphs & Hline & Hlines & Hplaced).
  destruct (Hplaced e1 H1) as (r1 & Hr1 & Heq1).
  destruct (Hplaced e2 H2) as (r2 & Hr2 & Heq2).
  split; [by apply Hglyphs|]. split; [|split].
  - rewrite Heq1, Heq2. by apply Hlines.
  - by apply Hglyph.
  - rewrite Heq1. simpl. by apply Hline.
Qed.
End Packing.

(** The labelled bucket is reached by packing, and its two entries share
    the line range and have the glyph ranges [(0, 1)] and [(1, 2)]. *)
Lemma placed_ranges_never_partially_overlap_witness :
  ∃ e1 e2,
    placedSymbols labelledBucket = [e1; e2]
    ∧ glyphRange e1 = (0, 1)%nat ∧ glyphRange e2 = (1, 2)%nat
    ∧ lineRangeOf e1 = (0, 3)%nat ∧ lineRangeOf e2 = (0, 3)%nat
    ∧ rangesCompatible (glyphRange e1) (glyphRange e2)
    ∧ rangesCompatible (lineRangeOf e1) (lineRangeOf e2).
Proof.
  set (range := {| lineStartIndex := 0; lineLength := 3 |}).
  destruct (@SymbolBucket_addToLineVertexArray manhattan blankBucket lineAnchor
              threePointLine) as [[b1 range1]|] eqn:Hline; [|by vm_compute in Hline].
  assert (range1 = range) as ->
    by (vm_compute in Hline; by injection Hline as _ <-).
  destruct (@SymbolBucket_addSymbols plainEncoding b1 TextTarget [unitQuad]
              (Some (12, 12)) (0, 0) true noFeature 1%nat lineAnchor 0%nat 3%nat)
    as [b2|] eqn:Htext.
  2: { injection Hline as <-. by vm_compute in Htext. }
  destruct (@SymbolBucket_addSymbols plainEncoding b2 IconTarget [unitQuad; unitQuad]
              None (0, 0) true noFeature 1%nat lineAnchor 0%nat 3%nat)
    as [b3|] eqn:Hicon.
  2: { injection Hline as <-. vm_compute in Htext. injection Htext as <-.
       by vm_compute in Hicon. }
  assert (@packing manhattan plainEncoding b3 [range]) as Hpacking.
  { eapply packing_symbols; [|by apply list_elem_of_singleton|exact Hicon].
    eapply packing_symbols; [|by apply list_elem_of_singleton|exact Htext].
    eapply (packing_line _ _ []); [apply packing_created|exact Hline]. }
  assert (b3 = labelledBucket) as Hb3.
  { unfold labelledBucket. rewrite Hline. simpl. rewrite Htext. simpl.
    by rewrite Hicon. }
  rewrite Hb3 in Hpacking.
  assert (indicesFit labelledBucket) as Hfit.
  { unfold indicesFit.
    change (length (glyphOffsetArray labelledBucket)) with 3%nat.
    change (length (lineVertexArray labelledBucket)) with 3%nat. lia. }
  eexists _, _. split; [vm_compute; reflexivity|].
  do 4 (split; [reflexivity|]).
  refine (let Hc := placed_ranges_never_partially_overlap _ _ _ _ Hpacking Hfit _ _ in
          conj (proj1 Hc) (proj1 (proj2 Hc))).
  - vm_compute. apply list_elem_of_here.
  - vm_compute. apply list_elem_of_further, list_elem_of_here.
Defined.

(** C6, as stated, fails for a sequence of calls in which [addSymbols]
    is handed line ranges of its caller's making: the ranges are copied
    into the entries as they come, and [(0, 3)] and [(1, 3)] overlap
    without being equal. *)
Lemma placed_line_ranges_overlap_unchecked :
  map lineRangeOf (placedSymbols uncheckedRangesBucket) = [(0, 3); (1, 3)]%nat
  ∧ ¬ rangesCompatible (0, 3)%nat (1, 3)%nat.
Proof.
  split; [vm_compute; reflexivity|].
  unfold rangesCompatible. simpl. intros [[=]|[?|?]]; lia.
Qed.

(** ** Flattening of collision records *)

Section Flattening.
Variable collisionBoxArray : list CollisionBox.

(** The loop of [deserializeCollisionBoxes] in one equation: all the
    records of the range when they all have radius 0, nothing
    otherwise. *)
Lemma deserializeCollisionBoxesLoop_spec todo : ∀ k boxes,
  (k + todo ≤ length collisionBoxArray)%nat →
  deserializeCollisionBoxesLoop collisionBoxArray todo k boxes
  = Return (if forallb (λ box, Qeq_bool (box_radius box) 0)
                       (take todo (drop k collisionBoxArray))
            then boxes ++ concat (boxValues <$> take todo (drop k collisionBoxArray))
            else []).
Proof.
  induction todo as [|todo IH]; intros k boxes Hlen; simpl.
  - by rewrite app_nil_r.
  - destruct (lookup_lt_is_Some_2 collisionBoxArray k) as [box Hbox]; [lia|].
    unfold getBox. rewrite Hbox. simpl. rewrite (drop_S _ _ _ Hbox). simpl.
    destruct (Qeq_bool (box_radius box) 0); simpl; [|done].
    rewrite IH by lia. destruct (forallb _ _); [|done].
    by rewrite <- app_assoc.
Qed.

Lemma deserializeCollisionCirclesLoop_spec todo : ∀ k circles,
  (k + todo ≤ length collisionBoxArray)%nat →
  deserializeCollisionCirclesLoop collisionBoxArray todo k circles
  = Return (if forallb (λ box, negb (Qeq_bool (box_radius box) 0))
                       (take todo (drop k collisionBoxArray))
            then circles ++ concat (circleValues <$> take todo (drop k collisionBoxArray))
            else []).
Proof.
  induction todo as [|todo IH]; intros k circles Hlen; simpl.
  - by rewrite app_nil_r.
  - destruct (lookup_lt_is_Some_2 collisionBoxArray k) as [box Hbox]; [lia|].
    unfold getBox. rewrite Hbox. simpl. rewrite (drop_S _ _ _ Hbox). simpl.
    destruct (Qeq_bool (box_radius box) 0); simpl; [done|].
    rewrite IH by lia. destruct (forallb _ _); [|done].
    by rewrite <- app_assoc.
Qed.

Lemma forallb_boxKind (records : list CollisionBox) :
  forallb (λ box, Qeq_bool (box_radius box) 0) records = true
  ↔ Forall boxKind records.
Proof.
  rewrite forallb_forall, Forall_forall. unfold boxKind.
  split; intros Hall box Hin.
  - apply Qeq_bool_iff, Hall. by apply list_elem_of_In.
  - apply Qeq_bool_iff, Hall. by apply list_elem_of_In.
Qed.

Lemma forallb_circleKind (records : list CollisionBox) :
  forallb (λ box, negb (Qeq_bool (box_radius box) 0)) records = true
  ↔ Forall circleKind records.
Proof.
  rewrite forallb_forall, Forall_forall. unfold circleKind.
  split; intros Hall box Hin.
  - intros Heq%Qeq_bool_iff. apply list_elem_of_In, Hall in Hin.
    rewrite Heq in Hin. done.
  - apply negb_true_iff, not_true_is_false. intros Heq%Qeq_bool_iff.
    by eapply Hall; [apply list_elem_of_In|].
Qed.

Lemma length_boxValues (records : list CollisionBox) :
  length (concat (boxValues <$> records)) = (6 * length records)%nat.
Proof.
  induction records as [|box records IH]; [done|].
  rewrite fmap_cons. cbn [concat]. rewrite length_app, IH. simpl. lia.
Qed.

Lemma length_circleValues (records : list CollisionBox) :
  length (concat (circleValues <$> records)) = (5 * length records)%nat.
Proof.
  induction records as [|box records IH]; [done|].
  rewrite fmap_cons. cbn [concat]. rewrite length_app, IH. simpl. lia.
Qed.

Lemma length_recordsOf (startIndex endIndex : nat) :
  (endIndex ≤ length collisionBoxArray)%nat →
  length (recordsOf collisionBoxArray startIndex endIndex)
  = (endIndex - startIndex)%nat.
Proof. intros Hend. unfold recordsOf. rewrite length_take, length_drop. lia. Qed.

(** The two routines in one equation each. *)
Lemma deserializeCollisionBoxes_eq (startIndex endIndex : nat) :
  (endIndex ≤ length collisionBoxArray)%nat →
  deserializeCollisionBoxes collisionBoxArray startIndex endIndex
  = Return (if forallb (λ box, Qeq_bool (box_radius box) 0)
                       (recordsOf collisionBoxArray startIndex endIndex)
            then concat (boxValues <$> recordsOf collisionBoxArray startIndex endIndex)
            else []).
Proof.
  intros Hend. unfold deserializeCollisionBoxes, recordsOf.
  destruct (decide (startIndex ≤ endIndex)%nat) as [Hle|Hgt].
  - by rewrite deserializeCollisionBoxesLoop_spec by lia.
  - by replace (endIndex - startIndex)%nat with 0%nat by lia.
Qed.

Lemma deserializeCollisionCircles_eq (startIndex endIndex : nat) :
  (endIndex ≤ length collisionBoxArray)%nat →
  deserializeCollisionCircles collisionBoxArray startIndex endIndex
  = Return (if forallb (λ box, negb (Qeq_bool (box_radius box) 0))
                       (recordsOf collisionBoxArray startIndex endIndex)
            then concat (circleValues <$> recordsOf collisionBoxArray startIndex endIndex)
            else []).
Proof.
  intros Hend. unfold deserializeCollisionCircles, recordsOf.
  destruct (decide (startIndex ≤ endIndex)%nat) as [Hle|Hgt].
  - by rewrite deserializeCollisionCirclesLoop_spec by lia.
  - by replace (endIndex - startIndex)%nat with 0%nat by lia.
Qed.

Lemma elem_of_recordsOf (startIndex endIndex k : nat) (box : CollisionBox) :
  (startIndex ≤ k < endIndex)%nat → collisionBoxArray !! k = Some box →
  box ∈ recordsOf collisionBoxArray startIndex endIndex.
Proof.
  intros Hk Hbox. apply (list_elem_of_lookup_2 _ (k - startIndex)%nat).
  unfold recordsOf. rewrite lookup_take_lt, lookup_drop by lia.
  by replace (startIndex + (k - startIndex))%nat with k by lia.
Qed.

(** C9.  On a range inside the store, [deserializeCollisionBoxes] returns
    the empty list as soon as a record of the range is a circle (radius
    other than 0), and otherwise the six values of each record, in order;
    [deserializeCollisionCircles] returns the empty list as soon as a
    record of the range is a box (radius 0), and otherwise the five values
    of each record, the last one [false]. *)
Theorem deserialize_collision_records (startIndex endIndex : nat) :
  (endIndex ≤ length collisionBoxArray)%nat →
  let records := recordsOf collisionBoxArray startIndex endIndex in
  (Exists circleKind records →
     deserializeCollisionBoxes collisionBoxArray startIndex endIndex = Return [])
  ∧ (Forall boxKind records →
       ∃ boxes,
         deserializeCollisionBoxes collisionBoxArray startIndex endIndex = Return boxes
         ∧ boxes = concat (boxValues <$> records)
         ∧ length boxes = (6 * (endIndex - startIndex))%nat)
  ∧ (Exists boxKind records →
       deserializeCollisionCircles collisionBoxArray startIndex endIndex = Return [])
  ∧ (Forall circleKind records →
       ∃ circles,
         deserializeCollisionCircles collisionBoxArray startIndex endIndex
         = Return circles
         ∧ circles = concat (circleValues <$> records)
         ∧ length circles = (5 * (endIndex - startIndex))%nat).
Proof.
  intros Hend records.
  pose proof (deserializeCollisionBoxes_eq startIndex endIndex Hend) as Hboxes.
  pose proof (deserializeCollisionCircles_eq startIndex endIndex Hend) as Hcircles.
  fold records in Hboxes, Hcircles.
  pose proof (length_recordsOf startIndex endIndex Hend) as Hlen. fold records in Hlen.
  split; [|split; [|split]].
  - intros Hex. rewrite Hboxes.
    destruct (forallb _ records) eqn:Hall; [|done].
    apply forallb_boxKind in Hall. apply Exists_exists in Hex as (box & Hin & Hcircle).
    rewrite Forall_forall in Hall. destruct Hcircle. by apply Hall.
  - intros Hall. apply forallb_boxKind in Hall. rewrite Hboxes, Hall.
    eexists. split; [done|]. split; [done|]. by rewrite length_boxValues, Hlen.
  - intros Hex. rewrite Hcircles. clear Hboxes.
    destruct (forallb _ records) eqn:Hall; [|done].
    apply forallb_circleKind in Hall. apply Exists_exists in Hex as (box & Hin & Hbox).
    rewrite Forall_forall in Hall. by destruct (Hall box Hin).
  - intros Hall. apply forallb_circleKind in Hall. rewrite Hcircles, Hall.
    eexists. split; [done|]. split; [done|]. by rewrite length_circleValues, Hlen.
Qed.
End Flattening.

(** Two boxes: twelve values as boxes, nothing as circles. *)
Lemma deserialize_collision_records_witness :
  (2 ≤ length [boxRecord; boxRecord])%nat
  ∧ (∃ boxes,
       deserializeCollisionBoxes [boxRecord; boxRecord] 0 2 = Return boxes
       ∧ length boxes = 12%nat)
  ∧ deserializeCollisionCircles [boxRecord; boxRecord] 0 2 = Return [].
Proof.
  assert (2 ≤ length [boxRecord; boxRecord])%nat as Hlen by (simpl; lia).
  assert (Forall boxKind (recordsOf [boxRecord; boxRecord] 0 2)) as Hboxes
    by (repeat constructor; reflexivity).
  destruct (deserialize_collision_records [boxRecord; boxRecord] 0 2 Hlen)
    as (_ & Hflat & Hmismatch & _).
  split; [exact Hlen|]. split.
  - destruct (Hflat Hboxes) as (boxes & Hrun & _ & Hsize).
    exists boxes. split; [exact Hrun|exact Hsize].
  - apply Hmismatch. apply Exists_cons_hd. reflexivity.
Defined.

(** ** The three readings of a negative radius *)

(** C10.  A record with a strictly negative radius is read in three ways.
    [generateCollisionDebugBuffers] takes it for a box (its test is
    [radius > 0]): for a symbol instance whose text range is that record
    alone, four vertices and the four edges of an outline go to the
    [collisionBox] set and the [collisionCircle] set is left as it was.
    [deserializeCollisionBoxes] on a range that contains it returns the
    empty list (its test is [radius !== 0]).  [deserializeCollisionCircles]
    on a non-empty range of such records returns their circles, five
    values each (its test is [radius === 0]). *)
Theorem negative_radius_classification (collisionBoxArray : list CollisionBox)
    (k : nat) (box : CollisionBox) :
  collisionBoxArray !! k = Some box →
  box_radius box < 0 →
  (∀ (symbolInstance : SymbolInstance) (collisionBox collisionCircle : SymbolBuffers),
     textBoxStartIndex symbolInstance = k →
     textBoxEndIndex symbolInstance = S k →
     (iconBoxEndIndex symbolInstance ≤ iconBoxStartIndex symbolInstance)%nat →
     is_Some (collisionVertexArray collisionBox) →
     ∃ collisionBox' index,
       generateCollisionDebugBuffers collisionBoxArray [symbolInstance]
                                     collisionBox collisionCircle
       = Return ([withCollisionFeatures symbolInstance], collisionBox', collisionCircle)
       ∧ length (layoutVertexArray collisionBox')
         = (length (layoutVertexArray collisionBox) + 4)%nat
       ∧ indexArray collisionBox' = indexArray collisionBox ++ boxEdges index)
  ∧ (∀ startIndex endIndex,
       (startIndex ≤ k < endIndex)%nat → (endIndex ≤ length collisionBoxArray)%nat →
       deserializeCollisionBoxes collisionBoxArray startIndex endIndex = Return [])
  ∧ (∀ startIndex endIndex,
       (startIndex < endIndex ≤ length collisionBoxArray)%nat →
       Forall (λ record, box_radius record < 0)
              (recordsOf collisionBoxArray startIndex endIndex) →
       ∃ circles,
         deserializeCollisionCircles collisionBoxArray startIndex endIndex
         = Return circles
         ∧ circles
           = concat (circleValues <$> recordsOf collisionBoxArray startIndex endIndex)
         ∧ length circles = (5 * (endIndex - startIndex))%nat
         ∧ circles ≠ []).
Proof.
  intros Hbox Hneg. split; [|split].
  - intros si cb cc Hstart Hend Hicon Hcol.
    destruct (addCollisionDebugVertices_spec (box_x1 box) (box_y1 box) (box_x2 box)
                (box_y2 box) cb (box_anchorPoint box) (withCollisionFeatures si)
                false Hcol) as (cb' & index & Hrun & Hlay & _ & Hidx & _).
    exists cb', index. split; [|done].
    unfold generateCollisionDebugBuffers, addCollisionDebugFeature. simpl.
    rewrite Hstart, Hend.
    replace (S k - k)%nat with 1%nat by lia.
    replace (iconBoxEndIndex si - iconBoxStartIndex si)%nat with 0%nat by lia.
    simpl. unfold getBox. rewrite Hbox. simpl.
    unfold addCollisionDebugBox.
    assert (Qle_bool (box_radius box) 0 = true) as ->
      by (apply Qle_bool_iff; lra).
    simpl. by rewrite Hrun.
  - intros startIndex endIndex Hk Hend.
    rewrite deserializeCollisionBoxes_eq by done.
    destruct (forallb _ _) eqn:Hall; [|done].
    apply forallb_boxKind in Hall. rewrite Forall_forall in Hall.
    pose proof (Hall box (elem_of_recordsOf _ _ _ _ _ Hk Hbox)) as Hzero.
    unfold boxKind in Hzero. lra.
  - intros startIndex endIndex Hrange Hall.
    assert (Forall circleKind (recordsOf collisionBoxArray startIndex endIndex))
      as Hcircles.
    { eapply Forall_impl; [exact Hall|]. intros record Hrecord.
      simpl in Hrecord. unfold circleKind. intros Heq. lra. }
    apply forallb_circleKind in Hcircles.
    rewrite deserializeCollisionCircles_eq, Hcircles by lia.
    eexists. split; [done|]. split; [done|].
    rewrite length_circleValues, length_recordsOf by lia. split; [done|].
    intros Hempty. apply (f_equal length) in Hempty.
    rewrite length_circleValues, length_recordsOf in Hempty by lia.
    simpl in Hempty. lia.
Qed.

(** The negative record alone in the store, as the text range of one
    symbol instance. *)
Lemma negative_radius_classification_witness :
  [negativeRecord] !! 0%nat = Some negativeRecord
  ∧ box_radius negativeRecord < 0
  ∧ (∃ collisionBox' index,
       generateCollisionDebugBuffers [negativeRecord] [oneRecordInstance]
         (newSymbolBuffers collisionBoxInterface)
         (newSymbolBuffers collisionCircleInterface)
       = Return ([withCollisionFeatures oneRecordInstance], collisionBox',
                 newSymbolBuffers collisionCircleInterface)
       ∧ indexArray collisionBox' = [] ++ boxEdges index)
  ∧ deserializeCollisionBoxes [negativeRecord] 0 1 = Return []
  ∧ (∃ circles,
       deserializeCollisionCircles [negativeRecord] 0 1 = Return circles
       ∧ length circles = 5%nat).
Proof.
  assert (box_radius negativeRecord < 0) as Hneg by reflexivity.
  destruct (negative_radius_classification [negativeRecord] 0 negativeRecord
              eq_refl Hneg) as (Hdebug & Hboxes & Hcircles).
  split; [reflexivity|]. split; [exact Hneg|]. split; [|split].
  - destruct (Hdebug oneRecordInstance (newSymbolBuffers collisionBoxInterface)
                (newSymbolBuffers collisionCircleInterface) eq_refl eq_refl)
      as (cb' & index & Hrun & _ & Hidx).
    + simpl. lia.
    + simpl. eauto.
    + exists cb', index. split; [exact Hrun|exact Hidx].
  - apply Hboxes; simpl; lia.
  - destruct (Hcircles 0%nat 1%nat) as (circles & Hrun & _ & Hsize & _).
    + simpl. lia.
    + repeat constructor.
    + exists circles. split; [exact Hrun|exact Hsize].
Defined.

(** The same record through the three routines, computed. *)
Example negative_radius_three_readings :
  (indexArray <$> (match generateCollisionDebugBuffers [negativeRecord]
                           [oneRecordInstance]
                           (newSymbolBuffers collisionBoxInterface)
                           (newSymbolBuffers collisionCircleInterface) with
                   | Return r => Some r.1.2 | Throw => None end))
  = Some [LineEdge 0 1; LineEdge 1 2; LineEdge 2 3; LineEdge 3 0]
  ∧ deserializeCollisionBoxes [negativeRecord] 0 1 = Return []
  ∧ deserializeCollisionCircles [negativeRecord] 0 1
    = Return [ FlatNumber 100; FlatNumber 200; FlatNumber (-3); FlatNumber 0;
               FlatBoolean false ].
Proof. vm_compute. repeat split. Qed.

(** ** Feature collector *)

Section Populate.
Context `{TextCollaborators}.
Variable layer : StyleLayer.
Variable zoom : Q.

Lemma truthy_Some_cons (v : option jsstring) :
  truthy v = true ↔ ∃ c rest, v = Some (c :: rest).
Proof.
  destruct v as [[|c rest]|]; simpl; split; try done; try (by intros (? & ? & ?)).
  eauto.
Qed.

(** One step of the loop of [populate], by cases. *)
Lemma populateFeature_retained (acc : Collected) (indexed : IndexedFeature) :
  retained layer zoom indexed = true →
  col_features (populateFeature layer zoom acc indexed)
  = col_features acc ++ [symbolFeatureOf layer zoom indexed].
Proof.
  unfold retained, populateFeature.
  intros [Hfilter Hlabel%orb_true_iff]%andb_true_iff. rewrite Hfilter. simpl.
  destruct (truthy (featureText _ _ _)), (truthy (featureIcon _ _ _));
    simpl; try done. by destruct Hlabel.
Qed.

Lemma populateFeature_dropped (acc : Collected) (indexed : IndexedFeature) :
  retained layer zoom indexed = false →
  populateFeature layer zoom acc indexed = acc.
Proof.
  unfold retained, populateFeature.
  destruct (filter layer (if_feature indexed)); simpl; [|done].
  intros [-> ->]%orb_false_iff. done.
Qed.

(** The features the loop collects: the retained ones, in order. *)
Lemma populate_loop_features (features : list IndexedFeature) : ∀ acc,
  col_features (foldl (populateFeature layer zoom) acc features)
  = col_features acc
    ++ (symbolFeatureOf layer zoom <$> List.filter (retained layer zoom) features).
Proof.
  induction features as [|indexed features IH]; intros acc; simpl.
  - by rewrite app_nil_r.
  - rewrite IH. destruct (retained layer zoom indexed) eqn:Hret.
    + rewrite populateFeature_retained by done. by rewrite <- app_assoc.
    + by rewrite populateFeature_dropped.
Qed.

(** The character codes one code unit adds to the stack. *)
Lemma elem_of_addGlyphDependency (vertical : bool) (stack : gset N) (ch c : N) :
  c ∈ addGlyphDependency vertical stack ch
  ↔ c ∈ stack ∨ c = ch
    ∨ (vertical = true ∧ ∃ rest, verticalizePunctuation_lookup ch = Some (c :: rest)).
Proof.
  unfold addGlyphDependency. destruct vertical.
  - destruct (verticalizePunctuation_lookup ch) as [[|v rest]|] eqn:Hlookup.
    + rewrite elem_of_union, elem_of_singleton.
      split; [tauto|]. intros [?|[?|[_ [? [=]]]]]; tauto.
    + rewrite !elem_of_union, !elem_of_singleton. split.
      * intros [->|[->|?]]; eauto 6.
      * intros [?|[?|[_ [rest' [= -> _]]]]]; tauto.
    + rewrite elem_of_union, elem_of_singleton.
      split; [tauto|]. intros [?|[?|[_ [? [=]]]]]; tauto.
  - rewrite elem_of_union, elem_of_singleton.
    split; [tauto|]. intros [?|[?|[[=] _]]]; tauto.
Qed.

Lemma elem_of_foldl_addGlyphDependency (vertical : bool) (text : jsstring) (c : N) :
  ∀ stack,
  c ∈ foldl (addGlyphDependency vertical) stack text
  ↔ c ∈ stack ∨ c ∈ text
    ∨ (vertical = true
       ∧ ∃ ch rest, ch ∈ text ∧ verticalizePunctuation_lookup ch = Some (c :: rest)).
Proof.
  induction text as [|ch text IH]; intros stack; simpl.
  - split; [tauto|]. intros [?|[Hin|(_ & ? & ? & Hin & _)]]; [done| |];
      by apply not_elem_of_nil in Hin.
  - rewrite IH, elem_of_addGlyphDependency. split.
    + intros [[?|[->|(Hv & rest & Hlookup)]]|[?|(Hv & ch' & rest & Hin & Hlookup)]].
      * tauto.
      * right. left. apply list_elem_of_here.
      * right. right. split; [done|]. exists ch, rest. split; [|done].
        apply list_elem_of_here.
      * right. left. by apply list_elem_of_further.
      * right. right. split; [done|]. exists ch', rest. split; [|done].
        by apply list_elem_of_further.
    + intros [?|[Hin|(Hv & ch' & rest & Hin & Hlookup)]].
      * tauto.
      * apply elem_of_cons in Hin as [->|Hin]; tauto.
      * apply elem_of_cons in Hin as [->|Hin].
        -- left. right. right. eauto.
        -- right. right. split; [done|]. eauto.
Qed.

(** The character codes a text adds to the stack. *)
Lemma elem_of_addGlyphDependencies (stack : gset N) (text : jsstring) (c : N) :
  c ∈ addGlyphDependencies layer stack text ↔ c ∈ stack ∨ glyphNeeded layer text c.
Proof.
  unfold addGlyphDependencies, glyphNeeded.
  rewrite elem_of_foldl_addGlyphDependency, andb_true_iff. tauto.
Qed.

(** The stack after the loop: what was there, and what the texts of the
    retained features need. *)
Lemma populate_loop_stack (c : N) (features : list IndexedFeature) : ∀ acc,
  c ∈ col_stack (foldl (populateFeature layer zoom) acc features)
  ↔ c ∈ col_stack acc
    ∨ ∃ indexed text,
        indexed ∈ features ∧ retained layer zoom indexed = true
        ∧ featureText layer zoom (if_feature indexed) = Some text
        ∧ glyphNeeded layer text c.
Proof.
  induction features as [|indexed features IH]; intros acc; simpl.
  - split; [tauto|]. intros [?|(? & ? & Hin & _)]; [done|].
    by apply not_elem_of_nil in Hin.
  - rewrite IH. destruct (retained layer zoom indexed) eqn:Hret.
    + assert (c ∈ col_stack (populateFeature layer zoom acc indexed)
              ↔ c ∈ col_stack acc
                ∨ ∃ text, featureText layer zoom (if_feature indexed) = Some text
                          ∧ glyphNeeded layer text c) as Hstep.
      { unfold retained in Hret. unfold populateFeature.
        apply andb_true_iff in Hret as [Hfilter Hlabel]. rewrite Hfilter. simpl.
        apply orb_true_iff in Hlabel.
        destruct (featureText layer zoom (if_feature indexed)) as [[|ch text]|] eqn:Htext;
          simpl.
        - destruct (truthy (featureIcon _ _ _)); simpl; [|by destruct Hlabel].
          split; [tauto|]. intros [?|(text & [= <-] & Hneeded)]; [done|].
          destruct Hneeded as [Hin|(_ & _ & ? & ? & Hin & _)];
            by apply not_elem_of_nil in Hin.
        - rewrite elem_of_addGlyphDependencies. split.
          + intros [?|?]; eauto.
          + intros [?|(text' & [= <-] & ?)]; tauto.
        - destruct (truthy (featureIcon _ _ _)); simpl; [|by destruct Hlabel].
          split; [tauto|]. by intros [?|(text & [=] & _)]. }
      rewrite Hstep. split.
      * intros [[?|(text & Htext & Hneeded)]|(indexed' & text & Hin & ? & ? & ?)].
        -- tauto.
        -- right. exists indexed, text. split; [apply list_elem_of_here|done].
        -- right. exists indexed', text. split; [by apply list_elem_of_further|done].
      * intros [?|(indexed' & text & Hin & Hret' & Htext & Hneeded)]; [tauto|].
        apply elem_of_cons in Hin as [->|Hin]; [left; right; eauto|].
        right. exists indexed', text. done.
    + rewrite populateFeature_dropped by done. split.
      * intros [?|(indexed' & text & Hin & ? & ? & ?)]; [tauto|].
        right. exists indexed', text. split; [by apply list_elem_of_further|done].
      * intros [?|(indexed' & text & Hin & Hret' & Htext & Hneeded)]; [tauto|].
        apply elem_of_cons in Hin as [->|Hin]; [congruence|].
        right. exists indexed', text. done.
Qed.
End Populate.

Section PopulateClaims.
Context `{TextCollaborators}.

Lemma elem_of_collected (layer : StyleLayer) (zoom : Q)
    (features : list IndexedFeature) (f : SymbolFeature) :
  f ∈ symbolFeatureOf layer zoom <$> List.filter (retained layer zoom) features
  ↔ ∃ indexed, indexed ∈ features ∧ retained layer zoom indexed = true
               ∧ f = symbolFeatureOf layer zoom indexed.
Proof.
  rewrite list_elem_of_fmap. split.
  - intros (indexed & -> & Hin). apply list_elem_of_In, filter_In in Hin as [Hin Hret].
    exists indexed. by rewrite list_elem_of_In.
  - intros (indexed & Hin & Hret & ->). exists indexed. split; [done|].
    apply list_elem_of_In, filter_In. by rewrite <- list_elem_of_In.
Qed.

(** [populate] returns as soon as the bucket has a layer; this is its
    result. *)
Lemma populate_eq (layers : list StyleLayer) (zoom : Q)
    (features : list IndexedFeature) (options : PopulateParameters)
    (layer : StyleLayer) :
  head layers = Some layer →
  populate layers zoom features options
  = Return
      (if negb (hasText layer) && negb (hasIcon layer) then ([], options)
       else
         let key := fontStackKey (layout_text_font layer) in
         let acc :=
           foldl (populateFeature layer zoom)
                 {| col_features := [];
                    col_icons := iconDependencies options;
                    col_stack := default ∅ (glyphDependencies options !! key) |}
                 features in
         (if bool_decide (layout_symbol_placement layer = "line")
          then mergeLines (col_features acc) else col_features acc,
          {| iconDependencies := col_icons acc;
             glyphDependencies := <[key := col_stack acc]> (glyphDependencies options) |})).
Proof.
  intros Hlayer. unfold populate. rewrite Hlayer. simpl.
  by destruct (negb (hasText layer) && negb (hasIcon layer)).
Qed.

Hypothesis mergeLines_labels : ∀ features f,
  f ∈ mergeLines features →
  ∃ f0, f0 ∈ features ∧ sf_text f = sf_text f0 ∧ sf_icon f = sf_icon f0.

(** C7.  [populate] returns, and every feature of the resulting list has
    a truthy text or a truthy icon.  The list is made of the features that
    pass the filter and have a truthy text or icon, in order (merged by
    [mergeLines] for a line placement, which keeps texts and icons): a
    feature whose text and icon are both empty is not in it.  For a layer
    with neither text nor icon the list is empty and the dependency sets
    are left as they were. *)
Theorem populate_retains_labelled_features (layers : list StyleLayer) (zoom : Q)
    (features : list IndexedFeature) (options : PopulateParameters)
    (layer : StyleLayer) :
  head layers = Some layer →
  ∃ features' options',
    populate layers zoom features options = Return (features', options')
    ∧ (∀ f, f ∈ features' → truthy (sf_text f) || truthy (sf_icon f) = true)
    ∧ (hasText layer || hasIcon layer = true →
       let collected :=
         symbolFeatureOf layer zoom <$> List.filter (retained layer zoom) features in
       features' = if bool_decide (layout_symbol_placement layer = "line")
                   then mergeLines collected else collected)
    ∧ (hasText layer = false → hasIcon layer = false →
       features' = [] ∧ options' = options).
Proof.
  intros Hlayer. rewrite (populate_eq _ _ _ _ layer Hlayer).
  destruct (negb (hasText layer) && negb (hasIcon layer)) eqn:Hneither.
  - apply andb_true_iff in Hneither as [HnoText%negb_true_iff HnoIcon%negb_true_iff].
    eexists _, _. split; [reflexivity|]. split; [|split].
    + intros f Hin. by apply not_elem_of_nil in Hin.
    + rewrite HnoText, HnoIcon. done.
    + done.
  - eexists _, _. split; [reflexivity|]. simpl.
    rewrite populate_loop_features. simpl.
    assert (∀ f, f ∈ symbolFeatureOf layer zoom
                     <$> List.filter (retained layer zoom) features →
                 truthy (sf_text f) || truthy (sf_icon f) = true) as Hcollected.
    { intros f (indexed & _ & Hret & ->)%elem_of_collected. simpl.
      unfold retained in Hret. by apply andb_true_iff in Hret as [_ Hret]. }
    split; [|split].
    + intros f Hin. destruct (bool_decide _); [|by apply Hcollected].
      apply mergeLines_labels in Hin as (f0 & Hin0 & -> & ->). by apply Hcollected.
    + done.
    + intros HnoText HnoIcon. by rewrite HnoText, HnoIcon in Hneither.
Qed.

(** C8.  After [populate], for a layer with text or icon, the glyph
    dependency set of the layer's font stack holds what it held before and
    the UTF-16 code units ([charCodeAt]) of the texts of the features
    handed in that are retained, together with the first code unit of
    the vertical substitute of a character exactly when the text is laid
    out along lines ([text-rotation-alignment] is [map] and
    [symbol-placement] is [line]), the text allows the vertical writing
    mode and the table has a substitute for the character; nothing else is
    added, and the other font stacks are left as they were.  For a layer
    with neither text nor icon the glyph dependencies do not change. *)
Theorem populate_glyph_dependencies (layers : list StyleLayer) (zoom : Q)
    (features : list IndexedFeature) (options : PopulateParameters)
    (layer : StyleLayer) :
  head layers = Some layer →
  ∃ features' options',
    populate layers zoom features options = Return (features', options')
    ∧ (hasText layer = false → hasIcon layer = false →
       glyphDependencies options' = glyphDependencies options)
    ∧ (hasText layer || hasIcon layer = true →
       let key := fontStackKey (layout_text_font layer) in
       ∃ stack,
         glyphDependencies options' !! key = Some stack
         ∧ (∀ c, c ∈ stack
                 ↔ c ∈ default ∅ (glyphDependencies options !! key)
                   ∨ ∃ indexed text,
                       indexed ∈ features ∧ retained layer zoom indexed = true
                       ∧ featureText layer zoom (if_feature indexed) = Some text
                       ∧ glyphNeeded layer text c)
         ∧ (∀ key', key' ≠ key →
              glyphDependencies options' !! key' = glyphDependencies options !! key')).
Proof.
  intros Hlayer. rewrite (populate_eq _ _ _ _ layer Hlayer).
  destruct (negb (hasText layer) && negb (hasIcon layer)) eqn:Hneither.
  - apply andb_true_iff in Hneither as [HnoText%negb_true_iff HnoIcon%negb_true_iff].
    eexists _, _. split; [reflexivity|]. split; [done|].
    by rewrite HnoText, HnoIcon.
  - eexists _, _. split; [reflexivity|]. simpl. split.
    { intros HnoText HnoIcon. by rewrite HnoText, HnoIcon in Hneither. }
    intros _. eexists. split; [apply lookup_insert_eq|]. split.
    + intros c. by rewrite populate_loop_stack.
    + intros key' Hne. by apply lookup_insert_ne.
Qed.
End PopulateClaims.

Lemma plainCollaborators_labels (features : list SymbolFeature) (f : SymbolFeature) :
  f ∈ @mergeLines plainCollaborators features →
  ∃ f0, f0 ∈ features ∧ sf_text f = sf_text f0 ∧ sf_icon f = sf_icon f0.
Proof. intros Hin. by exists f. Qed.

(** A feature named "A…" and a feature without a name, on a layer that
    labels lines with the name: the first is kept, the second dropped. *)
Lemma populate_retains_labelled_features_witness :
  head [nameLayer] = Some nameLayer
  ∧ ∃ features' options',
      @populate plainCollaborators [nameLayer] 5
                [namedFeature [65; 8230]%N 0; unnamedFeature 1] noDependencies
      = Return (features', options')
      ∧ (∀ f, f ∈ features' → truthy (sf_text f) || truthy (sf_icon f) = true)
      ∧ sf_index <$> features' = [0%nat].
Proof.
  split; [reflexivity|].
  destruct (@populate_retains_labelled_features plainCollaborators
              plainCollaborators_labels [nameLayer] 5
              [namedFeature [65; 8230]%N 0; unnamedFeature 1] noDependencies
              nameLayer eq_refl)
    as (features' & options' & Hrun & Hlabelled & Hcollected & _).
  exists features', options'. split; [exact Hrun|]. split; [exact Hlabelled|].
  rewrite (Hcollected eq_refl). reflexivity.
Defined.

(** The same features: the stack of the layer's fonts gets the two code
    units of the name and the vertical substitute of the ellipsis, and
    not the letter B. *)
Lemma populate_glyph_dependencies_witness :
  head [nameLayer] = Some nameLayer
  ∧ ∃ features' options' stack,
      @populate plainCollaborators [nameLayer] 5
                [namedFeature [65; 8230]%N 0; unnamedFeature 1] noDependencies
      = Return (features', options')
      ∧ glyphDependencies options' !! "Open Sans Regular" = Some stack
      ∧ (65%N ∈ stack) ∧ (8230%N ∈ stack) ∧ (65049%N ∈ stack) ∧ (66%N ∉ stack).
Proof.
  split; [reflexivity|].
  destruct (@populate_glyph_dependencies plainCollaborators [nameLayer] 5
              [namedFeature [65; 8230]%N 0; unnamedFeature 1] noDependencies
              nameLayer eq_refl)
    as (features' & options' & Hrun & _ & Hstack).
  destruct (Hstack eq_refl) as (stack & Hlookup & Hmembers & _).
  exists features', options', stack.
  split; [exact Hrun|]. split; [exact Hlookup|].
  assert (∀ c, @glyphNeeded plainCollaborators nameLayer [65; 8230]%N c → c ∈ stack)
    as Hneeded.
  { intros c Hc. apply Hmembers. right.
    exists (namedFeature [65; 8230]%N 0), [65; 8230]%N.
    split; [apply list_elem_of_here|]. split; [reflexivity|]. split; [reflexivity|].
    exact Hc. }
  split; [apply Hneeded; left; apply list_elem_of_here|].
  split; [apply Hneeded; left; apply list_elem_of_further, list_elem_of_here|].
  split.
  { apply Hneeded. right. split; [reflexivity|]. split; [reflexivity|].
    exists 8230%N, []. split; [|reflexivity].
    apply list_elem_of_further, list_elem_of_here. }
  intros [Hin|(indexed & text & Hin & _ & Htext & Hc)]%Hmembers.
  { by apply elem_of_empty in Hin. }
  apply elem_of_cons in Hin as [->|Hin].
  - injection Htext as <-.
    destruct Hc as [Hc|(_ & _ & ch & rest & Hch & Hsub)].
    + apply elem_of_cons in Hc as [[=]|Hc].
      apply elem_of_cons in Hc as [[=]|Hc]. by apply not_elem_of_nil in Hc.
    + apply elem_of_cons in Hch as [->|Hch]; [discriminate Hsub|].
      apply elem_of_cons in Hch as [->|Hch]; [discriminate Hsub|].
      by apply not_elem_of_nil in Hch.
  - apply elem_of_cons in Hin as [->|Hin]; [discriminate Htext|].
    by apply not_elem_of_nil in Hin.
Defined.

(** C8, as stated, fails for a text with a character above U+FFFF: the
    stack holds code units, not code points.  Of a name that is the one
    character U+1F600, the surrogate pair D83D DE00, the stack gets the
    two surrogates and not the code point. *)
Lemma populate_glyph_dependencies_surrogates :
  codePoints [55357; 56832]%N = [128512%N]
  ∧ match @populate plainCollaborators [nameLayer] 5
            [namedFeature [55357; 56832]%N 0] noDependencies with
    | Return (features', options') =>
        sf_text <$> features' = [Some [55357; 56832]%N]
        ∧ ∃ stack : gset N,
            glyphDependencies options' !! "Open Sans Regular" = Some stack
            ∧ (55357%N ∈ stack) ∧ (56832%N ∈ stack) ∧ (128512%N ∉ stack)
    | Throw => False
    end.
Proof.
  split; [reflexivity|].
  assert (match @populate plainCollaborators [nameLayer] 5
                  [namedFeature [55357; 56832]%N 0] noDependencies with
          | Return (features', options') =>
              (map sf_text features',
               glyphDependencies options' !! "Open Sans Regular")
          | Throw => ([], None)
          end
          = ([Some [55357; 56832]%N], Some ({[55357; 56832]}%N : gset N))) as Hrun.
  { vm_compute. reflexivity. }
  destruct (@populate plainCollaborators [nameLayer] 5
              [namedFeature [55357; 56832]%N 0] noDependencies)
    as [[features' options']|]; [|discriminate Hrun].
  injection Hrun as Htexts Hstack. split; [exact Htexts|].
  exists ({[55357; 56832]}%N : gset N). split; [exact Hstack|].
  split; [set_solver|]. split; [set_solver|]. set_solver.
Qed.

(** The dependency sets of that run, computed. *)
Example populate_named_feature :
  match @populate plainCollaborators [nameLayer] 5
          [namedFeature [65; 8230]%N 0; unnamedFeature 1] noDependencies with
  | Return (features', options') =>
      (map sf_text features', glyphDependencies options' !! "Open Sans Regular")
  | Throw => ([], None)
  end
  = ([Some [65; 8230]%N], Some ({[65; 8230; 65049]}%N : gset N)).
Proof. vm_compute. reflexivity. Qed.

(** ** Lifecycle of a buffer set *)

(** Releasing a list of objects: they leave the set of live objects. *)
Lemma gl_live_release (hs : list handle) : ∀ gl,
  gl_live (foldl destroyObject gl hs) = gl_live gl ∖ list_to_set hs.
Proof.
  induction hs as [|h hs IH]; intros gl; simpl.
  - set_solver.
  - rewrite IH. unfold destroyObject. destruct (decide (h ∈ gl_live gl)); simpl.
    + set_solver.
    + set_solver.
Qed.

(** Releasing objects none of which is alive changes nothing. *)
Lemma release_not_live (hs : list handle) : ∀ gl,
  (∀ h, h ∈ hs → h ∉ gl_live gl) → foldl destroyObject gl hs = gl.
Proof.
  induction hs as [|h hs IH]; intros gl Hdead; simpl; [done|].
  assert (destroyObject gl h = gl) as ->.
  { unfold destroyObject. rewrite decide_False; [done|].
    apply Hdead, list_elem_of_here. }
  apply IH. intros h' Hin. by apply Hdead, list_elem_of_further.
Qed.

(** Once a list of objects is released, releasing some of them again
    changes nothing. *)
Lemma release_again (hs hs' : list handle) (gl : GL) :
  hs' ⊆ hs →
  foldl destroyObject (foldl destroyObject gl hs) hs' = foldl destroyObject gl hs.
Proof.
  intros Hsub. apply release_not_live. intros h Hin.
  rewrite gl_live_release. apply Hsub in Hin. set_solver.
Qed.

(** The objects released by a pass: each live object of the list, once. *)
Lemma gl_released_release (hs : list handle) : ∀ gl,
  ∃ now,
    gl_released (foldl destroyObject gl hs) = gl_released gl ++ now
    ∧ NoDup now
    ∧ (∀ h, h ∈ now ↔ h ∈ hs ∧ h ∈ gl_live gl).
Proof.
  induction hs as [|a hs IH]; intros gl; simpl.
  - exists []. rewrite app_nil_r. split; [done|]. split; [constructor|].
    intros h. split; [by intros ?%not_elem_of_nil|].
    by intros [?%not_elem_of_nil _].
  - destruct (IH (destroyObject gl a)) as (now & Hlog & Hnodup & Hmem).
    unfold destroyObject in *. destruct (decide (a ∈ gl_live gl)) as [Hlive|Hdead];
      simpl in *.
    + exists (a :: now). rewrite Hlog, <- app_assoc. split; [done|].
      split.
      * constructor; [|done]. rewrite Hmem. set_solver.
      * intros h. rewrite !elem_of_cons, Hmem.
        destruct (decide (h = a)) as [->|Hne]; set_solver.
    + exists now. split; [done|]. split; [done|].
      intros h. rewrite elem_of_cons, Hmem. set_solver.
Qed.

(** [destroy] releases the objects the set holds, one after the other;
    it throws only on a set with a layout buffer and no index buffer,
    which [upload] never makes. *)
Lemma SymbolBuffers_destroy_eq (arrays : SymbolBuffers) (gl : GL) :
  neverUploaded arrays ∨ is_Some (indexBuffer arrays) →
  SymbolBuffers_destroy arrays gl = Return (foldl destroyObject gl (ownedObjects arrays)).
Proof.
  unfold SymbolBuffers_destroy, ownedObjects, neverUploaded.
  destruct (layoutVertexBuffer arrays) as [layoutBuffer|]; [|done].
  intros [?|[indexBuffer' Hindex]]; [done|]. rewrite Hindex. simpl.
  unfold ProgramConfigurationSet_destroy, SegmentVector_destroy, destroyOptional.
  rewrite !foldl_app.
  by destruct (dynamicLayoutVertexBuffer arrays), (opacityVertexBuffer arrays),
              (collisionVertexBuffer arrays).
Qed.

Lemma SymbolBuffers_destroy_returns (arrays : SymbolBuffers) (gl gl' : GL) :
  SymbolBuffers_destroy arrays gl = Return gl' →
  neverUploaded arrays ∨ is_Some (indexBuffer arrays).
Proof.
  unfold SymbolBuffers_destroy, neverUploaded.
  destruct (layoutVertexBuffer arrays); [|by left].
  destruct (indexBuffer arrays); [by right; eauto|done].
Qed.

Lemma SymbolBuffers_upload_indexBuffer (arrays : SymbolBuffers) (gl : GL) :
  is_Some (layoutVertexBuffer (SymbolBuffers_upload arrays gl).1)
  ∧ is_Some (indexBuffer (SymbolBuffers_upload arrays gl).1).
Proof.
  unfold SymbolBuffers_upload, uploadOptional.
  destruct (hasDynamicLayoutAttributes _), (hasOpacityAttributes _),
           (hasCollisionAttributes _); simpl; eauto.
Qed.

Lemma SymbolBucket_destroy_eq (b : SymbolBucket) (gl gl' : GL) :
  SymbolBucket_destroy b gl = Return gl' →
  gl' = foldl destroyObject gl (bucketObjects b)
  ∧ ∀ gl0, SymbolBucket_destroy b gl0 = Return (foldl destroyObject gl0 (bucketObjects b)).
Proof.
  unfold SymbolBucket_destroy. intros Hrun.
  destruct (SymbolBuffers_destroy (text b) gl) as [gl1|] eqn:H1; [|done].
  simpl in Hrun.
  destruct (SymbolBuffers_destroy (icon b) gl1) as [gl2|] eqn:H2; [|done].
  simpl in Hrun.
  destruct (SymbolBuffers_destroy (collisionBox b) gl2) as [gl3|] eqn:H3; [|done].
  simpl in Hrun.
  apply SymbolBuffers_destroy_returns in H1 as Hok1.
  apply SymbolBuffers_destroy_returns in H2 as Hok2.
  apply SymbolBuffers_destroy_returns in H3 as Hok3.
  apply SymbolBuffers_destroy_returns in Hrun as Hok4.
  assert (∀ gl0, SymbolBucket_destroy b gl0
                 = Return (foldl destroyObject gl0 (bucketObjects b))) as Heq.
  { intros gl0. unfold SymbolBucket_destroy, bucketObjects.
    rewrite !foldl_app.
    rewrite (SymbolBuffers_destroy_eq (text b)) by done. simpl.
    rewrite (SymbolBuffers_destroy_eq (icon b)) by done. simpl.
    rewrite (SymbolBuffers_destroy_eq (collisionBox b)) by done. simpl.
    by rewrite (SymbolBuffers_destroy_eq (collisionCircle b)) by done. }
  split; [|done].
  assert (SymbolBucket_destroy b gl = Return gl') as Hrun'.
  { unfold SymbolBucket_destroy. rewrite H1. simpl. rewrite H2. simpl.
    by rewrite H3. }
  rewrite Heq in Hrun'. by injection Hrun' as <-.
Qed.

(** C5.  [destroy] on a set that was never uploaded returns and changes
    nothing.  A [destroy] that has returned can be called again: the
    second call returns and leaves the render context as the first one
    left it; the first call has released every object of the set that was
    alive, each exactly once, and no other.  On an uploaded set [destroy]
    returns.  The same holds of the four sets of a bucket together. *)
Theorem destroy_idempotent :
  (∀ arrays gl, neverUploaded arrays → SymbolBuffers_destroy arrays gl = Return gl)
  ∧ (∀ arrays gl gl',
       SymbolBuffers_destroy arrays gl = Return gl' →
       SymbolBuffers_destroy arrays gl' = Return gl'
       ∧ gl_live gl' = gl_live gl ∖ list_to_set (ownedObjects arrays)
       ∧ ∃ now, gl_released gl' = gl_released gl ++ now ∧ NoDup now
                ∧ ∀ h, h ∈ now ↔ h ∈ ownedObjects arrays ∧ h ∈ gl_live gl)
  ∧ (∀ arrays gl,
       ∃ gl', SymbolBuffers_destroy (SymbolBuffers_upload arrays gl).1
                                    (SymbolBuffers_upload arrays gl).2
              = Return gl')
  ∧ (∀ b gl,
       neverUploaded (text b) → neverUploaded (icon b) →
       neverUploaded (collisionBox b) → neverUploaded (collisionCircle b) →
       SymbolBucket_destroy b gl = Return gl)
  ∧ (∀ b gl gl',
       SymbolBucket_destroy b gl = Return gl' →
       SymbolBucket_destroy b gl' = Return gl'
       ∧ gl_live gl' = gl_live gl ∖ list_to_set (bucketObjects b)
       ∧ ∃ now, gl_released gl' = gl_released gl ++ now ∧ NoDup now
                ∧ ∀ h, h ∈ now ↔ h ∈ bucketObjects b ∧ h ∈ gl_live gl).
Proof.
  assert (∀ arrays gl, neverUploaded arrays → SymbolBuffers_destroy arrays gl = Return gl)
    as Hnever.
  { intros arrays gl Hnot. unfold SymbolBuffers_destroy. by rewrite Hnot. }
  split; [exact Hnever|]. split; [|split; [|split]].
  - intros arrays gl gl' Hrun.
    apply SymbolBuffers_destroy_returns in Hrun as Hok.
    rewrite SymbolBuffers_destroy_eq in Hrun by done. injection Hrun as <-.
    split; [|split].
    + rewrite SymbolBuffers_destroy_eq by done. by rewrite release_again.
    + apply gl_live_release.
    + apply gl_released_release.
  - intros arrays gl.
    destruct (SymbolBuffers_upload_indexBuffer arrays gl) as [_ Hindex].
    eexists. apply SymbolBuffers_destroy_eq. by right.
  - intros b gl Htext Hicon Hbox Hcircle. unfold SymbolBucket_destroy.
    rewrite (Hnever (text b)) by done. simpl.
    rewrite (Hnever (icon b)) by done. simpl.
    rewrite (Hnever (collisionBox b)) by done. simpl.
    by apply Hnever.
  - intros b gl gl' Hrun. apply SymbolBucket_destroy_eq in Hrun as [-> Heq].
    split; [|split].
    + rewrite Heq. by rewrite release_again.
    + apply gl_live_release.
    + apply gl_released_release.
Qed.

(** A text set, uploaded to an empty context and destroyed twice; and a
    fresh set destroyed without upload. *)
Lemma destroy_idempotent_witness :
  let uploaded := SymbolBuffers_upload (newSymbolBuffers textInterface) emptyGL in
  neverUploaded (newSymbolBuffers textInterface)
  ∧ SymbolBuffers_destroy (newSymbolBuffers textInterface) emptyGL = Return emptyGL
  ∧ ∃ gl',
      SymbolBuffers_destroy uploaded.1 uploaded.2 = Return gl'
      ∧ SymbolBuffers_destroy uploaded.1 gl' = Return gl'
      ∧ gl_released gl' = [0; 1; 2; 3; 4]%nat.
Proof.
  intros uploaded.
  destruct destroy_idempotent as (Hnever & Htwice & Huploaded & _).
  assert (neverUploaded (newSymbolBuffers textInterface)) as Hfresh by reflexivity.
  split; [exact Hfresh|]. split; [exact (Hnever _ emptyGL Hfresh)|].
  destruct (Huploaded (newSymbolBuffers textInterface) emptyGL) as [gl' Hrun].
  fold uploaded in Hrun. exists gl'. split; [exact Hrun|].
  destruct (Htwice _ _ _ Hrun) as (Hagain & _). split; [exact Hagain|].
  vm_compute in Hrun. by injection Hrun as <-.
Defined.

(* ===================================================================== *)
(** * Part III. Further properties of the code                            *)
(* ===================================================================== *)

(** ** Size interpolator: order, empty stops, monotonicity *)

(** The covering range of a zoom-dependent property, read off the two
    indices. *)
Lemma getSizeData_range_eq (layer : StyleLayer) (sizeProperty : string)
    (tileZoom : Q) :
  isLayoutValueZoomConstant layer sizeProperty = false →
  coveringZoomRangeOf (getSizeData tileZoom layer sizeProperty)
  = Some (levelAt (getLayoutValueStopZoomLevels layer sizeProperty)
                  (coveringIndices (getLayoutValueStopZoomLevels layer sizeProperty)
                                   tileZoom).1,
          levelAt (getLayoutValueStopZoomLevels layer sizeProperty)
                  (coveringIndices (getLayoutValueStopZoomLevels layer sizeProperty)
                                   tileZoom).2).
Proof.
  intros Hzoom. unfold getSizeData. rewrite Hzoom. simpl.
  destruct (coveringIndices (getLayoutValueStopZoomLevels layer sizeProperty) tileZoom)
    as [lower upper]. simpl.
  by destruct (isLayoutValueFeatureConstant layer sizeProperty).
Qed.

(** The two ends of the covering range of non-empty stops, with what the
    scans and clamps guarantee about them. *)
Lemma getSizeData_range_ends (layer : StyleLayer) (sizeProperty : string)
    (tileZoom : Q) :
  isLayoutValueZoomConstant layer sizeProperty = false →
  getLayoutValueStopZoomLevels layer sizeProperty ≠ [] →
  let levels := getLayoutValueStopZoomLevels layer sizeProperty in
  ∃ lo up : Q,
    coveringZoomRangeOf (getSizeData tileZoom layer sizeProperty)
      = Some (Some lo, Some up)
    ∧ lo ∈ levels ∧ up ∈ levels
    ∧ (∀ first, levels !! 0%nat = Some first → first <= tileZoom → lo <= tileZoom)
    ∧ (∀ first, levels !! 0%nat = Some first → ¬ first <= tileZoom → lo = first)
    ∧ (∀ lst, last levels = Some lst → tileZoom + 1 <= lst → tileZoom + 1 <= up)
    ∧ ((∀ l, l ∈ levels → l < tileZoom + 1) → last levels = Some up)
    ∧ (ascending levels →
       (∀ l, l ∈ levels → l <= tileZoom → l <= lo)
       ∧ (∀ l, l ∈ levels → tileZoom + 1 <= l → up <= l)).
Proof.
  intros Hzoom Hne levels.
  destruct (coveringIndices_spec levels tileZoom Hne)
    as (ilo & iup & lo & up & Hidx & Hlo & Hup & Hrest).
  exists lo, up. split.
  - rewrite getSizeData_range_eq by done. fold levels. rewrite Hidx. simpl.
    unfold levelAt.
    assert ((Z.of_nat ilo <? 0)%Z = false) as -> by (apply Z.ltb_ge; lia).
    assert ((Z.of_nat iup <? 0)%Z = false) as -> by (apply Z.ltb_ge; lia).
    by rewrite !Nat2Z.id, Hlo, Hup.
  - split; [by eapply list_elem_of_lookup_2|].
    split; [by eapply list_elem_of_lookup_2|]. exact Hrest.
Qed.

(** In ascending stops every stop lies between the first and the last. *)
Lemma ascending_bounds (levels : list Q) (l : Q) :
  ascending levels → l ∈ levels →
  (∀ first, levels !! 0%nat = Some first → first <= l)
  ∧ (∀ lst, last levels = Some lst → l <= lst).
Proof.
  intros Hasc [i Hi]%list_elem_of_lookup. split.
  - intros first Hfirst. eapply (Hasc 0%nat i); [lia|done|done].
  - intros lst Hlast. rewrite last_lookup in Hlast.
    apply lookup_lt_Some in Hi as Hlt.
    eapply (Hasc i (pred (length levels))); [lia|done|done].
Qed.

Lemma nonempty_first_last (levels : list Q) :
  levels ≠ [] → ∃ first lst, levels !! 0%nat = Some first ∧ last levels = Some lst.
Proof.
  intros Hne. destruct levels as [|first levels]; [done|].
  destruct (last (first :: levels)) as [lst|] eqn:Hlast.
  - by exists first, lst.
  - by apply last_None in Hlast.
Qed.

(** X1.  For ascending stops the covering range is never inverted:
    [lower ≤ upper], whatever the tile zoom. *)
Theorem getSizeData_range_ordered (layer : StyleLayer) (sizeProperty : string)
    (tileZoom : Q) :
  isLayoutValueZoomConstant layer sizeProperty = false →
  getLayoutValueStopZoomLevels layer sizeProperty ≠ [] →
  ascending (getLayoutValueStopZoomLevels layer sizeProperty) →
  ∃ lo up : Q,
    coveringZoomRangeOf (getSizeData tileZoom layer sizeProperty)
      = Some (Some lo, Some up)
    ∧ lo <= up.
Proof.
  intros Hzoom Hne Hasc.
  destruct (getSizeData_range_ends layer sizeProperty tileZoom Hzoom Hne)
    as (lo & up & Hrange & Hlo & Hup & Hin & Hbelow & Hcover & Habove & _).
  exists lo, up. split; [done|].
  destruct (nonempty_first_last _ Hne) as (first & lst & Hfirst & Hlast).
  destruct (ascending_bounds _ lo Hasc Hlo) as [_ HloLast].
  destruct (ascending_bounds _ up Hasc Hup) as [HupFirst _].
  destruct (Qlt_le_dec lst (tileZoom + 1)) as [Hshort|Hlong].
  - assert (last (getLayoutValueStopZoomLevels layer sizeProperty) = Some up) as Hlast'.
    { apply Habove. intros l Hl.
      destruct (ascending_bounds _ l Hasc Hl) as [_ Hle]. specialize (Hle lst Hlast). lra. }
    apply HloLast. done.
  - specialize (Hcover lst Hlast Hlong).
    destruct (Qlt_le_dec tileZoom first) as [Hlow|Hhigh].
    + rewrite (Hbelow first Hfirst) by lra. by apply HupFirst.
    + specialize (Hin first Hfirst Hhigh). lra.
Qed.

Lemma getSizeData_range_ordered_witness :
  ∃ lo up : Q,
    coveringZoomRangeOf (getSizeData 20 (stopsLayer true false [0; 6; 10]) "icon-size")
      = Some (Some lo, Some up)
    ∧ lo <= up.
Proof.
  apply (getSizeData_range_ordered (stopsLayer true false [0; 6; 10]) "icon-size" 20
           eq_refl ltac:(discriminate)).
  intros i j a b Hij Ha Hb.
  destruct i as [|[|[|i]]]; destruct j as [|[|[|j]]]; simpl in Ha, Hb;
    try lia; try discriminate; injection Ha as <-; injection Hb as <-; lra.
Defined.

(** X2.  A zoom-dependent property without stops gets a covering range
    whose two ends are [undefined]: the scans stop at once and the clamp
    of [upper] yields [-1]. *)
Theorem getSizeData_no_stops (layer : StyleLayer) (sizeProperty : string)
    (tileZoom : Q) :
  isLayoutValueZoomConstant layer sizeProperty = false →
  getLayoutValueStopZoomLevels layer sizeProperty = [] →
  coveringZoomRangeOf (getSizeData tileZoom layer sizeProperty) = Some (None, None)
  ∧ coveringIndices (getLayoutValueStopZoomLevels layer sizeProperty) tileZoom
    = (0, -1)%Z.
Proof.
  intros Hzoom Hnone. rewrite getSizeData_range_eq by done. by rewrite Hnone.
Qed.

Lemma getSizeData_no_stops_witness :
  coveringZoomRangeOf (getSizeData 3 (stopsLayer false false []) "text-size")
  = Some (None, None).
Proof.
  exact (proj1 (getSizeData_no_stops (stopsLayer false false []) "text-size" 3
                  eq_refl eq_refl)).
Defined.

(** X3.  For ascending stops the covering range moves with the tile
    zoom: a higher tile zoom never gets a lower [lower] or a lower
    [upper]. *)
Theorem getSizeData_range_monotone (layer : StyleLayer) (sizeProperty : string)
    (tileZoom1 tileZoom2 : Q) :
  isLayoutValueZoomConstant layer sizeProperty = false →
  getLayoutValueStopZoomLevels layer sizeProperty ≠ [] →
  ascending (getLayoutValueStopZoomLevels layer sizeProperty) →
  tileZoom1 <= tileZoom2 →
  ∃ lo1 up1 lo2 up2 : Q,
    coveringZoomRangeOf (getSizeData tileZoom1 layer sizeProperty)
      = Some (Some lo1, Some up1)
    ∧ coveringZoomRangeOf (getSizeData tileZoom2 layer sizeProperty)
      = Some (Some lo2, Some up2)
    ∧ lo1 <= lo2 ∧ up1 <= up2.
Proof.
  intros Hzoom Hne Hasc Hle.
  destruct (getSizeData_range_ends layer sizeProperty tileZoom1 Hzoom Hne)
    as (lo1 & up1 & Hrange1 & Hlo1 & Hup1 & Hin1 & Hbelow1 & Hcover1 & Habove1 & Htight1).
  destruct (getSizeData_range_ends layer sizeProperty tileZoom2 Hzoom Hne)
    as (lo2 & up2 & Hrange2 & Hlo2 & Hup2 & Hin2 & Hbelow2 & Hcover2 & Habove2 & Htight2).
  destruct (Htight1 Hasc) as [_ HtightUp1]. destruct (Htight2 Hasc) as [HtightLo2 _].
  exists lo1, up1, lo2, up2. split; [done|]. split; [done|].
  destruct (nonempty_first_last _ Hne) as (first & lst & Hfirst & Hlast).
  split.
  - destruct (Qlt_le_dec tileZoom1 first) as [Hlow|Hhigh].
    + rewrite (Hbelow1 first Hfirst) by lra.
      by destruct (ascending_bounds _ lo2 Hasc Hlo2) as [Hge _]; apply Hge.
    + specialize (Hin1 first Hfirst Hhigh). apply HtightLo2; [done|lra].
  - destruct (Qlt_le_dec lst (tileZoom2 + 1)) as [Hshort|Hlong].
    + assert (last (getLayoutValueStopZoomLevels layer sizeProperty) = Some up2) as Hlast2.
      { apply Habove2. intros l Hl.
        destruct (ascending_bounds _ l Hasc Hl) as [_ Hl']. specialize (Hl' lst Hlast). lra. }
      by destruct (ascending_bounds _ up1 Hasc Hup1) as [_ Hle1]; apply Hle1.
    + specialize (Hcover2 lst Hlast Hlong). apply HtightUp1; [done|lra].
Qed.

Lemma getSizeData_range_monotone_witness :
  ∃ lo1 up1 lo2 up2 : Q,
    coveringZoomRangeOf (getSizeData 2 (stopsLayer true false [0; 6; 10]) "icon-size")
      = Some (Some lo1, Some up1)
    ∧ coveringZoomRangeOf (getSizeData 7 (stopsLayer true false [0; 6; 10]) "icon-size")
      = Some (Some lo2, Some up2)
    ∧ lo1 <= lo2 ∧ up1 <= up2.
Proof.
  apply (getSizeData_range_monotone (stopsLayer true false [0; 6; 10]) "icon-size" 2 7
           eq_refl ltac:(discriminate)); [|lra].
  intros i j a b Hij Ha Hb.
  destruct i as [|[|[|i]]]; destruct j as [|[|[|j]]]; simpl in Ha, Hb;
    try lia; try discriminate; injection Ha as <-; injection Hb as <-; lra.
Defined.

(** ** Line distance indexer: when it throws, and what it leaves alone *)

(** With the index of a segment of the line the call returns, whatever
    the distance function. *)
Lemma addToLineVertexArray_returns `{PointGeometry}
    (lineVertexArray : list LineVertex) (anchor : Anchor) (line : list Point)
    (segment : nat) :
  anchor_segment anchor = Some segment → (segment + 1 < length line)%nat →
  ∃ added,
    addToLineVertexArray lineVertexArray anchor line
    = Return (lineVertexArray ++ added,
              {| lineStartIndex := length lineVertexArray;
                 lineLength := length line |})
    ∧ length added = length line.
Proof.
  intros Hseg Hvalid. unfold addToLineVertexArray. rewrite Hseg.
  destruct (lookup_lt_is_Some_2 line (segment + 1)) as [p1 Hp1]; [lia|].
  destruct (lookup_lt_is_Some_2 line segment) as [p0 Hp0]; [lia|].
  rewrite Hp1. simpl. rewrite Hp0. simpl.
  destruct (forwardLoop_spec line (length line - (segment + 1)) (segment + 1) ∅
              (dist (anchorPoint anchor) p1))
    as (vs1 & Hrun1 & _ & Hall1 & _); [lia|].
  rewrite Hrun1. simpl.
  destruct (backwardLoop_spec line segment vs1 (dist (anchorPoint anchor) p0))
    as (vs2 & Hrun2 & Hold2 & Hall2 & _); [lia|].
  rewrite Hrun2. simpl.
  destruct (emitLoop_spec vs2 (length line) 0 lineVertexArray)
    as (objects & Hrun3 & Hlen & _).
  { intros j Hj. destruct (decide (j ≤ segment)%nat) as [Hle|Hgt].
    - destruct (Hall2 j Hle) as (p & d & _ & Hv). by rewrite Hv.
    - rewrite Hold2 by lia. destruct (Hall1 j) as (p & d & _ & Hv); [lia|].
      by rewrite Hv. }
  rewrite Hrun3. simpl. exists (emplaceVertex <$> objects).
  split; [|by rewrite length_fmap].
  do 2 f_equal. rewrite length_app, length_fmap, Hlen. f_equal. lia.
Qed.

(** X4.  [addToLineVertexArray] returns exactly when the anchor has no
    segment index or its index is the index of a segment of the line;
    with any other index ([segment + 1 ≥ line.length], an empty line
    included) it throws on [line[anchor.segment + 1]]. *)
Theorem addToLineVertexArray_returns_iff `{PointGeometry}
    (lineVertexArray : list LineVertex) (anchor : Anchor) (line : list Point) :
  (∃ result, addToLineVertexArray lineVertexArray anchor line = Return result)
  ↔ (anchor_segment anchor = None
     ∨ ∃ segment, anchor_segment anchor = Some segment
                  ∧ (segment + 1 < length line)%nat).
Proof.
  split.
  - intros [result Hrun]. destruct (anchor_segment anchor) as [segment|] eqn:Hseg;
      [|by left].
    right. exists segment. split; [done|].
    destruct (decide (segment + 1 < length line)%nat) as [Hok|Hbad]; [done|].
    rewrite (addToLineVertexArray_bad_segment _ _ _ segment) in Hrun; [done|done|lia].
  - intros [Hnone|(segment & Hseg & Hvalid)].
    + unfold addToLineVertexArray. rewrite Hnone. simpl. eauto.
    + destruct (addToLineVertexArray_returns lineVertexArray anchor line segment
                  Hseg Hvalid) as (added & Hrun & _).
      eauto.
Qed.

(** The anchor on the first segment of the three-point line is
    accepted; the same anchor on an empty line is refused. *)
Lemma addToLineVertexArray_returns_iff_witness :
  (∃ result, @addToLineVertexArray manhattan [] lineAnchor threePointLine
             = Return result)
  ∧ @addToLineVertexArray manhattan [] lineAnchor [] = Throw.
Proof.
  split.
  - apply (proj2 (@addToLineVertexArray_returns_iff manhattan [] lineAnchor
                    threePointLine)).
    right. exists 0%nat. split; [reflexivity|]. simpl. lia.
  - destruct (@addToLineVertexArray manhattan [] lineAnchor []) as [result|] eqn:Hrun;
      [|reflexivity].
    destruct (proj1 (@addToLineVertexArray_returns_iff manhattan [] lineAnchor [])
                    (ex_intro _ result Hrun))
      as [Hnone|(segment & _ & Hlt)].
    + discriminate Hnone.
    + simpl in Hlt. lia.
Defined.

(** X5.  [addToLineVertexArray] only appends: when it returns, the old
    array is the beginning of the new one, the returned range is exactly
    the appended part, and that part is empty (no segment index) or has
    one record per vertex of the line. *)
Theorem addToLineVertexArray_appends `{PointGeometry}
    (lineVertexArray lineVertexArray' : list LineVertex) (anchor : Anchor)
    (line : list Point) (range : LineRange) :
  addToLineVertexArray lineVertexArray anchor line = Return (lineVertexArray', range) →
  ∃ added,
    lineVertexArray' = lineVertexArray ++ added
    ∧ lineStartIndex range = length lineVertexArray
    ∧ lineLength range = length added
    ∧ (anchor_segment anchor = None → added = [])
    ∧ (is_Some (anchor_segment anchor) → length added = length line).
Proof.
  intros Hrun. destruct (anchor_segment anchor) as [segment|] eqn:Hseg.
  - destruct (decide (segment + 1 < length line)%nat) as [Hok|Hbad].
    + destruct (addToLineVertexArray_returns lineVertexArray anchor line segment
                  Hseg Hok) as (added & Hrun' & Hlen).
      rewrite Hrun' in Hrun. injection Hrun as <- <-.
      exists added. simpl. by rewrite Hlen.
    + rewrite (addToLineVertexArray_bad_segment _ _ _ segment) in Hrun; [done|done|lia].
  - unfold addToLineVertexArray in Hrun. rewrite Hseg in Hrun. simpl in Hrun.
    injection Hrun as <- <-. exists []. simpl.
    rewrite app_nil_r, Nat.sub_diag. repeat split; try done.
Qed.

Lemma addToLineVertexArray_appends_witness :
  ∃ added,
    (returned ([], {| lineStartIndex := 0; lineLength := 0 |})
       (@addToLineVertexArray manhattan [lineVertexAt {| point_x := 9; point_y := 9 |} 0]
          lineAnchor threePointLine)).1
    = [lineVertexAt {| point_x := 9; point_y := 9 |} 0] ++ added
    ∧ length added = 3%nat.
Proof.
  destruct (@addToLineVertexArray manhattan
              [lineVertexAt {| point_x := 9; point_y := 9 |} 0]
              lineAnchor threePointLine) as [[arr' range]|] eqn:Hrun;
    [|by vm_compute in Hrun].
  destruct (@addToLineVertexArray_appends manhattan _ _ _ _ _ Hrun)
    as (added & Harr & _ & _ & _ & Hlen).
  exists added. split; [exact Harr|]. apply Hlen. by eexists.
Defined.

(** ** Quad packer: what a call writes, and what it keeps *)

Lemma tilesFrom_snoc (init : list Segment) (segment : Segment) : ∀ v p nv np,
  tilesFrom v p (init ++ [segment]) nv np
  ↔ tilesFrom v p init (vertexOffset segment) (primitiveOffset segment)
    ∧ (vertexOffset segment + vertexLength segment = nv)%nat
    ∧ (primitiveOffset segment + primitiveLength segment = np)%nat.
Proof.
  induction init as [|s init IH]; intros v p nv np; simpl.
  - split.
    + intros (-> & -> & <- & <-). done.
    + intros ((-> & ->) & <- & <-). done.
  - rewrite IH. tauto.
Qed.

(** [prepareSegment] followed by the update of the counters keeps the
    segments tiling the arrays, when the arrays grow by as much. *)
Lemma tilesFrom_prepare_grow {V I} (segs : list Segment) (layout : list V)
    (index : list I) (dv dp : nat) :
  (dv ≤ 4)%nat →
  tilesFrom 0 0 segs (length layout) (length index) →
  Forall (λ segment, vertexLength segment ≤ MAX_VERTEX_ARRAY_LENGTH)%nat segs →
  tilesFrom 0 0 (growLastSegment dv dp (prepareSegment 4 segs layout index))
            (length layout + dv) (length index + dp)
  ∧ Forall (λ segment, vertexLength segment ≤ MAX_VERTEX_ARRAY_LENGTH)%nat
           (growLastSegment dv dp (prepareSegment 4 segs layout index)).
Proof.
  intros Hdv Htile Hbound.
  destruct (prepareSegment_spec 4 segs layout index)
    as (init & segment & Hprep & Hroom & Hcase).
  specialize (Hroom four_vertices_fit).
  rewrite Hprep, growLastSegment_snoc. split.
  - apply tilesFrom_snoc. simpl.
    destruct Hcase as [->|(-> & Hoff & Hlen)].
    + apply tilesFrom_snoc in Htile as (Hinit & Hv & Hp). split; [done|]. lia.
    + assert (primitiveOffset segment = length index ∧ primitiveLength segment = 0%nat)
        as [Hpoff Hplen].
      { unfold prepareSegment in Hprep.
        destruct (last segs) as [s|]; [destruct (decide _)|];
          try (apply app_inj_tail in Hprep as [_ <-]; done).
        exfalso. apply (f_equal length) in Hprep. rewrite length_app in Hprep.
        simpl in Hprep. lia. }
      rewrite Hoff, Hpoff, Hlen, Hplen. split; [done|]. lia.
  - apply Forall_app. split.
    + destruct Hcase as [->|(-> & _)]; [|done].
      by apply Forall_app in Hbound as [? _].
    + constructor; [|constructor]. simpl. lia.
Qed.

Lemma replicate_four_more {A} (l : list A) (n : nat) (x : A) :
  (l ++ replicate 4 x) ++ replicate (4 * n) x = l ++ replicate (4 * S n) x.
Proof.
  rewrite <- app_assoc, <- replicate_add. do 2 f_equal. lia.
Qed.

Section QuadPackerShape.
Context `{AttributeEncoding}.
Variable sizeVertex : option (Q * Q).
Variable labelAnchor : Anchor.
Variable placementZoom : Q.

(** What one quad leaves behind, field by field. *)
Lemma addSymbolQuad_shape (arrays : SymbolBuffers) (glyphs : list Q)
    (symbol : SymbolQuad) (dynamic : list DynamicVertex) (opacity : list Q) :
  dynamicLayoutVertexArray arrays = Some dynamic →
  opacityVertexArray arrays = Some opacity →
  ∃ index,
    addSymbolQuad sizeVertex labelAnchor placementZoom arrays glyphs symbol
    = Return
        (withArrays arrays
           (layoutVertexArray arrays ++ quadVertices sizeVertex labelAnchor symbol)
           (indexArray arrays ++ quadTriangles index)
           (programConfigurations arrays)
           (growLastSegment 4 2
              (prepareSegment 4 (segments arrays) (layoutVertexArray arrays)
                              (indexArray arrays)))
           (Some (dynamic ++ replicate 4 (dynamicVertexOf labelAnchor placementZoom)))
           (Some (opacity ++ replicate 4 0))
           (collisionVertexArray arrays),
         glyphs ++ [fst (quad_glyphOffset symbol)]).
Proof.
  intros Hdyn Hop. unfold addSymbolQuad.
  destruct (prepareSegment_spec 4 (segments arrays) (layoutVertexArray arrays)
              (indexArray arrays)) as (init & segment & Hprep & _).
  rewrite Hprep, last_snoc. simpl.
  unfold addDynamicAttributes. rewrite Hdyn, Hop. simpl.
  exists (vertexLength segment). unfold addVertex, quadVertices.
  by rewrite <- !app_assoc.
Qed.

(** The loop over the quads: the arrays of the set after it. *)
Lemma addSymbolQuads_shape (quads : list SymbolQuad) :
  ∀ (arrays : SymbolBuffers) (glyphs : list Q)
    (dynamic : list DynamicVertex) (opacity : list Q),
  dynamicLayoutVertexArray arrays = Some dynamic →
  opacityVertexArray arrays = Some opacity →
  ∃ arrays' bases,
    addSymbolQuads sizeVertex labelAnchor placementZoom arrays glyphs quads
    = Return (arrays', glyphs ++ map (λ symbol, fst (quad_glyphOffset symbol)) quads)
    ∧ length bases = length quads
    ∧ layoutVertexArray arrays'
      = layoutVertexArray arrays
        ++ concat (quadVertices sizeVertex labelAnchor <$> quads)
    ∧ indexArray arrays' = indexArray arrays ++ concat (quadTriangles <$> bases)
    ∧ dynamicLayoutVertexArray arrays'
      = Some (dynamic ++ replicate (4 * length quads)
                                   (dynamicVertexOf labelAnchor placementZoom))
    ∧ opacityVertexArray arrays' = Some (opacity ++ replicate (4 * length quads) 0)
    ∧ collisionVertexArray arrays' = collisionVertexArray arrays
    ∧ programConfigurations arrays' = programConfigurations arrays
    ∧ programInterface arrays' = programInterface arrays
    ∧ layoutVertexBuffer arrays' = layoutVertexBuffer arrays
    ∧ indexBuffer arrays' = indexBuffer arrays
    ∧ dynamicLayoutVertexBuffer arrays' = dynamicLayoutVertexBuffer arrays
    ∧ opacityVertexBuffer arrays' = opacityVertexBuffer arrays
    ∧ collisionVertexBuffer arrays' = collisionVertexBuffer arrays
    ∧ (segmentsTile arrays → segmentsTile arrays').
Proof.
  induction quads as [|symbol quads IH]; intros arrays glyphs dynamic opacity Hdyn Hop.
  - exists arrays, []. simpl. rewrite !app_nil_r. by do 14 (split; [done|]).
  - destruct (addSymbolQuad_shape arrays glyphs symbol dynamic opacity Hdyn Hop)
      as (index & Hrun1).
    match type of Hrun1 with _ = Return (?a, _) => set (arrays1 := a) in Hrun1 end.
    destruct (IH arrays1 (glyphs ++ [fst (quad_glyphOffset symbol)]) _ _ eq_refl eq_refl)
      as (arrays' & bases & Hrun & Hlen & Hlay & Hidx & Hd & Ho & Hc & Hp & Hi
          & Hb1 & Hb2 & Hb3 & Hb4 & Hb5 & Htile).
    exists arrays', (index :: bases). simpl. rewrite Hrun1. simpl. rewrite Hrun.
    unfold arrays1 in Hlay, Hidx, Hd, Ho, Hc, Hp, Hi, Hb1, Hb2, Hb3, Hb4, Hb5.
    simpl in Hlay, Hidx, Hd, Ho, Hc, Hp, Hi, Hb1, Hb2, Hb3, Hb4, Hb5.
    split; [by rewrite <- app_assoc|]. split; [by rewrite Hlen|].
    split; [by rewrite Hlay, <- app_assoc|].
    split; [by rewrite Hidx, <- app_assoc|].
    split; [rewrite Hd; exact (f_equal Some (replicate_four_more _ _ _))|].
    split; [rewrite Ho; exact (f_equal Some (replicate_four_more _ _ _))|].
    do 8 (split; [done|]).
    intros [Htiles Hbound]. apply Htile. unfold segmentsTile. simpl.
    rewrite !length_app. simpl.
    by apply tilesFrom_prepare_grow.
Qed.
End QuadPackerShape.

Section SymbolPackerShape.
Context `{AttributeEncoding}.

(** The whole of [addSymbols] on a set with the two optional arrays. *)
Lemma addSymbols_shape (zoom : Q) (glyphs : list Q) (arrays : SymbolBuffers)
    (quads : list SymbolQuad) (sizeVertex : option (Q * Q)) (lineOffset : Q * Q)
    (alongLine : bool) (feature : VectorTileFeature) (writingMode : nat)
    (labelAnchor : Anchor) (lineStart lineLen : nat) (placed : list PlacedSymbol)
    (dynamic : list DynamicVertex) (opacity : list Q) :
  dynamicLayoutVertexArray arrays = Some dynamic →
  opacityVertexArray arrays = Some opacity →
  ∃ arrays' bases entry,
    addSymbols zoom glyphs arrays quads sizeVertex lineOffset alongLine feature
               writingMode labelAnchor lineStart lineLen placed
    = Return (glyphs ++ map (λ symbol, fst (quad_glyphOffset symbol)) quads,
              arrays', placed ++ [entry])
    ∧ ps_glyphStartIndex entry = uint16 (length glyphs)
    ∧ ps_numGlyphs entry = uint16 (length quads)
    ∧ length bases = length quads
    ∧ layoutVertexArray arrays'
      = layoutVertexArray arrays
        ++ concat (quadVertices sizeVertex labelAnchor <$> quads)
    ∧ indexArray arrays' = indexArray arrays ++ concat (quadTriangles <$> bases)
    ∧ dynamicLayoutVertexArray arrays'
      = Some (dynamic ++ replicate (4 * length quads) (dynamicVertexOf labelAnchor zoom))
    ∧ opacityVertexArray arrays' = Some (opacity ++ replicate (4 * length quads) 0)
    ∧ collisionVertexArray arrays' = collisionVertexArray arrays
    ∧ programInterface arrays' = programInterface arrays
    ∧ layoutVertexBuffer arrays' = layoutVertexBuffer arrays
    ∧ indexBuffer arrays' = indexBuffer arrays
    ∧ dynamicLayoutVertexBuffer arrays' = dynamicLayoutVertexBuffer arrays
    ∧ opacityVertexBuffer arrays' = opacityVertexBuffer arrays
    ∧ collisionVertexBuffer arrays' = collisionVertexBuffer arrays
    ∧ (segmentsTile arrays → segmentsTile arrays').
Proof.
  intros Hdyn Hop. unfold addSymbols.
  destruct (addSymbolQuads_shape sizeVertex labelAnchor zoom quads arrays glyphs
              dynamic opacity Hdyn Hop)
    as (arrays1 & bases & Hrun & Hlen & Hlay & Hidx & Hd & Ho & Hc & Hp & Hi
        & Hb1 & Hb2 & Hb3 & Hb4 & Hb5 & Htile).
  rewrite Hrun. cbn [mbind outcome_bind mret outcome_ret].
  eexists _, bases, _. split; [reflexivity|].
  cbn [emplacePlacedSymbol ps_glyphStartIndex ps_numGlyphs withArrays
       layoutVertexArray indexArray dynamicLayoutVertexArray opacityVertexArray
       collisionVertexArray programInterface layoutVertexBuffer indexBuffer
       dynamicLayoutVertexBuffer opacityVertexBuffer collisionVertexBuffer].
  split; [done|].
  split; [f_equal; rewrite length_app, length_map; lia|].
  do 12 (split; [done|]). intros Ht. by apply Htile in Ht.
Qed.

(** Without one of the two optional arrays the first quad already fails:
    [emplaceBack] is called on [undefined]. *)
Lemma addSymbols_throws (zoom : Q) (glyphs : list Q) (arrays : SymbolBuffers)
    (symbol : SymbolQuad) (quads : list SymbolQuad) (sizeVertex : option (Q * Q))
    (lineOffset : Q * Q) (alongLine : bool) (feature : VectorTileFeature)
    (writingMode : nat) (labelAnchor : Anchor) (lineStart lineLen : nat)
    (placed : list PlacedSymbol) :
  ¬ hasSymbolArrays arrays →
  addSymbols zoom glyphs arrays (symbol :: quads) sizeVertex lineOffset alongLine
             feature writingMode labelAnchor lineStart lineLen placed
  = Throw.
Proof.
  intros Hno. unfold addSymbols. cbn [addSymbolQuads].
  assert (addSymbolQuad sizeVertex labelAnchor zoom arrays glyphs symbol = Throw) as ->;
    [|done].
  unfold addSymbolQuad.
  destruct (prepareSegment_spec 4 (segments arrays) (layoutVertexArray arrays)
              (indexArray arrays)) as (init & segment & Hprep & _).
  rewrite Hprep, last_snoc. cbn [defined mbind outcome_bind].
  unfold addDynamicAttributes.
  destruct (dynamicLayoutVertexArray arrays) as [dynamic|] eqn:Hdyn; [|done].
  destruct (opacityVertexArray arrays) as [opacity|] eqn:Hop; [|done].
  exfalso. apply Hno. split; eauto.
Qed.
End SymbolPackerShape.




(** X7.  [addSymbols] returns exactly when there is no quad to pack or
    the set has both the dynamic and the opacity array: on a set without
    one of them, such as the collision sets, the first quad fails on
    [emplaceBack] of [undefined]. *)
Theorem addSymbols_returns_iff `{AttributeEncoding}
    (zoom : Q) (glyphs : list Q) (arrays : SymbolBuffers)
    (quads : list SymbolQuad) (sizeVertex : option (Q * Q)) (lineOffset : Q * Q)
    (alongLine : bool) (feature : VectorTileFeature) (writingMode : nat)
    (labelAnchor : Anchor) (lineStart lineLen : nat) (placed : list PlacedSymbol) :
  (∃ result,
     addSymbols zoom glyphs arrays quads sizeVertex lineOffset alongLine feature
                writingMode labelAnchor lineStart lineLen placed
     = Return result)
  ↔ (quads = [] ∨ hasSymbolArrays arrays).
Proof.
  split.
  - intros [result Hrun]. destruct quads as [|symbol quads]; [by left|]. right.
    destruct (dynamicLayoutVertexArray arrays) as [dynamic|] eqn:Hdyn;
      [destruct (opacityVertexArray arrays) as [opacity|] eqn:Hop|].
    + split; eauto.
    + rewrite addSymbols_throws in Hrun; [done|].
      intros [_ [? Hsome]]. by rewrite Hop in Hsome.
    + rewrite addSymbols_throws in Hrun; [done|].
      intros [[? Hsome] _]. by rewrite Hdyn in Hsome.
  - intros [->|[[dynamic Hdyn] [opacity Hop]]].
    + eexists. reflexivity.
    + destruct (addSymbols_shape zoom glyphs arrays quads sizeVertex lineOffset
                  alongLine feature writingMode labelAnchor lineStart lineLen placed
                  dynamic opacity Hdyn Hop)
        as (arrays' & bases & entry & Hrun & _).
      eauto.
Qed.

(** A quad for the collision-box set is refused, no quad at all is
    accepted. *)
Lemma addSymbols_returns_iff_witness :
  @addSymbols plainEncoding 5 [] (newSymbolBuffers collisionBoxInterface)
              [unitQuad] None (0, 0) false noFeature 1 pointAnchor 0 0 []
  = Throw
  ∧ ∃ result,
      @addSymbols plainEncoding 5 [] (newSymbolBuffers collisionBoxInterface)
                  [] None (0, 0) false noFeature 1 pointAnchor 0 0 []
      = Return result.
Proof.
  split.
  - destruct (@addSymbols plainEncoding 5 [] (newSymbolBuffers collisionBoxInterface)
                [unitQuad] None (0, 0) false noFeature 1%nat pointAnchor 0%nat 0%nat [])
      as [result|] eqn:Hrun; [|reflexivity].
    destruct (proj1 (@addSymbols_returns_iff plainEncoding 5 []
                       (newSymbolBuffers collisionBoxInterface) [unitQuad] None (0, 0)
                       false noFeature 1%nat pointAnchor 0%nat 0%nat [])
                    (ex_intro _ result Hrun)) as [Hnil|[[dynamic Hdyn] _]].
    + discriminate Hnil.
    + discriminate Hdyn.
  - apply (proj2 (@addSymbols_returns_iff plainEncoding 5 []
                    (newSymbolBuffers collisionBoxInterface) [] None (0, 0)
                    false noFeature 1%nat pointAnchor 0%nat 0%nat [])).
    left. reflexivity.
Defined.

(** ** Well-formed buffer sets *)

(** The constructor, called without serialized arrays, makes a
    well-formed set whatever the interface. *)
Lemma newSymbolBuffers_well_formed (interface : ProgramInterface) :
  setWellFormed (newSymbolBuffers interface).
Proof.
  split; [|split; [|split]].
  - unfold matchesInterface. simpl.
    destruct (hasDynamicLayoutAttributes interface),
      (hasOpacityAttributes interface), (hasCollisionAttributes interface);
      repeat split; try done; try (intros [? [=]]); eauto.
  - unfold vertexArraysAligned. simpl.
    destruct (hasDynamicLayoutAttributes interface),
      (hasOpacityAttributes interface), (hasCollisionAttributes interface);
      repeat split; by intros ? [= <-].
  - split; simpl; [done|constructor].
  - constructor.
Qed.

(** A call of [addSymbols] that returns either had no quad to pack, and
    then only the paint arrays are brought up to date, or ran on a set
    with the two optional arrays. *)
Lemma addSymbols_returns_cases `{AttributeEncoding}
    (zoom : Q) (glyphs : list Q) (arrays : SymbolBuffers)
    (quads : list SymbolQuad) (sizeVertex : option (Q * Q)) (lineOffset : Q * Q)
    (alongLine : bool) (feature : VectorTileFeature) (writingMode : nat)
    (labelAnchor : Anchor) (lineStart lineLen : nat) (placed : list PlacedSymbol)
    (result : list Q * SymbolBuffers * list PlacedSymbol) :
  addSymbols zoom glyphs arrays quads sizeVertex lineOffset alongLine feature
             writingMode labelAnchor lineStart lineLen placed
  = Return result →
  quads = []
  ∨ ∃ dynamic opacity,
      dynamicLayoutVertexArray arrays = Some dynamic
      ∧ opacityVertexArray arrays = Some opacity.
Proof.
  intros Hrun. destruct quads as [|symbol quads]; [by left|]. right.
  destruct (dynamicLayoutVertexArray arrays) as [dynamic|] eqn:Hdyn;
    [destruct (opacityVertexArray arrays) as [opacity|] eqn:Hop|].
  - eauto.
  - rewrite addSymbols_throws in Hrun; [done|].
    intros [_ [? Hsome]]. by rewrite Hop in Hsome.
  - rewrite addSymbols_throws in Hrun; [done|].
    intros [[? Hsome] _]. by rewrite Hdyn in Hsome.
Qed.

Lemma Forall_quadTriangles (bases : list nat) :
  Forall (λ prim, primitiveType prim = TriangleIndexArray)
         (concat (quadTriangles <$> bases)).
Proof.
  induction bases as [|index bases IH]; [constructor|].
  simpl. by repeat constructor.
Qed.

Lemma length_quadVertices_concat (sizeVertex : option (Q * Q)) (labelAnchor : Anchor)
    (quads : list SymbolQuad) :
  length (concat (quadVertices sizeVertex labelAnchor <$> quads))
  = (4 * length quads)%nat.
Proof.
  induction quads as [|symbol quads IH]; [done|].
  cbn [fmap list_fmap concat length]. rewrite length_app, IH. simpl. lia.
Qed.

(** X8.  What [addSymbols] never does.  A call that returns leaves the
    interface of the set, its GPU buffers and its collision vertex array
    as they were, creates no optional array the set did not have, and
    neither removes nor rewrites an entry: the glyph offsets, the placed
    symbols, the layout vertices, the index elements, the paint entries
    and the entries of the optional arrays from before the call are a
    prefix of those after it. *)
Theorem addSymbols_frame `{AttributeEncoding}
    (zoom : Q) (glyphs : list Q) (arrays : SymbolBuffers)
    (quads : list SymbolQuad) (sizeVertex : option (Q * Q)) (lineOffset : Q * Q)
    (alongLine : bool) (feature : VectorTileFeature) (writingMode : nat)
    (labelAnchor : Anchor) (lineStart lineLen : nat) (placed : list PlacedSymbol)
    (glyphs' : list Q) (arrays' : SymbolBuffers) (placed' : list PlacedSymbol) :
  addSymbols zoom glyphs arrays quads sizeVertex lineOffset alongLine feature
             writingMode labelAnchor lineStart lineLen placed
  = Return (glyphs', arrays', placed') →
  programInterface arrays' = programInterface arrays
  ∧ layoutVertexBuffer arrays' = layoutVertexBuffer arrays
  ∧ indexBuffer arrays' = indexBuffer arrays
  ∧ dynamicLayoutVertexBuffer arrays' = dynamicLayoutVertexBuffer arrays
  ∧ opacityVertexBuffer arrays' = opacityVertexBuffer arrays
  ∧ collisionVertexBuffer arrays' = collisionVertexBuffer arrays
  ∧ paintVertexBuffers (programConfigurations arrays')
    = paintVertexBuffers (programConfigurations arrays)
  ∧ collisionVertexArray arrays' = collisionVertexArray arrays
  ∧ glyphs `prefix_of` glyphs'
  ∧ placed `prefix_of` placed'
  ∧ layoutVertexArray arrays `prefix_of` layoutVertexArray arrays'
  ∧ indexArray arrays `prefix_of` indexArray arrays'
  ∧ paintVertexArray (programConfigurations arrays)
      `prefix_of` paintVertexArray (programConfigurations arrays')
  ∧ option_Forall2 prefix (dynamicLayoutVertexArray arrays)
                          (dynamicLayoutVertexArray arrays')
  ∧ option_Forall2 prefix (opacityVertexArray arrays) (opacityVertexArray arrays').
Proof.
  intros Hrun.
  assert (paintVertexBuffers (programConfigurations arrays')
          = paintVertexBuffers (programConfigurations arrays)
          ∧ paintVertexArray (programConfigurations arrays)
              `prefix_of` paintVertexArray (programConfigurations arrays'))
    as [Hpb Hpa].
  { unfold addSymbols in Hrun.
    destruct (addSymbolQuads _ _ _ _ _ _) as [[arrays1 glyphs1]|] eqn:Hquads;
      [|done].
    cbn in Hrun. injection Hrun as _ <- _. cbn.
    assert (programConfigurations arrays1 = programConfigurations arrays) as ->.
    { destruct quads as [|symbol quads]; [by injection Hquads as <- _|].
      destruct (dynamicLayoutVertexArray arrays) as [dynamic|] eqn:Hdyn;
        [destruct (opacityVertexArray arrays) as [opacity|] eqn:Hop|].
      - destruct (addSymbolQuads_shape sizeVertex labelAnchor zoom (symbol :: quads)
                    arrays glyphs dynamic opacity Hdyn Hop)
          as (arrays2 & bases & Hrun2 & _ & _ & _ & _ & _ & _ & Hp & _).
        rewrite Hrun2 in Hquads. by injection Hquads as <- _.
      - exfalso. cbn [addSymbolQuads] in Hquads. unfold addSymbolQuad in Hquads.
        destruct (prepareSegment_spec 4 (segments arrays) (layoutVertexArray arrays)
                    (indexArray arrays)) as (init & segment & Hprep & _).
        rewrite Hprep, last_snoc in Hquads. unfold addDynamicAttributes in Hquads.
        by rewrite Hdyn, Hop in Hquads.
      - exfalso. cbn [addSymbolQuads] in Hquads. unfold addSymbolQuad in Hquads.
        destruct (prepareSegment_spec 4 (segments arrays) (layoutVertexArray arrays)
                    (indexArray arrays)) as (init & segment & Hprep & _).
        rewrite Hprep, last_snoc in Hquads. unfold addDynamicAttributes in Hquads.
        by rewrite Hdyn in Hquads. }
    split; [done|]. by eexists. }
  destruct (addSymbols_returns_cases _ _ _ _ _ _ _ _ _ _ _ _ _ _ Hrun)
    as [->|(dynamic & opacity & Hdyn & Hop)].
  - cbn in Hrun. injection Hrun as <- <- <-. cbn.
    do 8 (split; [done|]). split; [done|]. split; [by eexists|].
    split; [done|]. split; [done|]. split; [done|].
    split; [destruct (dynamicLayoutVertexArray arrays)
           |destruct (opacityVertexArray arrays)]; by constructor.
  - destruct (addSymbols_shape zoom glyphs arrays quads sizeVertex lineOffset
                alongLine feature writingMode labelAnchor lineStart lineLen placed
                dynamic opacity Hdyn Hop)
      as (arrays2 & bases & entry & Hrun2 & _ & _ & _ & Hlay & Hidx & Hd & Ho & Hc
          & Hi & Hb1 & Hb2 & Hb3 & Hb4 & Hb5 & _).
    rewrite Hrun2 in Hrun. injection Hrun as <- <- <-.
    do 6 (split; [done|]). split; [done|]. split; [done|].
    split; [by eexists|]. split; [by eexists|].
    split; [by eexists|]. split; [by eexists|]. split; [done|].
    rewrite Hdyn, Hop, Hd, Ho. split; constructor; by eexists.
Qed.

(** A quad packed into a set that was uploaded before: the buffer stays,
    the vertex from before stays first. *)
Lemma addSymbols_frame_witness :
  ∃ glyphs' arrays' placed',
    @addSymbols plainEncoding 5 [7]
      (withArrays (newSymbolBuffers textInterface)
                  [SymbolVertex 0 0 0 0 0 0 0 0] []
                  (programConfigurations (newSymbolBuffers textInterface)) []
                  (Some []) (Some [1]) None)
      [unitQuad] (Some (12, 13)) (0, 0) false noFeature 1 pointAnchor 2 3 []
    = Return (glyphs', arrays', placed')
    ∧ programInterface arrays' = textInterface
    ∧ collisionVertexArray arrays' = None
    ∧ [SymbolVertex 0 0 0 0 0 0 0 0] `prefix_of` layoutVertexArray arrays'.
Proof.
  destruct (@addSymbols plainEncoding 5 [7]
      (withArrays (newSymbolBuffers textInterface)
                  [SymbolVertex 0 0 0 0 0 0 0 0] []
                  (programConfigurations (newSymbolBuffers textInterface)) []
                  (Some []) (Some [1]) None)
      [unitQuad] (Some (12, 13)) (0, 0) false noFeature 1%nat pointAnchor 2%nat 3%nat [])
    as [[[glyphs' arrays'] placed']|] eqn:Hrun; [|by vm_compute in Hrun].
  destruct (@addSymbols_frame plainEncoding _ _ _ _ _ _ _ _ _ _ _ _ _ _ _ _ Hrun)
    as (Hi & _ & _ & _ & _ & _ & _ & Hc & _ & _ & Hlay & _).
  exists glyphs', arrays', placed'. split; [reflexivity|].
  split; [exact Hi|]. split; [exact Hc|exact Hlay].
Defined.

(** X9.  [addSymbols] keeps a triangle set without collision attributes
    well formed: after a call that returns, the set still has exactly the
    optional arrays of its interface, each as long as the layout vertex
    array, its segments still tile the layout and index arrays with at
    most 65535 vertices each (the segments as the spec describes
    [prepareSegment]), and the index array holds triangles only. *)
Theorem addSymbols_well_formed `{AttributeEncoding}
    (zoom : Q) (glyphs : list Q) (arrays : SymbolBuffers)
    (quads : list SymbolQuad) (sizeVertex : option (Q * Q)) (lineOffset : Q * Q)
    (alongLine : bool) (feature : VectorTileFeature) (writingMode : nat)
    (labelAnchor : Anchor) (lineStart lineLen : nat) (placed : list PlacedSymbol)
    (glyphs' : list Q) (arrays' : SymbolBuffers) (placed' : list PlacedSymbol) :
  setWellFormed arrays →
  indexArrayType (programInterface arrays) = TriangleIndexArray →
  hasCollisionAttributes (programInterface arrays) = false →
  addSymbols zoom glyphs arrays quads sizeVertex lineOffset alongLine feature
             writingMode labelAnchor lineStart lineLen placed
  = Return (glyphs', arrays', placed') →
  setWellFormed arrays'.
Proof.
  intros (Hmatch & Haligned & Htile & Htyped) Htriangle Hnocollision Hrun.
  destruct (addSymbols_returns_cases _ _ _ _ _ _ _ _ _ _ _ _ _ _ Hrun)
    as [->|(dynamic & opacity & Hdyn & Hop)].
  - cbn in Hrun. injection Hrun as <- <- <-. done.
  - destruct (addSymbols_shape zoom glyphs arrays quads sizeVertex lineOffset
                alongLine feature writingMode labelAnchor lineStart lineLen placed
                dynamic opacity Hdyn Hop)
      as (arrays2 & bases & entry & Hrun2 & _ & _ & _ & Hlay & Hidx & Hd & Ho & Hc
          & Hi & _ & _ & _ & _ & _ & Htile').
    rewrite Hrun2 in Hrun. injection Hrun as <- <- <-.
    destruct Hmatch as (Hmd & Hmo & Hmc).
    destruct Haligned as (Had & Hao & Hac).
    assert (collisionVertexArray arrays = None) as Hnone.
    { destruct (collisionVertexArray arrays) as [collision|] eqn:Hcol; [|done].
      rewrite Hnocollision in Hmc. by destruct Hmc as [Hmc _]; specialize (Hmc ltac:(eauto)). }
    split; [|split; [|split]].
    + unfold matchesInterface. rewrite Hi, Hd, Ho, Hc.
      rewrite Hdyn in Hmd. rewrite Hop in Hmo.
      split; [|split; [|done]].
      * split; [intros _; by apply Hmd|by eauto].
      * split; [intros _; by apply Hmo|by eauto].
    + unfold vertexArraysAligned. rewrite Hlay, Hd, Ho, Hc, Hnone, !length_app.
      rewrite length_quadVertices_concat.
      split; [|split; [|done]].
      * intros ? [= <-]. rewrite length_app, length_replicate, (Had _ Hdyn). done.
      * intros ? [= <-]. rewrite length_app, length_replicate, (Hao _ Hop). done.
    + by apply Htile'.
    + unfold indexArrayTyped. rewrite Hi, Hidx, Htriangle. apply Forall_app.
      split; [by rewrite <- Htriangle|apply Forall_quadTriangles].
Qed.

(** A fresh text set is well formed, and so it is after two quads. *)
Lemma addSymbols_well_formed_witness :
  ∃ glyphs' arrays' placed',
    @addSymbols plainEncoding 5 [] (newSymbolBuffers textInterface)
                [unitQuad; unitQuad] (Some (12, 12)) (0, 0) false noFeature 1
                pointAnchor 0 0 []
    = Return (glyphs', arrays', placed')
    ∧ setWellFormed arrays'.
Proof.
  destruct (@addSymbols plainEncoding 5 [] (newSymbolBuffers textInterface)
              [unitQuad; unitQuad] (Some (12, 12)) (0, 0) false noFeature 1%nat
              pointAnchor 0%nat 0%nat [])
    as [[[glyphs' arrays'] placed']|] eqn:Hrun; [|by vm_compute in Hrun].
  exists glyphs', arrays', placed'. split; [reflexivity|].
  apply (@addSymbols_well_formed plainEncoding _ _ _ _ _ _ _ _ _ _ _ _ _ _ _ _
           (newSymbolBuffers_well_formed textInterface) eq_refl eq_refl Hrun).
Defined.

(** ** Debug geometry emitter: what a run writes *)

Lemma growLastSegment_twice (init : list Segment) (segment : Segment) (dp : nat) :
  growLastSegment 0 dp (growLastSegment 4 0 (init ++ [segment]))
  = growLastSegment 4 dp (init ++ [segment]).
Proof.
  rewrite !growLastSegment_snoc. unfold growSegment. simpl.
  do 2 f_equal. f_equal; lia.
Qed.

Lemma debugEmitted_refl (isCircle : bool) (arrays : SymbolBuffers) :
  debugEmitted isCircle arrays arrays [].
Proof.
  unfold debugEmitted. simpl. rewrite app_nil_r.
  split; [done|]. split.
  { exists []. simpl. by rewrite app_nil_r. }
  split.
  { destruct (collisionVertexArray arrays); simpl; [|done]. by rewrite app_nil_r. }
  by do 9 (split; [done|]).
Qed.

Lemma debugEmitted_trans (isCircle : bool) (arrays arrays1 arrays2 : SymbolBuffers)
    (records1 records2 : list (Anchor * CollisionBox)) :
  debugEmitted isCircle arrays arrays1 records1 →
  debugEmitted isCircle arrays1 arrays2 records2 →
  debugEmitted isCircle arrays arrays2 (records1 ++ records2).
Proof.
  intros (Hlay1 & (bases1 & Hlen1 & Hroom1 & Hidx1) & Hcol1 & Hd1 & Ho1 & Hp1 & Hi1
          & Ha1 & Hb1 & Hc1 & He1 & Hf1 & Htile1)
         (Hlay2 & (bases2 & Hlen2 & Hroom2 & Hidx2) & Hcol2 & Hd2 & Ho2 & Hp2 & Hi2
          & Ha2 & Hb2 & Hc2 & He2 & Hf2 & Htile2).
  unfold debugEmitted.
  split; [by rewrite Hlay2, Hlay1, fmap_app, concat_app, app_assoc|].
  split.
  { exists (bases1 ++ bases2). split; [rewrite !length_app; lia|].
    split; [by apply Forall_app|].
    by rewrite Hidx2, Hidx1, fmap_app, concat_app, app_assoc. }
  split.
  { rewrite Hcol2, Hcol1. destruct (collisionVertexArray arrays); simpl; [|done].
    rewrite <- app_assoc, <- replicate_add, length_app. do 3 f_equal. lia. }
  do 9 (split; [congruence|]). auto.
Qed.

(** One outline, added by [addCollisionDebugVertices]. *)
Lemma addCollisionDebugVertices_emitted (arrays : SymbolBuffers)
    (symbolInstance : SymbolInstance) (box : CollisionBox) (isCircle : bool) :
  is_Some (collisionVertexArray arrays) →
  ∃ arrays',
    addCollisionDebugVertices (box_x1 box) (box_y1 box) (box_x2 box) (box_y2 box)
                              arrays (box_anchorPoint box) symbolInstance isCircle
    = Return arrays'
    ∧ debugEmitted isCircle arrays arrays' [(si_anchor symbolInstance, box)].
Proof.
  intros [collision Hcol]. unfold addCollisionDebugVertices.
  destruct (prepareSegment_spec 4 (segments arrays) (layoutVertexArray arrays)
              (indexArray arrays)) as (init & segment & Hprep & Hroom & Hcase).
  pose proof (tilesFrom_prepare_grow (segments arrays) (layoutVertexArray arrays)
                (indexArray arrays) 4 (if isCircle then 2 else 4)%nat) as Htiles.
  rewrite Hprep in Htiles |- *. rewrite last_snoc, Hcol.
  cbn [defined mbind outcome_bind mret outcome_ret _addCollisionDebugVertex].
  assert (∀ layout index' collision' dp,
            (dp = if isCircle then 2 else 4)%nat →
            layout = layoutVertexArray arrays
                     ++ debugVertices (si_anchor symbolInstance, box) →
            index' = indexArray arrays
                     ++ (if isCircle then circleTriangles else boxEdges)
                          (vertexLength segment) →
            collision' = collision ++ replicate 4 (0, 0) →
            debugEmitted isCircle arrays
              (withArrays arrays layout index' (programConfigurations arrays)
                 (growLastSegment 0 dp (growLastSegment 4 0 (init ++ [segment])))
                 (dynamicLayoutVertexArray arrays) (opacityVertexArray arrays)
                 (Some collision'))
              [(si_anchor symbolInstance, box)]) as Hemitted.
  { intros layout index' collision' dp -> -> -> ->. unfold debugEmitted.
    cbn [withArrays layoutVertexArray indexArray collisionVertexArray
         dynamicLayoutVertexArray opacityVertexArray programConfigurations
         programInterface layoutVertexBuffer indexBuffer dynamicLayoutVertexBuffer
         opacityVertexBuffer collisionVertexBuffer segments fmap list_fmap concat
         length].
    rewrite app_nil_r. split; [done|]. split.
    { exists [vertexLength segment]. split; [done|].
      split; [constructor; [apply Hroom, four_vertices_fit|constructor]|].
      simpl. by rewrite app_nil_r. }
    split; [by rewrite Hcol|]. do 9 (split; [done|]).
    intros [Htile Hbound]. unfold segmentsTile.
    cbn [withArrays layoutVertexArray indexArray segments].
    rewrite growLastSegment_twice, !length_app.
    replace (length (debugVertices (si_anchor symbolInstance, box))) with 4%nat by done.
    replace (length ((if isCircle then circleTriangles else boxEdges)
                       (vertexLength segment)))
      with (if isCircle then 2 else 4)%nat by (by destruct isCircle).
    apply Htiles; [lia|done|done]. }
  destruct isCircle; eexists; (split; [reflexivity|]);
    apply Hemitted; try done; by rewrite <- !app_assoc.
Qed.

Lemma debugEmitted_is_Some (isCircle : bool) (arrays arrays' : SymbolBuffers)
    (records : list (Anchor * CollisionBox)) :
  debugEmitted isCircle arrays arrays' records →
  is_Some (collisionVertexArray arrays) →
  is_Some (collisionVertexArray arrays').
Proof.
  intros (_ & _ & Hcol & _) [collision Hsome]. rewrite Hcol, Hsome. by eexists.
Qed.

(** The loop over the records of one collision feature. *)
Lemma addCollisionDebugRange_emitted (collisionBoxArray : list CollisionBox)
    (symbolInstance : SymbolInstance) (todo : nat) :
  ∀ (b : nat) (collisionBox collisionCircle : SymbolBuffers),
  (todo ≠ 0 → b + todo ≤ length collisionBoxArray)%nat →
  is_Some (collisionVertexArray collisionBox) →
  is_Some (collisionVertexArray collisionCircle) →
  ∃ collisionBox' collisionCircle',
    addCollisionDebugRange collisionBoxArray symbolInstance todo b
                           collisionBox collisionCircle
    = Return (collisionBox', collisionCircle')
    ∧ debugEmitted false collisionBox collisionBox'
        (List.filter (λ record, negb (isCircleRecord record))
           (pair (si_anchor symbolInstance)
            <$> take todo (drop b collisionBoxArray)))
    ∧ debugEmitted true collisionCircle collisionCircle'
        (List.filter isCircleRecord
           (pair (si_anchor symbolInstance)
            <$> take todo (drop b collisionBoxArray))).
Proof.
  induction todo as [|todo IH]; intros b collisionBox collisionCircle Hin Hbox Hcircle.
  - exists collisionBox, collisionCircle. split; [done|].
    rewrite take_0. split; apply debugEmitted_refl.
  - specialize (Hin ltac:(done)).
    destruct (lookup_lt_is_Some_2 collisionBoxArray b ltac:(lia)) as [box Hat].
    rewrite (drop_S _ _ _ Hat). cbn [take fmap list_fmap List.filter].
    cbn [addCollisionDebugRange]. unfold getBox. rewrite Hat.
    cbn [defined mbind outcome_bind]. unfold addCollisionDebugBox.
    change (negb (Qle_bool (box_radius box) 0))
      with (isCircleRecord (si_anchor symbolInstance, box)).
    destruct (isCircleRecord (si_anchor symbolInstance, box)); cbn [negb].
    + destruct (addCollisionDebugVertices_emitted collisionCircle symbolInstance box
                  true Hcircle) as (circle1 & -> & Hemitted).
      cbn [mbind outcome_bind mret outcome_ret].
      destruct (IH (S b) collisionBox circle1) as (box' & circle' & -> & Hb & Hc);
        [lia|done|by eapply debugEmitted_is_Some|].
      exists box', circle'. split; [done|]. split; [done|].
      by apply (debugEmitted_trans true _ _ _ [_] _ Hemitted).
    + destruct (addCollisionDebugVertices_emitted collisionBox symbolInstance box
                  false Hbox) as (box1 & -> & Hemitted).
      cbn [mbind outcome_bind mret outcome_ret].
      destruct (IH (S b) box1 collisionCircle) as (box' & circle' & -> & Hb & Hc);
        [lia|by eapply debugEmitted_is_Some|done|].
      exists box', circle'. split; [done|]. split; [|done].
      by apply (debugEmitted_trans false _ _ _ [_] _ Hemitted).
Qed.

(** The loop over the symbol instances. *)
Lemma generateCollisionDebugBuffers_emitted_loop (collisionBoxArray : list CollisionBox)
    (symbolInstances : list SymbolInstance)
    (collisionBox collisionCircle : SymbolBuffers) :
  Forall (instanceInStore collisionBoxArray) symbolInstances →
  is_Some (collisionVertexArray collisionBox) →
  is_Some (collisionVertexArray collisionCircle) →
  ∃ collisionBox' collisionCircle',
    generateCollisionDebugBuffers collisionBoxArray symbolInstances
                                  collisionBox collisionCircle
    = Return (withCollisionFeatures <$> symbolInstances,
              collisionBox', collisionCircle')
    ∧ debugEmitted false collisionBox collisionBox'
        (List.filter (λ record, negb (isCircleRecord record))
           (debugRecords collisionBoxArray symbolInstances))
    ∧ debugEmitted true collisionCircle collisionCircle'
        (List.filter isCircleRecord (debugRecords collisionBoxArray symbolInstances)).
Proof.
  intros Hin. revert collisionBox collisionCircle.
  induction Hin as [|symbolInstance rest [Htext Hicon] _ IH];
    intros collisionBox collisionCircle Hbox Hcircle.
  - exists collisionBox, collisionCircle. split; [done|].
    split; apply debugEmitted_refl.
  - cbn [generateCollisionDebugBuffers]. unfold addCollisionDebugFeature.
    cbn [withCollisionFeatures textCollisionFeature iconCollisionFeature
         boxStartIndex boxEndIndex].
    destruct (addCollisionDebugRange_emitted collisionBoxArray
                (withCollisionFeatures symbolInstance)
                (textBoxEndIndex symbolInstance - textBoxStartIndex symbolInstance)
                (textBoxStartIndex symbolInstance) collisionBox collisionCircle)
      as (box1 & circle1 & Hrun1 & Hb1 & Hc1); [unfold rangeInStore in Htext; lia|done..|].
    destruct (addCollisionDebugRange_emitted collisionBoxArray
                (withCollisionFeatures symbolInstance)
                (iconBoxEndIndex symbolInstance - iconBoxStartIndex symbolInstance)
                (iconBoxStartIndex symbolInstance) box1 circle1)
      as (box2 & circle2 & Hrun2 & Hb2 & Hc2);
      [unfold rangeInStore in Hicon; lia
      |by eapply debugEmitted_is_Some|by eapply debugEmitted_is_Some|].
    destruct (IH box2 circle2) as (box' & circle' & Hrun & Hb & Hc);
      [by do 2 (eapply debugEmitted_is_Some; [eassumption|])
      |by do 2 (eapply debugEmitted_is_Some; [eassumption|])|].
    cbn [withCollisionFeatures] in Hrun1, Hrun2.
    rewrite Hrun1. cbn [mbind outcome_bind]. rewrite Hrun2. cbn [mbind outcome_bind].
    rewrite Hrun. exists box', circle'. split; [done|].
    cbn [debugRecords flat_map]. fold (debugRecords collisionBoxArray rest).
    rewrite fmap_app, !List.filter_app. unfold recordsOf.
    cbn [si_anchor withCollisionFeatures] in Hb1, Hc1, Hb2, Hc2.
    split.
    + eapply debugEmitted_trans; [|exact Hb].
      eapply debugEmitted_trans; [exact Hb1|exact Hb2].
    + eapply debugEmitted_trans; [|exact Hc].
      eapply debugEmitted_trans; [exact Hc1|exact Hc2].
Qed.

Lemma length_debugVertices_concat (records : list (Anchor * CollisionBox)) :
  length (concat (debugVertices <$> records)) = (4 * length records)%nat.
Proof.
  induction records as [|record records IH]; [done|].
  cbn [fmap list_fmap concat length]. rewrite length_app, IH. simpl. lia.
Qed.

Lemma length_filter_partition {A} (f : A → bool) (l : list A) :
  (length (List.filter (λ x, negb (f x)) l) + length (List.filter f l))%nat = length l.
Proof.
  induction l as [|x l IH]; [done|]. simpl. destruct (f x); simpl; lia.
Qed.

Lemma length_debug_primitives (isCircle : bool) (bases : list nat) :
  length (concat ((if isCircle then circleTriangles else boxEdges) <$> bases))
  = ((if isCircle then 2 else 4) * length bases)%nat.
Proof.
  induction bases as [|index bases IH]; [by destruct isCircle|].
  cbn [fmap list_fmap concat length]. rewrite length_app, IH.
  destruct isCircle; simpl; lia.
Qed.

(** X10.  [generateCollisionDebugBuffers], on two sets that have a
    collision vertex array and symbol instances whose ranges can be read
    from the store, returns; it gives every instance its two collision
    features and sends every record of the text range, then of the icon
    range, of every instance to exactly one set: to the circle set when
    its radius is positive, to the box set otherwise.  Each set receives,
    in that order, the four corner vertices of each of its records and
    four zero collision records, with two triangles per record in the
    circle set and four edges in the box set; paint data, the other
    optional arrays and the GPU buffers are not touched.  So with [boxes]
    records sent to the box set and [circles] to the circle set, which
    together are all the records visited, the box set grows by
    [4 * boxes] vertices and as many edges, the circle set by
    [4 * circles] vertices and [2 * circles] triangles. *)
Theorem generateCollisionDebugBuffers_emitted (collisionBoxArray : list CollisionBox)
    (symbolInstances : list SymbolInstance)
    (collisionBox collisionCircle : SymbolBuffers) :
  Forall (instanceInStore collisionBoxArray) symbolInstances →
  is_Some (collisionVertexArray collisionBox) →
  is_Some (collisionVertexArray collisionCircle) →
  ∃ collisionBox' collisionCircle' boxes circles,
    generateCollisionDebugBuffers collisionBoxArray symbolInstances
                                  collisionBox collisionCircle
    = Return (withCollisionFeatures <$> symbolInstances,
              collisionBox', collisionCircle')
    ∧ boxes = List.filter (λ record, negb (isCircleRecord record))
                          (debugRecords collisionBoxArray symbolInstances)
    ∧ circles = List.filter isCircleRecord
                            (debugRecords collisionBoxArray symbolInstances)
    ∧ debugEmitted false collisionBox collisionBox' boxes
    ∧ debugEmitted true collisionCircle collisionCircle' circles
    ∧ (length boxes + length circles
       = length (debugRecords collisionBoxArray symbolInstances))%nat
    ∧ length (layoutVertexArray collisionBox')
      = (length (layoutVertexArray collisionBox) + 4 * length boxes)%nat
    ∧ length (indexArray collisionBox')
      = (length (indexArray collisionBox) + 4 * length boxes)%nat
    ∧ length (layoutVertexArray collisionCircle')
      = (length (layoutVertexArray collisionCircle) + 4 * length circles)%nat
    ∧ length (indexArray collisionCircle')
      = (length (indexArray collisionCircle) + 2 * length circles)%nat.
Proof.
  intros Hin Hbox Hcircle.
  destruct (generateCollisionDebugBuffers_emitted_loop collisionBoxArray symbolInstances
              collisionBox collisionCircle Hin Hbox Hcircle)
    as (box' & circle' & Hrun & Hb & Hc).
  exists box', circle'. eexists _, _.
  split; [exact Hrun|]. split; [reflexivity|]. split; [reflexivity|].
  split; [exact Hb|]. split; [exact Hc|].
  split; [apply length_filter_partition|].
  destruct Hb as (Hlayb & (basesb & Hlenb & _ & Hidxb) & _).
  destruct Hc as (Hlayc & (basesc & Hlenc & _ & Hidxc) & _).
  rewrite Hlayb, Hlayc, Hidxb, Hidxc, !length_app, !length_debugVertices_concat.
  rewrite (length_debug_primitives false), (length_debug_primitives true).
  rewrite Hlenb, Hlenc. done.
Qed.

(** A box and a circle: four vertices and four edges in the box set,
    four vertices and two triangles in the circle set. *)
Lemma generateCollisionDebugBuffers_emitted_witness :
  ∃ collisionBox' collisionCircle',
    generateCollisionDebugBuffers [boxRecord; circleRecord] [twoRecordInstance]
      (newSymbolBuffers collisionBoxInterface)
      (newSymbolBuffers collisionCircleInterface)
    = Return ([withCollisionFeatures twoRecordInstance],
              collisionBox', collisionCircle')
    ∧ layoutVertexArray collisionBox'
      = [ CollisionDebugVertex 100 200 10 20 (-4) (-2);
          CollisionDebugVertex 100 200 10 20 4 (-2);
          CollisionDebugVertex 100 200 10 20 4 2;
          CollisionDebugVertex 100 200 10 20 (-4) 2 ]
    ∧ length (layoutVertexArray collisionCircle') = 4%nat
    ∧ collisionVertexArray collisionCircle' = Some [(0, 0); (0, 0); (0, 0); (0, 0)].
Proof.
  destruct (generateCollisionDebugBuffers_emitted [boxRecord; circleRecord]
              [twoRecordInstance] (newSymbolBuffers collisionBoxInterface)
              (newSymbolBuffers collisionCircleInterface))
    as (box' & circle' & boxes & circles & Hrun & -> & -> & (Hlayb & _)
        & (Hlayc & _ & Hcolc & _) & _).
  - constructor; [|constructor]. split; unfold rangeInStore; simpl; lia.
  - by eexists.
  - by eexists.
  - exists box', circle'. split; [exact Hrun|].
    split; [by rewrite Hlayb|]. split; [by rewrite Hlayc|by rewrite Hcolc].
Defined.

Lemma Forall_debug_primitives (isCircle : bool) (bases : list nat) :
  Forall (λ prim, primitiveType prim
                  = if isCircle then TriangleIndexArray else LineIndexArray)
         (concat ((if isCircle then circleTriangles else boxEdges) <$> bases)).
Proof.
  induction bases as [|index bases IH]; [constructor|].
  destruct isCircle; simpl; by repeat constructor.
Qed.

(** The outlines keep a debug set well formed. *)
Lemma debugEmitted_well_formed (isCircle : bool) (arrays arrays' : SymbolBuffers)
    (records : list (Anchor * CollisionBox)) :
  debugEmitted isCircle arrays arrays' records →
  setWellFormed arrays →
  hasDynamicLayoutAttributes (programInterface arrays) = false →
  hasOpacityAttributes (programInterface arrays) = false →
  indexArrayType (programInterface arrays)
  = (if isCircle then TriangleIndexArray else LineIndexArray) →
  setWellFormed arrays'.
Proof.
  intros (Hlay & (bases & Hlen & Hroom & Hidx) & Hcol & Hd & Ho & Hp & Hi & _ & _ & _
          & _ & _ & Htile)
         ((Hmd & Hmo & Hmc) & (Had & Hao & Hac) & Htiles & Htyped) Hnodyn Hnoop Htype.
  assert (dynamicLayoutVertexArray arrays = None) as Hdnone.
  { destruct (dynamicLayoutVertexArray arrays); [|done].
    rewrite Hnodyn in Hmd. by destruct Hmd as [Hmd _]; specialize (Hmd ltac:(eauto)). }
  assert (opacityVertexArray arrays = None) as Honone.
  { destruct (opacityVertexArray arrays); [|done].
    rewrite Hnoop in Hmo. by destruct Hmo as [Hmo _]; specialize (Hmo ltac:(eauto)). }
  split; [|split; [|split]].
  - unfold matchesInterface. rewrite Hi, Hd, Ho, Hcol.
    split; [done|]. split; [done|]. rewrite <- Hmc.
    by destruct (collisionVertexArray arrays); simpl.
  - unfold vertexArraysAligned. rewrite Hd, Ho, Hdnone, Honone, Hlay, Hcol.
    split; [done|]. split; [done|].
    destruct (collisionVertexArray arrays) as [collision|] eqn:Hsome; [|done].
    intros ? [= <-].
    rewrite !length_app, length_replicate, length_debugVertices_concat.
    by rewrite (Hac _ eq_refl).
  - by apply Htile.
  - unfold indexArrayTyped. rewrite Hi, Hidx, Htype. apply Forall_app.
    split; [by rewrite <- Htype|apply Forall_debug_primitives].
Qed.

(** X11.  [generateCollisionDebugBuffers] keeps the two debug sets well
    formed.  When the box set has the interface of collision boxes and
    the circle set that of collision circles, both are well formed and
    the ranges of the symbol instances can be read from the store, the
    run returns and afterwards each set still has a collision vertex
    array as long as its layout vertex array, segments that tile its
    layout and index arrays with at most 65535 vertices each (the
    segments as the spec describes [prepareSegment]), and an index array
    of line edges only in the box set, of triangles only in the circle
    set. *)
Theorem generateCollisionDebugBuffers_well_formed
    (collisionBoxArray : list CollisionBox) (symbolInstances : list SymbolInstance)
    (collisionBox collisionCircle : SymbolBuffers) :
  Forall (instanceInStore collisionBoxArray) symbolInstances →
  programInterface collisionBox = collisionBoxInterface →
  programInterface collisionCircle = collisionCircleInterface →
  setWellFormed collisionBox →
  setWellFormed collisionCircle →
  ∃ symbolInstances' collisionBox' collisionCircle',
    generateCollisionDebugBuffers collisionBoxArray symbolInstances
                                  collisionBox collisionCircle
    = Return (symbolInstances', collisionBox', collisionCircle')
    ∧ setWellFormed collisionBox'
    ∧ setWellFormed collisionCircle'
    ∧ Forall (λ prim, primitiveType prim = LineIndexArray) (indexArray collisionBox')
    ∧ Forall (λ prim, primitiveType prim = TriangleIndexArray)
             (indexArray collisionCircle').
Proof.
  intros Hin Hbi Hci Hbw Hcw.
  assert (is_Some (collisionVertexArray collisionBox)) as Hbsome.
  { destruct Hbw as ((_ & _ & Hmc) & _). apply Hmc. by rewrite Hbi. }
  assert (is_Some (collisionVertexArray collisionCircle)) as Hcsome.
  { destruct Hcw as ((_ & _ & Hmc) & _). apply Hmc. by rewrite Hci. }
  destruct (generateCollisionDebugBuffers_emitted_loop collisionBoxArray symbolInstances
              collisionBox collisionCircle Hin Hbsome Hcsome)
    as (box' & circle' & Hrun & Hb & Hc).
  exists (withCollisionFeatures <$> symbolInstances), box', circle'.
  split; [done|].
  assert (setWellFormed box') as Hbw'.
  { apply (debugEmitted_well_formed false _ _ _ Hb Hbw); by rewrite Hbi. }
  assert (setWellFormed circle') as Hcw'.
  { apply (debugEmitted_well_formed true _ _ _ Hc Hcw); by rewrite Hci. }
  split; [done|]. split; [done|].
  split.
  - destruct Hbw' as (_ & _ & _ & Htyped). unfold indexArrayTyped in Htyped.
    destruct Hb as (_ & _ & _ & _ & _ & _ & Hi & _). by rewrite Hi, Hbi in Htyped.
  - destruct Hcw' as (_ & _ & _ & Htyped). unfold indexArrayTyped in Htyped.
    destruct Hc as (_ & _ & _ & _ & _ & _ & Hi & _). by rewrite Hi, Hci in Htyped.
Qed.

(** The two fresh debug sets after a box and a circle. *)
Lemma generateCollisionDebugBuffers_well_formed_witness :
  ∃ symbolInstances' collisionBox' collisionCircle',
    generateCollisionDebugBuffers [boxRecord; circleRecord] [twoRecordInstance]
      (newSymbolBuffers collisionBoxInterface)
      (newSymbolBuffers collisionCircleInterface)
    = Return (symbolInstances', collisionBox', collisionCircle')
    ∧ setWellFormed collisionBox'
    ∧ setWellFormed collisionCircle'.
Proof.
  destruct (generateCollisionDebugBuffers_well_formed [boxRecord; circleRecord]
              [twoRecordInstance] (newSymbolBuffers collisionBoxInterface)
              (newSymbolBuffers collisionCircleInterface))
    as (instances' & box' & circle' & Hrun & Hb & Hc & _).
  - constructor; [|constructor]. split; unfold rangeInStore; simpl; lia.
  - reflexivity.
  - reflexivity.
  - apply newSymbolBuffers_well_formed.
  - apply newSymbolBuffers_well_formed.
  - exists instances', box', circle'. split; [exact Hrun|]. split; [exact Hb|exact Hc].
Defined.

(** ** Flattening of collision records: the two routines together *)

Lemma chunk_concat_uniform {A} (n : nat) (ls : list (list A)) :
  Forall (λ l, length l = n) ls →
  ∀ i l, ls !! i = Some l → take n (drop (n * i) (concat ls)) = l.
Proof.
  induction 1 as [|l0 ls Hl0 _ IH]; intros i l Hi; [done|].
  cbn [concat]. destruct i as [|i].
  - injection Hi as ->. rewrite Nat.mul_0_r, drop_0, take_app_le by lia.
    apply take_ge. lia.
  - rewrite drop_app_ge by lia.
    replace (n * S i - length l0)%nat with (n * i)%nat by lia. by apply IH.
Qed.

Lemma lookup_recordsOf (collisionBoxArray : list CollisionBox)
    (startIndex endIndex i : nat) :
  (i < endIndex - startIndex)%nat →
  recordsOf collisionBoxArray startIndex endIndex !! i
  = collisionBoxArray !! (startIndex + i)%nat.
Proof.
  intros Hi. unfold recordsOf. by rewrite lookup_take_lt, lookup_drop by lia.
Qed.

(** X12.  The two flattening routines never both yield values for the
    same range.  On a range inside the store both return; the boxes are
    not empty exactly when the range is not empty and all its records
    have radius 0, the circles exactly when it is not empty and no record
    has radius 0; so a range that mixes the two kinds is lost by both
    routines. *)
Theorem deserialize_at_most_one (collisionBoxArray : list CollisionBox)
    (startIndex endIndex : nat) :
  (endIndex ≤ length collisionBoxArray)%nat →
  let records := recordsOf collisionBoxArray startIndex endIndex in
  ∃ boxes circles,
    deserializeCollisionBoxes collisionBoxArray startIndex endIndex = Return boxes
    ∧ deserializeCollisionCircles collisionBoxArray startIndex endIndex
      = Return circles
    ∧ (boxes = [] ∨ circles = [])
    ∧ (boxes ≠ [] ↔ records ≠ [] ∧ Forall boxKind records)
    ∧ (circles ≠ [] ↔ records ≠ [] ∧ Forall circleKind records)
    ∧ (Exists boxKind records → Exists circleKind records →
       boxes = [] ∧ circles = []).
Proof.
  intros Hend records.
  rewrite (deserializeCollisionBoxes_eq collisionBoxArray startIndex endIndex Hend).
  rewrite (deserializeCollisionCircles_eq collisionBoxArray startIndex endIndex Hend).
  fold records. eexists _, _. split; [reflexivity|]. split; [reflexivity|].
  destruct (forallb (λ box, Qeq_bool (box_radius box) 0) records) eqn:Hboxes;
    destruct (forallb (λ box, negb (Qeq_bool (box_radius box) 0)) records) eqn:Hcircles.
  - apply forallb_boxKind in Hboxes. apply forallb_circleKind in Hcircles.
    destruct records as [|record rest]; simpl.
    + split; [by left|]. split; [split; [done|by intros [? _]]|].
      split; [split; [done|by intros [? _]]|]. by intros ?%Exists_nil.
    + exfalso. apply Forall_cons in Hboxes as [Hbox _].
      apply Forall_cons in Hcircles as [Hcircle _]. by apply Hcircle.
  - apply forallb_boxKind in Hboxes.
    assert (¬ Forall circleKind records) as Hnot.
    { intros Hall%forallb_circleKind. congruence. }
    split; [by right|]. split; [|split].
    + split; [|by destruct records]. intros Hne. split; [|done].
      intros Heq. by rewrite Heq in Hne.
    + split; [done|]. by intros [_ ?].
    + intros _ Hex. exfalso. apply Exists_exists in Hex as (box & Hin & Hcircle).
      rewrite Forall_forall in Hboxes. by apply Hcircle, Hboxes.
  - apply forallb_circleKind in Hcircles.
    assert (¬ Forall boxKind records) as Hnot.
    { intros Hall%forallb_boxKind. congruence. }
    split; [by left|]. split; [|split].
    + split; [done|]. by intros [_ ?].
    + split; [|by destruct records]. intros Hne. split; [|done].
      intros Heq. by rewrite Heq in Hne.
    + intros Hex _. exfalso. apply Exists_exists in Hex as (box & Hin & Hbox).
      rewrite Forall_forall in Hcircles. by apply (Hcircles box).
  - split; [by left|].
    split; [split; [done|intros [_ Hall%forallb_boxKind]; congruence]|].
    split; [split; [done|intros [_ Hall%forallb_circleKind]; congruence]|]. done.
Qed.

(** A box and a circle side by side: neither routine keeps anything. *)
Lemma deserialize_at_most_one_witness :
  deserializeCollisionBoxes [boxRecord; circleRecord] 0 2 = Return []
  ∧ deserializeCollisionCircles [boxRecord; circleRecord] 0 2 = Return [].
Proof.
  destruct (deserialize_at_most_one [boxRecord; circleRecord] 0 2)
    as (boxes & circles & Hboxes & Hcircles & _ & _ & _ & Hmixed); [simpl; lia|].
  destruct Hmixed as [-> ->].
  - apply Exists_cons_hd. reflexivity.
  - apply Exists_cons_tl, Exists_cons_hd. by intros Heq.
  - split; [exact Hboxes|exact Hcircles].
Defined.

(** X13.  The flattened arrays can be read back record by record.  When
    [deserializeCollisionBoxes] returns a non-empty array for a range
    inside the store, record [i] of the range has radius 0 and its six
    values [x1, y1, x2, y2, anchorPointX, anchorPointY] are the six
    entries from position [6 i]; when [deserializeCollisionCircles]
    returns a non-empty array, record [i] has a radius other than 0 and
    its five values [anchorPointX, anchorPointY, radius,
    distanceToAnchor, false] are the five entries from position [5 i]. *)
Theorem deserialize_stride (collisionBoxArray : list CollisionBox)
    (startIndex endIndex i : nat) (flat : list FlatValue) :
  (endIndex ≤ length collisionBoxArray)%nat →
  (i < endIndex - startIndex)%nat →
  flat ≠ [] →
  (deserializeCollisionBoxes collisionBoxArray startIndex endIndex = Return flat →
   ∃ box, collisionBoxArray !! (startIndex + i)%nat = Some box
          ∧ boxKind box
          ∧ take 6 (drop (6 * i) flat) = boxValues box)
  ∧ (deserializeCollisionCircles collisionBoxArray startIndex endIndex = Return flat →
     ∃ circle, collisionBoxArray !! (startIndex + i)%nat = Some circle
               ∧ circleKind circle
               ∧ take 5 (drop (5 * i) flat) = circleValues circle).
Proof.
  intros Hend Hi Hne.
  destruct (lookup_lt_is_Some_2 collisionBoxArray (startIndex + i)%nat ltac:(lia))
    as [box Hat].
  pose proof (lookup_recordsOf collisionBoxArray startIndex endIndex i Hi) as Hrecord.
  rewrite Hat in Hrecord.
  split; intros Hrun.
  - rewrite (deserializeCollisionBoxes_eq collisionBoxArray startIndex endIndex Hend)
      in Hrun.
    destruct (forallb _ _) eqn:Hall; injection Hrun as <-; [|done].
    apply forallb_boxKind in Hall. exists box. split; [done|].
    split; [by eapply Forall_lookup_1 in Hall|].
    apply chunk_concat_uniform; [|by rewrite list_lookup_fmap, Hrecord].
    apply Forall_fmap, Forall_forall. by intros.
  - rewrite (deserializeCollisionCircles_eq collisionBoxArray startIndex endIndex Hend)
      in Hrun.
    destruct (forallb _ _) eqn:Hall; injection Hrun as <-; [|done].
    apply forallb_circleKind in Hall. exists box. split; [done|].
    split; [by eapply Forall_lookup_1 in Hall|].
    apply chunk_concat_uniform; [|by rewrite list_lookup_fmap, Hrecord].
    apply Forall_fmap, Forall_forall. by intros.
Qed.

(** The second of two circles, read back from position 5. *)
Lemma deserialize_stride_witness :
  ∃ flat,
    deserializeCollisionCircles [circleRecord; negativeRecord] 0 2 = Return flat
    ∧ take 5 (drop 5 flat) = circleValues negativeRecord.
Proof.
  destruct (deserializeCollisionCircles [circleRecord; negativeRecord] 0 2)
    as [flat|] eqn:Hrun; [|by vm_compute in Hrun].
  exists flat. split; [reflexivity|].
  destruct (deserialize_stride [circleRecord; negativeRecord] 0 2 1 flat)
    as [_ Hcircles]; [simpl; lia|lia| |].
  - intros ->. by vm_compute in Hrun.
  - destruct (Hcircles Hrun) as (circle & [= <-] & _ & Hchunk). exact Hchunk.
Defined.

(** ** Feature collector: the dependency sets *)

Section PopulateDependencies.
Context `{TextCollaborators}.
Variable layer : StyleLayer.
Variable zoom : Q.

(** The icons after the loop: what was there, and the truthy icons of
    the features that pass the filter. *)
Lemma populate_loop_icons (name : jsstring) (features : list IndexedFeature) : ∀ acc,
  name ∈ col_icons (foldl (populateFeature layer zoom) acc features)
  ↔ name ∈ col_icons acc
    ∨ ∃ indexed,
        indexed ∈ features ∧ filter layer (if_feature indexed) = true
        ∧ featureIcon layer zoom (if_feature indexed) = Some name ∧ name ≠ [].
Proof.
  induction features as [|indexed features IH]; intros acc; simpl.
  - split; [tauto|]. intros [?|(? & Hin & _)]; [done|].
    by apply not_elem_of_nil in Hin.
  - rewrite IH.
    assert (name ∈ col_icons (populateFeature layer zoom acc indexed)
            ↔ name ∈ col_icons acc
              ∨ (filter layer (if_feature indexed) = true
                 ∧ featureIcon layer zoom (if_feature indexed) = Some name
                 ∧ name ≠ [])) as Hstep.
    { unfold populateFeature.
      destruct (filter layer (if_feature indexed)); simpl;
        [|split; [tauto|by intros [?|[[=] _]]]].
      destruct (featureIcon layer zoom (if_feature indexed)) as [[|c icon]|] eqn:Hicon.
      - destruct (truthy (featureText _ _ _)); simpl;
          (split; [tauto|]); by intros [?|(_ & [= <-] & ?)].
      - rewrite andb_false_r. simpl. rewrite elem_of_union, elem_of_singleton.
        split.
        + intros [->|?]; [right|tauto]. done.
        + intros [?|(_ & [= <-] & _)]; tauto.
      - destruct (truthy (featureText _ _ _)); simpl;
          (split; [tauto|]); by intros [?|(_ & [=] & _)]. }
    rewrite Hstep. split.
    + intros [[?|(Hfilter & Hicon & Hne)]|(indexed' & Hin & ? & ? & ?)].
      * tauto.
      * right. exists indexed. split; [apply list_elem_of_here|done].
      * right. exists indexed'. split; [by apply list_elem_of_further|done].
    + intros [?|(indexed' & Hin & Hfilter & Hicon & Hne)]; [tauto|].
      apply elem_of_cons in Hin as [->|Hin]; [tauto|].
      right. exists indexed'. done.
Qed.

(** Both sets of the loop are what was there joined with something that
    depends on the features only. *)
Lemma populate_loop_union (features : list IndexedFeature) (acc : Collected) :
  col_icons (foldl (populateFeature layer zoom) acc features)
  = col_icons acc
    ∪ col_icons (foldl (populateFeature layer zoom)
                       {| col_features := []; col_icons := ∅; col_stack := ∅ |}
                       features)
  ∧ col_stack (foldl (populateFeature layer zoom) acc features)
    = col_stack acc
      ∪ col_stack (foldl (populateFeature layer zoom)
                         {| col_features := []; col_icons := ∅; col_stack := ∅ |}
                         features).
Proof.
  split.
  - apply set_eq. intros name.
    rewrite elem_of_union, !populate_loop_icons. simpl.
    rewrite elem_of_empty. tauto.
  - apply set_eq. intros c.
    rewrite elem_of_union, !populate_loop_stack. simpl.
    rewrite elem_of_empty. tauto.
Qed.
End PopulateDependencies.

(** X14.  After [populate] the icon dependencies hold what they held
    before and the names of the icons of the features that pass the
    filter of the layer, an empty name apart; nothing else is added and
    nothing is removed. *)
Theorem populate_icon_dependencies `{TextCollaborators}
    (layers : list StyleLayer) (zoom : Q) (features : list IndexedFeature)
    (options : PopulateParameters) (layer : StyleLayer) :
  head layers = Some layer →
  ∃ features' options',
    populate layers zoom features options = Return (features', options')
    ∧ ∀ name,
        name ∈ iconDependencies options'
        ↔ name ∈ iconDependencies options
          ∨ ∃ indexed,
              indexed ∈ features ∧ filter layer (if_feature indexed) = true
              ∧ featureIcon layer zoom (if_feature indexed) = Some name
              ∧ name ≠ [].
Proof.
  intros Hlayer. rewrite (populate_eq _ _ _ _ layer Hlayer).
  destruct (negb (hasText layer) && negb (hasIcon layer)) eqn:Hneither.
  - eexists _, _. split; [reflexivity|]. intros name. split; [tauto|].
    intros [?|(indexed & _ & _ & Hicon & _)]; [done|].
    apply andb_true_iff in Hneither as [_ HnoIcon%negb_true_iff].
    unfold featureIcon in Hicon. by rewrite HnoIcon in Hicon.
  - eexists _, _. split; [reflexivity|]. intros name. simpl.
    by rewrite populate_loop_icons.
Qed.

(** Two features under the marker layer: the icon [m] is needed. *)
Lemma populate_icon_dependencies_witness :
  ∃ features' options',
    @populate plainCollaborators [markerLayer] 5
              [unnamedFeature 0; unnamedFeature 1] noDependencies
    = Return (features', options')
    ∧ [109%N] ∈ iconDependencies options'
    ∧ [110%N] ∉ iconDependencies options'.
Proof.
  destruct (@populate_icon_dependencies plainCollaborators [markerLayer] 5
              [unnamedFeature 0; unnamedFeature 1] noDependencies markerLayer eq_refl)
    as (features' & options' & Hrun & Hicons).
  exists features', options'. split; [exact Hrun|]. split.
  - apply Hicons. right. exists (unnamedFeature 0).
    split; [apply list_elem_of_here|]. by repeat split.
  - intros [Hin|(indexed & _ & _ & Hicon & _)]%Hicons.
    + by apply elem_of_empty in Hin.
    + discriminate Hicon.
Defined.

(** X15.  [populate] only adds to the dependency sets, and a second run
    on the same features adds nothing more: the icon dependencies and
    every glyph stack that was there are included in those after the
    call, and calling [populate] again with the resulting sets returns
    the same features and leaves the sets as they are. *)
Theorem populate_dependencies_saturate `{TextCollaborators}
    (layers : list StyleLayer) (zoom : Q) (features : list IndexedFeature)
    (options : PopulateParameters) (layer : StyleLayer) :
  head layers = Some layer →
  ∃ features' options',
    populate layers zoom features options = Return (features', options')
    ∧ iconDependencies options ⊆ iconDependencies options'
    ∧ (∀ key stack, glyphDependencies options !! key = Some stack →
         ∃ stack', glyphDependencies options' !! key = Some stack' ∧ stack ⊆ stack')
    ∧ populate layers zoom features options' = Return (features', options').
Proof.
  intros Hlayer. rewrite !(populate_eq _ _ _ _ layer Hlayer).
  destruct (negb (hasText layer) && negb (hasIcon layer)) eqn:Hneither.
  - exists [], options. split; [done|]. split; [done|]. split; [eauto|].
    by rewrite (populate_eq _ _ _ _ layer Hlayer), Hneither.
  - eexists _, _. split; [reflexivity|]. cbn zeta.
    set (key := fontStackKey (layout_text_font layer)).
    set (start := {| col_features := [];
                     col_icons := iconDependencies options;
                     col_stack := default ∅ (glyphDependencies options !! key) |}).
    destruct (populate_loop_union layer zoom features start) as [Hicons Hstack].
    split; [|split].
    + cbn [iconDependencies]. rewrite Hicons. apply union_subseteq_l.
    + intros key' stack Hlookup. cbn [glyphDependencies].
      destruct (decide (key' = key)) as [->|Hne].
      * rewrite lookup_insert_eq. eexists. split; [done|].
        rewrite Hstack. subst start. cbn [col_stack]. rewrite Hlookup.
        apply union_subseteq_l.
      * rewrite lookup_insert_ne by done. eauto.
    + rewrite (populate_eq _ _ _ _ layer Hlayer), Hneither. cbn zeta.
      fold key. cbn [iconDependencies glyphDependencies].
      rewrite lookup_insert_eq, insert_insert_eq. cbn [default]. unfold id.
      set (again := {| col_features := [];
                       col_icons := col_icons (foldl (populateFeature layer zoom) start
                                                     features);
                       col_stack := col_stack (foldl (populateFeature layer zoom) start
                                                     features) |}).
      destruct (populate_loop_union layer zoom features again) as [Hicons' Hstack'].
      assert (col_features (foldl (populateFeature layer zoom) again features)
              = col_features (foldl (populateFeature layer zoom) start features))
        as Hfeatures by (by rewrite !populate_loop_features).
      assert (col_icons (foldl (populateFeature layer zoom) again features)
              = col_icons (foldl (populateFeature layer zoom) start features))
        as Hsame_icons.
      { rewrite Hicons'. subst again. cbn [col_icons]. rewrite Hicons.
        apply set_eq. intros name. rewrite !elem_of_union. tauto. }
      assert (col_stack (foldl (populateFeature layer zoom) again features)
              = col_stack (foldl (populateFeature layer zoom) start features))
        as Hsame_stack.
      { rewrite Hstack'. subst again. cbn [col_stack]. rewrite Hstack.
        apply set_eq. intros c. rewrite !elem_of_union. tauto. }
      by rewrite Hfeatures, Hsame_icons, Hsame_stack.
Qed.

(** The named feature, collected twice. *)
Lemma populate_dependencies_saturate_witness :
  ∃ features' options',
    @populate plainCollaborators [nameLayer] 5
              [namedFeature [65; 8230]%N 0; unnamedFeature 1] noDependencies
    = Return (features', options')
    ∧ @populate plainCollaborators [nameLayer] 5
                [namedFeature [65; 8230]%N 0; unnamedFeature 1] options'
      = Return (features', options').
Proof.
  destruct (@populate_dependencies_saturate plainCollaborators [nameLayer] 5
              [namedFeature [65; 8230]%N 0; unnamedFeature 1] noDependencies
              nameLayer eq_refl)
    as (features' & options' & Hrun & _ & _ & Hagain).
  exists features', options'. split; [exact Hrun|exact Hagain].
Defined.

(** ** The arrays of a bucket along its packing *)

Section PackingCounts.
Context `{PointGeometry} `{AttributeEncoding}.

(** What a call of [addSymbols] on the bucket adds to the counts. *)
Lemma SymbolBucket_addSymbols_counts (b b' : SymbolBucket) (target : SymbolTarget)
    (quads : list SymbolQuad) (sizeVertex : option (Q * Q)) (lineOffset : Q * Q)
    (alongLine : bool) (feature : VectorTileFeature) (writingMode : nat)
    (labelAnchor : Anchor) (lineStart lineLen : nat) :
  dynamicLayoutVertexArray
    (match target with TextTarget => text b | IconTarget => icon b end) ≠ None →
  opacityVertexArray
    (match target with TextTarget => text b | IconTarget => icon b end) ≠ None →
  SymbolBucket_addSymbols b target quads sizeVertex lineOffset alongLine feature
                          writingMode labelAnchor lineStart lineLen
  = Return b' →
  let arrays := match target with TextTarget => text b | IconTarget => icon b end in
  let arrays' := match target with TextTarget => text b' | IconTarget => icon b' end in
  let placed :=
    match target with
    | TextTarget => placedGlyphArray b
    | IconTarget => placedIconArray b
    end in
  let placed' :=
    match target with
    | TextTarget => placedGlyphArray b'
    | IconTarget => placedIconArray b'
    end in
  length (glyphOffsetArray b') = (length (glyphOffsetArray b) + length quads)%nat
  ∧ ps_numGlyphs <$> placed' = (ps_numGlyphs <$> placed) ++ [uint16 (length quads)]
  ∧ length (layoutVertexArray arrays')
    = (length (layoutVertexArray arrays) + 4 * length quads)%nat
  ∧ length (indexArray arrays')
    = (length (indexArray arrays) + 2 * length quads)%nat
  ∧ match target with
    | TextTarget => icon b' = icon b ∧ placedIconArray b' = placedIconArray b
    | IconTarget => text b' = text b ∧ placedGlyphArray b' = placedGlyphArray b
    end
  ∧ lineVertexArray b' = lineVertexArray b
  ∧ collisionBox b' = collisionBox b
  ∧ collisionCircle b' = collisionCircle b
  ∧ (setWellFormed arrays →
     indexArrayType (programInterface arrays) = TriangleIndexArray →
     hasCollisionAttributes (programInterface arrays) = false →
     setWellFormed arrays' ∧ programInterface arrays' = programInterface arrays).
Proof.
  intros Hdyn Hop Hrun. unfold SymbolBucket_addSymbols in Hrun.
  set (arrays := match target with TextTarget => text b | IconTarget => icon b end)
    in *.
  set (placed := match target with
                 | TextTarget => placedGlyphArray b
                 | IconTarget => placedIconArray b
                 end) in *.
  destruct (dynamicLayoutVertexArray arrays) as [dynamic|] eqn:Hd; [|done].
  destruct (opacityVertexArray arrays) as [opacity|] eqn:Ho; [|done].
  destruct (addSymbols_shape (bucket_zoom b) (glyphOffsetArray b) arrays quads
              sizeVertex lineOffset alongLine feature writingMode labelAnchor
              lineStart lineLen placed dynamic opacity Hd Ho)
    as (arrays1 & bases & entry & Hadd & Hstart & Hnum & Hlen & Hlay & Hidx & Hd1
        & Ho1 & Hc1 & Hi1 & _ & _ & _ & _ & _ & Htile).
  rewrite Hadd in Hrun. cbn [mbind outcome_bind mret outcome_ret] in Hrun.
  injection Hrun as <-. cbn zeta.
  assert (length (glyphOffsetArray b
                  ++ map (λ symbol, (quad_glyphOffset symbol).1) quads)
          = (length (glyphOffsetArray b) + length quads)%nat) as Hglyphs
    by (by rewrite length_app, length_map).
  assert (ps_numGlyphs <$> placed ++ [entry]
          = (ps_numGlyphs <$> placed) ++ [uint16 (length quads)]) as Hplaced.
  { rewrite fmap_app. simpl. by rewrite Hnum. }
  assert (length (layoutVertexArray arrays1)
          = (length (layoutVertexArray arrays) + 4 * length quads)%nat) as Hlay'
    by (by rewrite Hlay, length_app, length_quadVertices_concat).
  assert (length (indexArray arrays1)
          = (length (indexArray arrays) + 2 * length quads)%nat) as Hidx'.
  { rewrite Hidx, length_app. f_equal. rewrite <- Hlen. clear.
    induction bases as [|index bases IH]; [done|].
    cbn [fmap list_fmap concat length]. rewrite length_app, IH. simpl. lia. }
  assert (setWellFormed arrays →
          indexArrayType (programInterface arrays) = TriangleIndexArray →
          hasCollisionAttributes (programInterface arrays) = false →
          setWellFormed arrays1 ∧ programInterface arrays1 = programInterface arrays)
    as Hwell.
  { intros ((Hmd & Hmo & Hmc) & (Had & Hao & Hac) & Htiles & Htyped) Htriangle Hnone.
    split; [|done].
    assert (collisionVertexArray arrays = None) as Hcnone.
    { destruct (collisionVertexArray arrays); [|done].
      rewrite Hnone in Hmc.
      by destruct Hmc as [Hmc _]; specialize (Hmc ltac:(eauto)). }
    split; [|split; [|split]].
    - unfold matchesInterface. rewrite Hi1, Hd1, Ho1, Hc1.
      rewrite Hd in Hmd. rewrite Ho in Hmo.
      split; [|split; [|done]].
      + split; [intros _; by apply Hmd|by eauto].
      + split; [intros _; by apply Hmo|by eauto].
    - unfold vertexArraysAligned. rewrite Hlay', Hd1, Ho1, Hc1, Hcnone.
      split; [|split; [|done]].
      + intros ? [= <-]. rewrite length_app, length_replicate, (Had _ Hd). done.
      + intros ? [= <-]. rewrite length_app, length_replicate, (Hao _ Ho). done.
    - by apply Htile.
    - unfold indexArrayTyped. rewrite Hi1, Hidx, Htriangle. apply Forall_app.
      split; [by rewrite <- Htriangle|apply Forall_quadTriangles]. }
  destruct target; cbn [glyphOffsetArray placedGlyphArray placedIconArray text icon
                        lineVertexArray collisionBox collisionCircle];
    by repeat (split; [done|]).
Qed.

(** The glyphs the entries stand for, against the numbers of quads
    their labels had. *)
Lemma glyphTotal_counts (placed : list PlacedSymbol) : ∀ counts : list nat,
  ps_numGlyphs <$> placed = uint16 <$> counts →
  (glyphTotal placed ≤ sum_list counts)%nat
  ∧ (Forall (λ count, count < Z.to_nat 65536)%nat counts →
     glyphTotal placed = sum_list counts).
Proof.
  unfold glyphTotal.
  induction placed as [|entry placed IH]; intros [|count counts] Heq; try done.
  injection Heq as Hentry Hrest. destruct (IH counts Hrest) as [Hle Hsmall].
  cbn [sum_list_with]. unfold id at 1 3. rewrite Hentry.
  pose proof (uint16_le count). split; [lia|].
  intros [Hcount Hcounts]%Forall_cons. rewrite (Hsmall Hcounts).
  by rewrite uint16_small.
Qed.

(** The invariant of the counts: [textCounts] and [iconCounts] are the
    numbers of quads of the labels packed so far, in order. *)
Lemma packing_counts_invariant (b : SymbolBucket) (ranges : list LineRange) :
  packing b ranges →
  (∃ textCounts iconCounts : list nat,
     ps_numGlyphs <$> placedGlyphArray b = uint16 <$> textCounts
     ∧ ps_numGlyphs <$> placedIconArray b = uint16 <$> iconCounts
     ∧ length (glyphOffsetArray b)
       = (sum_list textCounts + sum_list iconCounts)%nat
     ∧ length (layoutVertexArray (text b)) = (4 * sum_list textCounts)%nat
     ∧ length (indexArray (text b)) = (2 * sum_list textCounts)%nat
     ∧ length (layoutVertexArray (icon b)) = (4 * sum_list iconCounts)%nat
     ∧ length (indexArray (icon b)) = (2 * sum_list iconCounts)%nat)
  ∧ length (lineVertexArray b) = lineTotal ranges
  ∧ (setWellFormed (text b) ∧ programInterface (text b) = textInterface)
  ∧ (setWellFormed (icon b) ∧ programInterface (icon b) = iconInterface)
  ∧ collisionBox b = newSymbolBuffers collisionBoxInterface
  ∧ collisionCircle b = newSymbolBuffers collisionCircleInterface.
Proof.
  induction 1 as [b|b b' ranges anchor line range _ IH Hrun
                  |b b' ranges target quads sizeVertex lineOffset alongLine feature
                     writingMode labelAnchor range _ IH _ Hrun].
  - split; [by exists [], []|]. split; [done|].
    split; [split; [apply newSymbolBuffers_well_formed|done]|].
    split; [split; [apply newSymbolBuffers_well_formed|done]|]. done.
  - destruct IH as (Hcounts & Hline & Htext & Hicon & Hbox & Hcircle).
    unfold SymbolBucket_addToLineVertexArray in Hrun.
    destruct (addToLineVertexArray _ _ _) as [[arr' range']|] eqn:Hadd;
      simpl in Hrun; [|done].
    injection Hrun as <- <-.
    apply addToLineVertexArray_window in Hadd as [Hstart Hend]. cbn.
    split; [done|]. split; [|done].
    unfold lineTotal in *. rewrite sum_list_with_app. simpl. lia.
  - destruct IH as ((textCounts & iconCounts & Htc & Hic & Hg & Htl & Hti & Hil & Hii)
                    & Hline & [Htext Htexti] & [Hicon Hiconi] & Hbox & Hcircle).
    assert (hasSymbolArrays (text b) ∧ hasSymbolArrays (icon b)) as [Hts His].
    { destruct Htext as ((Hmd & Hmo & _) & _). destruct Hicon as ((Hmd' & Hmo' & _) & _).
      rewrite Htexti in Hmd, Hmo. rewrite Hiconi in Hmd', Hmo'.
      repeat split; by (apply Hmd || apply Hmo || apply Hmd' || apply Hmo'). }
    destruct (SymbolBucket_addSymbols_counts b b' target quads sizeVertex lineOffset
                alongLine feature writingMode labelAnchor (lineStartIndex range)
                (lineLength range))
      as (Hg' & Hp' & Hl' & Hi' & Hother & Hline' & Hbox' & Hcircle' & Hwell);
      [destruct target; [destruct Hts as [[? ->] _]|destruct His as [[? ->] _]]; done
      |destruct target; [destruct Hts as [_ [? ->]]|destruct His as [_ [? ->]]]; done
      |done|].
    rewrite Hline', Hbox', Hcircle'.
    destruct target.
    + destruct Hother as [-> ->].
      destruct Hwell as [Hw Hwi]; [done|by rewrite Htexti|by rewrite Htexti|].
      split.
      { exists (textCounts ++ [length quads]), iconCounts.
        rewrite Hp', Htc, fmap_app, sum_list_with_app. simpl.
        split; [done|]. split; [done|]. repeat split; lia. }
      split; [done|]. split; [split; [done|congruence]|]. done.
    + destruct Hother as [-> ->].
      destruct Hwell as [Hw Hwi]; [done|by rewrite Hiconi|by rewrite Hiconi|].
      split.
      { exists textCounts, (iconCounts ++ [length quads]).
        rewrite Hp', Hic, fmap_app, sum_list_with_app. simpl.
        split; [done|]. split; [done|]. repeat split; lia. }
      split; [done|]. split; [done|]. split; [split; [done|congruence]|]. done.
Qed.

End PackingCounts.

(** The labelled bucket is reached by packing. *)
Lemma labelledBucket_packing :
  @packing manhattan plainEncoding labelledBucket
           [ {| lineStartIndex := 0; lineLength := 3 |} ].
Proof.
  set (range := {| lineStartIndex := 0; lineLength := 3 |}).
  destruct (@SymbolBucket_addToLineVertexArray manhattan blankBucket lineAnchor
              threePointLine) as [[b1 range1]|] eqn:Hline; [|by vm_compute in Hline].
  assert (range1 = range) as ->
    by (vm_compute in Hline; by injection Hline as _ <-).
  destruct (@SymbolBucket_addSymbols plainEncoding b1 TextTarget [unitQuad]
              (Some (12, 12)) (0, 0) true noFeature 1%nat lineAnchor 0%nat 3%nat)
    as [b2|] eqn:Htext.
  2: { injection Hline as <-. by vm_compute in Htext. }
  destruct (@SymbolBucket_addSymbols plainEncoding b2 IconTarget [unitQuad; unitQuad]
              None (0, 0) true noFeature 1%nat lineAnchor 0%nat 3%nat)
    as [b3|] eqn:Hicon.
  2: { injection Hline as <-. vm_compute in Htext. injection Htext as <-.
       by vm_compute in Hicon. }
  assert (b3 = labelledBucket) as <-.
  { unfold labelledBucket. rewrite Hline. simpl. rewrite Htext. simpl.
    by rewrite Hicon. }
  eapply packing_symbols; [|by apply list_elem_of_singleton|exact Hicon].
  eapply packing_symbols; [|by apply list_elem_of_singleton|exact Htext].
  eapply (packing_line _ _ []); [apply packing_created|exact Hline].
Qed.

(** X16.  All along the packing of a bucket the arrays count the quads
    of the labels packed so far: with [textCounts] and [iconCounts] the
    numbers of quads of the text and of the icon labels, in order, the
    glyph offsets are as many as all these quads together, the text set
    has four layout vertices and two triangles per quad of the text
    labels, the icon set four and two per quad of the icon labels, and
    the line vertices are as many as the lengths of the line ranges
    returned so far.  Each placed-symbol entry holds the number of quads
    of its label in a [Uint16] member, that is modulo 65536; so the
    entries count the same things as the arrays as long as no label has
    65536 quads or more, which is the case whenever the glyph-offset
    array has fewer than 65536 entries, and never count more. *)
Theorem packing_counts `{PointGeometry} `{AttributeEncoding}
    (b : SymbolBucket) (ranges : list LineRange) :
  packing b ranges →
  ∃ textCounts iconCounts : list nat,
    ps_numGlyphs <$> placedGlyphArray b = uint16 <$> textCounts
    ∧ ps_numGlyphs <$> placedIconArray b = uint16 <$> iconCounts
    ∧ length (glyphOffsetArray b) = (sum_list textCounts + sum_list iconCounts)%nat
    ∧ length (layoutVertexArray (text b)) = (4 * sum_list textCounts)%nat
    ∧ length (indexArray (text b)) = (2 * sum_list textCounts)%nat
    ∧ length (layoutVertexArray (icon b)) = (4 * sum_list iconCounts)%nat
    ∧ length (indexArray (icon b)) = (2 * sum_list iconCounts)%nat
    ∧ length (lineVertexArray b) = lineTotal ranges
    ∧ (glyphTotal (placedGlyphArray b) ≤ sum_list textCounts)%nat
    ∧ (glyphTotal (placedIconArray b) ≤ sum_list iconCounts)%nat
    ∧ (Forall (λ count, count < Z.to_nat 65536)%nat (textCounts ++ iconCounts) →
       length (glyphOffsetArray b)
       = (glyphTotal (placedGlyphArray b) + glyphTotal (placedIconArray b))%nat
       ∧ length (layoutVertexArray (text b))
         = (4 * glyphTotal (placedGlyphArray b))%nat
       ∧ length (indexArray (text b)) = (2 * glyphTotal (placedGlyphArray b))%nat
       ∧ length (layoutVertexArray (icon b))
         = (4 * glyphTotal (placedIconArray b))%nat
       ∧ length (indexArray (icon b)) = (2 * glyphTotal (placedIconArray b))%nat)
    ∧ ((length (glyphOffsetArray b) < Z.to_nat 65536)%nat →
       Forall (λ count, count < Z.to_nat 65536)%nat (textCounts ++ iconCounts)).
Proof.
  intros Hpacking.
  destruct (packing_counts_invariant b ranges Hpacking)
    as ((textCounts & iconCounts & Htc & Hic & Hg & Htl & Hti & Hil & Hii)
        & Hline & _).
  destruct (glyphTotal_counts _ _ Htc) as [Htle Htsmall].
  destruct (glyphTotal_counts _ _ Hic) as [Hile Hismall].
  exists textCounts, iconCounts. do 10 (split; [done|]). split.
  - intros [Ht Hi]%Forall_app. rewrite (Htsmall Ht), (Hismall Hi). done.
  - intros Hfit. apply Forall_forall. intros count Hin.
    assert (count ≤ sum_list textCounts + sum_list iconCounts)%nat; [|lia].
    apply elem_of_app in Hin as [Hin|Hin];
      apply (sum_list_with_in _ id) in Hin; unfold id in Hin at 1; lia.
Qed.

(** The labelled bucket: three glyph offsets, one text glyph, two icon
    glyphs, three line vertices. *)
Lemma packing_counts_witness :
  length (glyphOffsetArray labelledBucket) = 3%nat
  ∧ length (layoutVertexArray (text labelledBucket)) = 4%nat
  ∧ length (layoutVertexArray (icon labelledBucket)) = 8%nat
  ∧ length (lineVertexArray labelledBucket) = 3%nat
  ∧ glyphTotal (placedGlyphArray labelledBucket) = 1%nat
  ∧ glyphTotal (placedIconArray labelledBucket) = 2%nat.
Proof.
  destruct (@packing_counts manhattan plainEncoding labelledBucket _
              labelledBucket_packing)
    as (textCounts & iconCounts & _ & _ & _ & _ & _ & _ & _ & Hline & _ & _
        & Hsame & Hsmall).
  destruct Hsame as (Hg & Htl & _ & Hil & _).
  { apply Hsmall. change (length (glyphOffsetArray labelledBucket)) with 3%nat. lia. }
  split; [exact Hg|]. split; [exact Htl|]. split; [exact Hil|].
  split; [exact Hline|]. split; reflexivity.
Defined.

(** The bound is needed: the entry of a label of 65536 quads counts no
    glyph, and the glyph-offset array has received 65536 offsets. *)
Example addSymbols_wide_label_count :
  ∃ glyphs' arrays' entry,
    @addSymbols plainEncoding 5 [] (newSymbolBuffers textInterface)
      (replicate (Z.to_nat 65536) unitQuad) None (0, 0) false noFeature 1
      pointAnchor 0 0 []
    = Return (glyphs', arrays', [entry])
    ∧ length glyphs' = Z.to_nat 65536
    ∧ ps_numGlyphs entry = 0%nat.
Proof.
  destruct (@addSymbols_shape plainEncoding 5 [] (newSymbolBuffers textInterface)
              (replicate (Z.to_nat 65536) unitQuad) None (0, 0) false noFeature 1
              pointAnchor 0 0 [] [] [] eq_refl eq_refl)
    as (arrays' & bases & entry & Hrun & _ & Hnum & _).
  eexists _, arrays', entry. split; [exact Hrun|].
  rewrite length_replicate in Hnum.
  split; [by rewrite length_app, length_map, length_replicate|].
  rewrite Hnum. unfold uint16. rewrite Z2Nat.id by lia. reflexivity.
Qed.

(** X17.  All along the packing of a bucket the text set and the icon
    set keep their interface and stay well formed: each has a dynamic and
    an opacity array as long as its layout vertex array and no collision
    array, segments that tile its layout and index arrays with at most
    65535 vertices each (the segments as the spec describes
    [prepareSegment]), and triangles only in its index array; and the
    two collision sets are still as [createArrays] made them. *)
Theorem packing_sets_well_formed `{PointGeometry} `{AttributeEncoding}
    (b : SymbolBucket) (ranges : list LineRange) :
  packing b ranges →
  programInterface (text b) = textInterface
  ∧ programInterface (icon b) = iconInterface
  ∧ setWellFormed (text b)
  ∧ setWellFormed (icon b)
  ∧ collisionBox b = newSymbolBuffers collisionBoxInterface
  ∧ collisionCircle b = newSymbolBuffers collisionCircleInterface.
Proof.
  intros Hpacking.
  destruct (packing_counts_invariant b ranges Hpacking)
    as (_ & _ & [Htext Htexti] & [Hicon Hiconi] & Hbox & Hcircle).
  done.
Qed.

(** The labelled bucket: the segments of its icon set tile eight
    vertices and four triangles. *)
Lemma packing_sets_well_formed_witness :
  segmentsTile (icon labelledBucket)
  ∧ length (layoutVertexArray (icon labelledBucket)) = 8%nat
  ∧ vertexArraysAligned (text labelledBucket).
Proof.
  destruct (@packing_sets_well_formed manhattan plainEncoding labelledBucket _
              labelledBucket_packing)
    as (_ & _ & (_ & Haligned & _) & (_ & _ & Htile & _) & _).
  split; [exact Htile|]. split; [reflexivity|exact Haligned].
Defined.

(** ** Fixed-point offsets of the layout vertices *)

Lemma Math_round_near (x : Q) :
  x - (1 # 2) < inject_Z (Math_round x) ∧ inject_Z (Math_round x) <= x + (1 # 2).
Proof.
  unfold Math_round. split.
  - pose proof (Qlt_floor (x + (1 # 2))) as Hlt.
    rewrite inject_Z_plus in Hlt. change (inject_Z 1) with 1 in Hlt. lra.
  - apply Qfloor_le.
Qed.

Lemma Math_round_integer (x : Q) (n : Z) : x == inject_Z n → Math_round x = n.
Proof.
  intros Heq. unfold Math_round.
  assert (n ≤ Qfloor (x + (1 # 2)))%Z as Hge.
  { rewrite <- (Qfloor_Z n). apply Qfloor_resp_le. lra. }
  assert (Qfloor (x + (1 # 2)) < n + 1)%Z as Hlt.
  { rewrite Zlt_Qlt, inject_Z_plus. change (inject_Z 1) with 1.
    pose proof (Qfloor_le (x + (1 # 2))). lra. }
  lia.
Qed.

(** X18.  [addVertex] appends one vertex and changes nothing before it.
    The vertex stores the anchor and the offset in [Int16] members and
    the texture coordinates and the size pair in [Uint16] members: each
    is the number handed to the array, taken to its integer part and
    wrapped into the range of the member.  The offset is handed in 1/64
    units: each offset handed to the array, taken back to tile units, is
    within 1/128 of the offset given, and an offset that is a whole
    number of 1/64 units is handed over exactly.  A vertex whose anchor,
    handed offsets and texture coordinates are integers in the ranges of
    their members is stored with exactly these numbers. *)
Theorem addVertex_offset_precision (array : list LayoutVertex)
    (anchorX anchorY ox oy tx ty : Q) (sizeVertex : option (Q * Q)) :
  ∃ ox' oy' : Z,
    addVertex array anchorX anchorY ox oy tx ty sizeVertex
    = array ++ [ SymbolVertex (toInt16 anchorX) (toInt16 anchorY)
                              (wrapInt16 ox') (wrapInt16 oy')
                              (toUint16 tx) (toUint16 ty)
                              (toUint16 (default 0 (fst <$> sizeVertex)))
                              (toUint16 (default 0 (snd <$> sizeVertex))) ]
    ∧ Qabs (inject_Z ox' * (1 # 64) - ox) <= 1 # 128
    ∧ Qabs (inject_Z oy' * (1 # 64) - oy) <= 1 # 128
    ∧ (∀ n : Z, ox * 64 == inject_Z n → ox' = n)
    ∧ (∀ n : Z, oy * 64 == inject_Z n → oy' = n)
    ∧ (∀ ax ay u v : Z,
         anchorX == inject_Z ax → anchorY == inject_Z ay →
         tx == inject_Z u → ty == inject_Z v →
         (-32768 ≤ ax ≤ 32767)%Z → (-32768 ≤ ay ≤ 32767)%Z →
         (-32768 ≤ ox' ≤ 32767)%Z → (-32768 ≤ oy' ≤ 32767)%Z →
         (0 ≤ u ≤ 65535)%Z → (0 ≤ v ≤ 65535)%Z →
         addVertex array anchorX anchorY ox oy tx ty sizeVertex
         = array ++ [ SymbolVertex ax ay ox' oy' u v
                                   (toUint16 (default 0 (fst <$> sizeVertex)))
                                   (toUint16 (default 0 (snd <$> sizeVertex))) ]).
Proof.
  exists (Math_round (ox * 64)), (Math_round (oy * 64)).
  split; [done|].
  destruct (Math_round_near (ox * 64)) as [Hxl Hxu].
  destruct (Math_round_near (oy * 64)) as [Hyl Hyu].
  split; [apply Qabs_Qle_condition; split; lra|].
  split; [apply Qabs_Qle_condition; split; lra|].
  split; [intros n Heq; by apply Math_round_integer|].
  split; [intros n Heq; by apply Math_round_integer|].
  intros ax ay u v Hax Hay Hu Hv Haxr Hayr Hoxr Hoyr Hur Hvr.
  unfold addVertex, toInt16, toUint16.
  rewrite (Math_trunc_proper _ _ Hax), (Math_trunc_proper _ _ Hay),
    (Math_trunc_proper _ _ Hu), (Math_trunc_proper _ _ Hv), !Math_trunc_inject_Z.
  rewrite !wrapInt16_in_range by done. rewrite !Z.mod_small by lia. done.
Qed.

(** The offset (1/2, 1/3): the first is stored as 32, the second as 21,
    which stands for 21/64. *)
Lemma addVertex_offset_precision_witness :
  ∃ oy' : Z,
    addVertex [] 10 20 (1 # 2) (1 # 3) 0 0 None
    = [ SymbolVertex 10 20 32 oy' 0 0 0 0 ]
    ∧ Qabs (inject_Z oy' * (1 # 64) - (1 # 3)) <= 1 # 128.
Proof.
  destruct (addVertex_offset_precision [] 10 20 (1 # 2) (1 # 3) 0 0 None)
    as (ox' & oy' & _ & _ & Hy & Hexact & _ & Hstored).
  exists oy'. specialize (Hexact 32%Z eq_refl). subst ox'.
  split; [|exact Hy].
  apply Qabs_Qle_condition in Hy as [Hl Hu].
  assert (-32768 ≤ oy' ≤ 32767)%Z as Hrange.
  { split; rewrite Zle_Qle;
      [change (inject_Z (-32768)) with (-32768 # 1)
      |change (inject_Z 32767) with (32767 # 1)]; lra. }
  apply (Hstored 10 20 0 0)%Z; try reflexivity; lia.
Defined.

(** ** Lifecycle of a buffer set: [upload], then [destroy] *)

Lemma concat_vaos_nil (segs : list Segment) :
  Forall (λ segment, vaos segment = []) segs → concat (vaos <$> segs) = [].
Proof.
  induction 1 as [|segment segs Hnil _ IH]; [done|].
  cbn [fmap list_fmap concat]. by rewrite Hnil, IH.
Qed.

(** [upload] releases nothing. *)
Lemma SymbolBuffers_upload_released (arrays : SymbolBuffers) (gl : GL) :
  gl_released (SymbolBuffers_upload arrays gl).2 = gl_released gl.
Proof.
  unfold SymbolBuffers_upload, uploadOptional, ProgramConfigurationSet_upload.
  by destruct (hasDynamicLayoutAttributes (programInterface arrays)),
    (hasOpacityAttributes (programInterface arrays)),
    (hasCollisionAttributes (programInterface arrays)).
Qed.

(** X19.  [upload] leaves the CPU side of a set as it is and makes its
    GPU buffers: a layout vertex buffer and an index buffer always, and a
    dynamic, an opacity and a collision vertex buffer exactly when the
    interface declares the attribute family.  It releases nothing: the
    objects alive before are alive after, and on a well-formed render
    context the buffers it makes are new objects, not alive before and
    alive after. *)
Theorem SymbolBuffers_upload_buffers (arrays : SymbolBuffers) (gl : GL) :
  let uploaded := (SymbolBuffers_upload arrays gl).1 in
  let gl' := (SymbolBuffers_upload arrays gl).2 in
  programInterface uploaded = programInterface arrays
  ∧ layoutVertexArray uploaded = layoutVertexArray arrays
  ∧ indexArray uploaded = indexArray arrays
  ∧ segments uploaded = segments arrays
  ∧ dynamicLayoutVertexArray uploaded = dynamicLayoutVertexArray arrays
  ∧ opacityVertexArray uploaded = opacityVertexArray arrays
  ∧ collisionVertexArray uploaded = collisionVertexArray arrays
  ∧ paintVertexArray (programConfigurations uploaded)
    = paintVertexArray (programConfigurations arrays)
  ∧ is_Some (layoutVertexBuffer uploaded)
  ∧ is_Some (indexBuffer uploaded)
  ∧ (is_Some (dynamicLayoutVertexBuffer uploaded)
     ↔ hasDynamicLayoutAttributes (programInterface arrays) = true)
  ∧ (is_Some (opacityVertexBuffer uploaded)
     ↔ hasOpacityAttributes (programInterface arrays) = true)
  ∧ (is_Some (collisionVertexBuffer uploaded)
     ↔ hasCollisionAttributes (programInterface arrays) = true)
  ∧ gl_live gl ⊆ gl_live gl'
  ∧ gl_released gl' = gl_released gl
  ∧ gl_next gl' = (gl_next gl + 3 + declaredFamilies (programInterface arrays))%nat
  ∧ (glWellFormed gl →
     glWellFormed gl'
     ∧ ∀ h, h ∈ (option_list (layoutVertexBuffer uploaded)
                 ++ option_list (indexBuffer uploaded)
                 ++ option_list (dynamicLayoutVertexBuffer uploaded)
                 ++ option_list (opacityVertexBuffer uploaded)
                 ++ option_list (collisionVertexBuffer uploaded)) →
            (h ∉ gl_live gl) ∧ (h ∈ gl_live gl')).
Proof.
  unfold SymbolBuffers_upload, uploadOptional, ProgramConfigurationSet_upload,
    declaredFamilies, glWellFormed.
  destruct (hasDynamicLayoutAttributes (programInterface arrays)),
    (hasOpacityAttributes (programInterface arrays)),
    (hasCollisionAttributes (programInterface arrays)); cbn;
    (do 8 (split; [done|]));
    (split; [by eexists|]); (split; [by eexists|]);
    (split; [split; first [done|by eexists|by intros [? [=]]]|]);
    (split; [split; first [done|by eexists|by intros [? [=]]]|]);
    (split; [split; first [done|by eexists|by intros [? [=]]]|]);
    (split; [set_solver|]); (split; [done|]); (split; [lia|]);
    intros Hwf;
    (split;
     [intros h; rewrite ?elem_of_union, ?elem_of_singleton;
      intros Hin; repeat destruct Hin as [Hin|Hin];
      try (apply Hwf in Hin); lia
     |intros h Hin;
      repeat (apply elem_of_cons in Hin as [->|Hin]);
      try (by apply not_elem_of_nil in Hin);
      (split; [intros Hlive%Hwf; lia|set_solver])]).
Qed.

(** A fresh text set uploaded to an empty context: five buffers. *)
Lemma SymbolBuffers_upload_buffers_witness :
  let uploaded := (SymbolBuffers_upload (newSymbolBuffers textInterface) emptyGL).1 in
  let gl' := (SymbolBuffers_upload (newSymbolBuffers textInterface) emptyGL).2 in
  is_Some (dynamicLayoutVertexBuffer uploaded)
  ∧ ¬ is_Some (collisionVertexBuffer uploaded)
  ∧ gl_next gl' = 5%nat
  ∧ glWellFormed gl'.
Proof.
  intros uploaded gl'.
  destruct (SymbolBuffers_upload_buffers (newSymbolBuffers textInterface) emptyGL)
    as (_ & _ & _ & _ & _ & _ & _ & _ & _ & _ & Hd & _ & Hc & _ & _ & Hnext & Hwf).
  split; [by apply Hd|]. split; [by intros ?%Hc|]. split; [exact Hnext|].
  apply Hwf. intros h Hin. by apply elem_of_empty in Hin.
Defined.

Lemma gl_next_release (hs : list handle) : ∀ gl,
  gl_next (foldl destroyObject gl hs) = gl_next gl.
Proof.
  induction hs as [|h hs IH]; intros gl; simpl; [done|].
  rewrite IH. unfold destroyObject. by destruct (decide (h ∈ gl_live gl)).
Qed.

(** The render context after [upload]: the objects made are the next
    free handles, and they are alive with the ones alive before. *)
Lemma SymbolBuffers_upload_context (arrays : SymbolBuffers) (gl : GL) :
  let created h :=
    (gl_next gl ≤ h < gl_next gl + 3 + declaredFamilies (programInterface arrays))%nat in
  gl_next (SymbolBuffers_upload arrays gl).2
  = (gl_next gl + 3 + declaredFamilies (programInterface arrays))%nat
  ∧ (∀ h, h ∈ gl_live (SymbolBuffers_upload arrays gl).2 ↔ created h ∨ h ∈ gl_live gl)
  ∧ (∀ h, h ∈ ownedObjects (SymbolBuffers_upload arrays gl).1
          ↔ created h ∨ h ∈ carriedObjects arrays)
  ∧ optionalBuffersDeclared (SymbolBuffers_upload arrays gl).1.
Proof.
  unfold SymbolBuffers_upload, uploadOptional, ProgramConfigurationSet_upload,
    ownedObjects, carriedObjects, declaredFamilies, optionalBuffersDeclared.
  destruct (hasDynamicLayoutAttributes (programInterface arrays)) eqn:Hdynamic,
    (hasOpacityAttributes (programInterface arrays)) eqn:Hopacity,
    (hasCollisionAttributes (programInterface arrays)) eqn:Hcollision; cbn;
    (split; [lia|]);
    (split; [intros h; rewrite ?elem_of_union, ?elem_of_singleton; naive_solver lia|]);
    (split;
     [intros h; rewrite ?elem_of_cons, ?elem_of_app, ?elem_of_cons, ?elem_of_nil;
      naive_solver lia
     |repeat split; first [done|by intros [? [=]]]]).
Qed.

Lemma SymbolBuffers_upload_well_formed (arrays : SymbolBuffers) (gl : GL) :
  glWellFormed gl → glWellFormed (SymbolBuffers_upload arrays gl).2.
Proof.
  intros Hwf h Hin.
  destruct (SymbolBuffers_upload_context arrays gl) as (Hnext & Hlive & _).
  rewrite Hnext. apply Hlive in Hin as [Hin|Hin%Hwf]; lia.
Qed.

(** X20.  [upload] followed by [destroy] leaks nothing and releases
    nothing it should not.  Take any set that holds optional buffers of
    declared attribute families only, as every set made by the
    constructor or left by [upload] does, on a well-formed render
    context.  After [upload], [destroy] returns; every object alive
    afterwards was alive before; an object alive before is still alive
    unless it is one of the paint buffers or vertex array objects the
    set carried into the [upload]; the objects released are the ones
    [upload] made, three and one per declared attribute family, each
    once, and besides them only carried objects that were alive.  For a
    set that carries no such object the objects alive afterwards are
    exactly those alive before and the objects released exactly the ones
    made.  The layout, index, dynamic, opacity and collision buffers the
    set held from an earlier [upload] are neither released nor dead
    afterwards: a second [upload] drops them without releasing them.
    The set is again one with optional buffers of declared families
    only, and the render context is well formed. *)
Theorem upload_destroy_round_trip (arrays : SymbolBuffers) (gl : GL) :
  glWellFormed gl →
  optionalBuffersDeclared arrays →
  let created h :=
    (gl_next gl ≤ h < gl_next gl + 3 + declaredFamilies (programInterface arrays))%nat in
  ∃ gl' now,
    SymbolBuffers_destroy (SymbolBuffers_upload arrays gl).1
                          (SymbolBuffers_upload arrays gl).2
    = Return gl'
    ∧ gl_live gl' ⊆ gl_live gl
    ∧ (∀ h, h ∈ gl_live gl → h ∉ carriedObjects arrays → h ∈ gl_live gl')
    ∧ gl_released gl' = gl_released gl ++ now
    ∧ NoDup now
    ∧ (∀ h, created h → h ∈ now)
    ∧ (∀ h, h ∈ now → created h ∨ (h ∈ carriedObjects arrays ∧ h ∈ gl_live gl))
    ∧ (carriedObjects arrays = [] →
       gl_live gl' = gl_live gl ∧ ∀ h, h ∈ now ↔ created h)
    ∧ (∀ h, h ∈ replacedBuffers arrays → h ∈ gl_live gl →
            h ∉ carriedObjects arrays → (h ∈ gl_live gl') ∧ (h ∉ now))
    ∧ optionalBuffersDeclared (SymbolBuffers_upload arrays gl).1
    ∧ glWellFormed gl'.
Proof.
  intros Hwf _ created.
  destruct (SymbolBuffers_upload_indexBuffer arrays gl) as [_ Hindex].
  rewrite SymbolBuffers_destroy_eq by (by right).
  destruct (gl_released_release (ownedObjects (SymbolBuffers_upload arrays gl).1)
              (SymbolBuffers_upload arrays gl).2) as (now & Hlog & Hnodup & Hmem).
  destruct (SymbolBuffers_upload_context arrays gl)
    as (Hnext & Hlive & Howned & Hdeclared).
  cbv beta zeta in Hlive, Howned. subst created. cbv beta.
  assert (∀ h, h ∈ gl_live gl →
            ¬ (gl_next gl ≤ h
               < gl_next gl + 3 + declaredFamilies (programInterface arrays))%nat)
    as Hold.
  { intros h Hin%Hwf. lia. }
  set (gl' := foldl destroyObject (SymbolBuffers_upload arrays gl).2
                    (ownedObjects (SymbolBuffers_upload arrays gl).1)) in *.
  assert (∀ h, h ∈ gl_live gl'
               ↔ h ∈ gl_live gl ∧ h ∉ carriedObjects arrays) as Hafter.
  { intros h. unfold gl'.
    rewrite gl_live_release, elem_of_difference, elem_of_list_to_set, Hlive, Howned.
    specialize (Hold h). tauto. }
  assert (∀ h, h ∈ now
               ↔ (gl_next gl ≤ h
                  < gl_next gl + 3 + declaredFamilies (programInterface arrays))%nat
                 ∨ (h ∈ carriedObjects arrays ∧ h ∈ gl_live gl)) as Hnow.
  { intros h. rewrite Hmem, Hlive, Howned. tauto. }
  exists gl', now.
  split; [done|].
  split; [intros h Hin; by apply Hafter in Hin as [? _]|].
  split; [intros h Hin Hnot; by apply Hafter|].
  split; [by rewrite Hlog, SymbolBuffers_upload_released|].
  split; [done|].
  split; [intros h Hin; apply Hnow; by left|].
  split; [intros h Hin; by apply Hnow|].
  split.
  { intros Hnone. split.
    - apply set_eq. intros h. rewrite Hafter, Hnone.
      split; [tauto|]. intros Hin. split; [done|]. apply not_elem_of_nil.
    - intros h. rewrite Hnow, Hnone. split; [|tauto].
      intros [Hin|[Hin _]]; [done|]. by apply not_elem_of_nil in Hin. }
  split.
  { intros h _ Hin Hnot. split; [by apply Hafter|].
    rewrite Hnow. specialize (Hold h Hin). tauto. }
  split; [done|].
  intros h [Hin%Hwf _]%Hafter. unfold gl'. rewrite gl_next_release, Hnext. lia.
Qed.

(** A text set uploaded twice and destroyed: the first upload makes the
    objects 0 to 4, the second the objects 5 to 9; destroy releases the
    second five and the paint buffer 2, and the buffers 0, 1, 3 and 4 of
    the first upload stay alive. *)
Lemma upload_destroy_round_trip_witness :
  ∃ gl',
    SymbolBuffers_destroy
      (SymbolBuffers_upload uploadedOnce.1 uploadedOnce.2).1
      (SymbolBuffers_upload uploadedOnce.1 uploadedOnce.2).2
    = Return gl'
    ∧ replacedBuffers uploadedOnce.1 = [0; 1; 3; 4]%nat
    ∧ (∀ h, h ∈ [0; 1; 3; 4]%nat → h ∈ gl_live gl')
    ∧ gl_released gl' = [5; 6; 2; 7; 8; 9]%nat.
Proof.
  destruct (upload_destroy_round_trip uploadedOnce.1 uploadedOnce.2)
    as (gl' & now & Hrun & _ & _ & _ & _ & _ & _ & _ & Hreplaced & _).
  - apply SymbolBuffers_upload_well_formed. intros h Hin.
    by apply elem_of_empty in Hin.
  - split; [by intros _|]. split; [by intros _|]. by intros [? [=]].
  - exists gl'. split; [exact Hrun|]. split; [reflexivity|]. split.
    + assert (Forall (λ h, h ∈ gl_live uploadedOnce.2
                           ∧ h ∉ carriedObjects uploadedOnce.1)
                     [0; 1; 3; 4]%nat) as Hall.
      { repeat constructor; cbn; set_solver. }
      intros h Hin. destruct (proj1 (Forall_forall _ _) Hall h Hin) as [Hlive Hnot].
      by apply Hreplaced.
    + vm_compute in Hrun. by injection Hrun as <-.
Defined.

(** ** Buffer sets across the transfer *)

(** X21.  The constructor and [serialize] are inverse to each other on
    the sets that match their interface.  Called without serialized
    arrays the constructor makes the empty set of [createArrays]; called
    with the serialized form of a set it restores the layout vertices,
    the index elements, the paint entries and the segments, holds no GPU
    object, and has exactly the optional arrays the interface declares.
    For a set without GPU objects the restored set is the set itself
    exactly when the set has the optional arrays of its interface and no
    other; such a set is well formed after the transfer if it was
    before. *)
Theorem SymbolBuffers_serialize_round_trip (arrays : SymbolBuffers) :
  let restored :=
    newSymbolBuffersFrom (programInterface arrays)
                         (Some (SymbolBuffers_serialize arrays)) in
  newSymbolBuffersFrom (programInterface arrays) None
  = newSymbolBuffers (programInterface arrays)
  ∧ layoutVertexArray restored = layoutVertexArray arrays
  ∧ indexArray restored = indexArray arrays
  ∧ segments restored = segments arrays
  ∧ paintVertexArray (programConfigurations restored)
    = paintVertexArray (programConfigurations arrays)
  ∧ noBuffers restored
  ∧ matchesInterface restored
  ∧ (noBuffers arrays → (restored = arrays ↔ matchesInterface arrays))
  ∧ (matchesInterface arrays → setWellFormed arrays → setWellFormed restored).
Proof.
  intros restored.
  assert (matchesInterface arrays →
          dynamicLayoutVertexArray restored = dynamicLayoutVertexArray arrays
          ∧ opacityVertexArray restored = opacityVertexArray arrays
          ∧ collisionVertexArray restored = collisionVertexArray arrays) as Hoptional.
  { intros (Hd & Ho & Hc). subst restored. cbn.
    destruct (hasDynamicLayoutAttributes (programInterface arrays)),
      (hasOpacityAttributes (programInterface arrays)),
      (hasCollisionAttributes (programInterface arrays)),
      (dynamicLayoutVertexArray arrays), (opacityVertexArray arrays),
      (collisionVertexArray arrays); cbn; repeat split; try done;
      exfalso;
      first [by destruct Hd as [_ [? [=]]]|by destruct Hd as [Hd _];
                                            specialize (Hd ltac:(eauto))
            |by destruct Ho as [_ [? [=]]]|by destruct Ho as [Ho _];
                                            specialize (Ho ltac:(eauto))
            |by destruct Hc as [_ [? [=]]]|by destruct Hc as [Hc _];
                                            specialize (Hc ltac:(eauto))]. }
  assert (matchesInterface restored) as Hmatch.
  { subst restored. unfold matchesInterface. cbn.
    destruct (hasDynamicLayoutAttributes (programInterface arrays)),
      (hasOpacityAttributes (programInterface arrays)),
      (hasCollisionAttributes (programInterface arrays));
      repeat split; try done; try (by eexists); by intros [? [=]]. }
  split; [done|]. do 4 (split; [done|]). split; [by repeat split|].
  split; [done|]. split.
  - intros (Hb1 & Hb2 & Hb3 & Hb4 & Hb5 & Hb6). split.
    + intros Heq. by rewrite <- Heq.
    + intros Hm. destruct (Hoptional Hm) as (Hd & Ho & Hc).
      subst restored. unfold newSymbolBuffersFrom in *. cbn in *.
      destruct arrays as [i lay lb idx ib [pa pb] segs dyn db op ob col cb].
      cbn in *. subst. by rewrite Hd, Ho, Hc.
  - intros Hm (_ & (Had & Hao & Hac) & Htile & Htyped).
    destruct (Hoptional Hm) as (Hd & Ho & Hc).
    split; [done|]. split; [|split; [done|done]].
    unfold vertexArraysAligned. by rewrite Hd, Ho, Hc.
Qed.

(** The text set of the labelled bucket comes back as it was. *)
Lemma SymbolBuffers_serialize_round_trip_witness :
  newSymbolBuffersFrom textInterface
                       (Some (SymbolBuffers_serialize (text labelledBucket)))
  = text labelledBucket.
Proof.
  destruct (SymbolBuffers_serialize_round_trip (text labelledBucket))
    as (_ & _ & _ & _ & _ & _ & _ & Hsame & _).
  apply Hsame.
  - by repeat split.
  - unfold matchesInterface. vm_compute.
    repeat split; try done; try (by eexists); by intros [? [=]].
Defined.

(** ** Edge cases of the emitters *)

(** X22.  [addCollisionDebugVertices] returns exactly when the set has a
    collision vertex array: on a text or icon set, which has none, the
    first vertex fails on [emplaceBack] of [undefined]. *)
Theorem addCollisionDebugVertices_returns_iff (x1 y1 x2 y2 : Q)
    (arrays : SymbolBuffers) (boxAnchorPoint : Point)
    (symbolInstance : SymbolInstance) (isCircle : bool) :
  (∃ arrays',
     addCollisionDebugVertices x1 y1 x2 y2 arrays boxAnchorPoint symbolInstance
                               isCircle
     = Return arrays')
  ↔ is_Some (collisionVertexArray arrays).
Proof.
  split.
  - intros [arrays' Hrun]. unfold addCollisionDebugVertices in Hrun.
    destruct (prepareSegment_spec 4 (segments arrays) (layoutVertexArray arrays)
                (indexArray arrays)) as (init & segment & Hprep & _).
    rewrite Hprep, last_snoc in Hrun.
    destruct (collisionVertexArray arrays) as [collision|]; [by eexists|done].
  - intros Hsome.
    destruct (addCollisionDebugVertices_spec x1 y1 x2 y2 arrays boxAnchorPoint
                symbolInstance isCircle Hsome) as (arrays' & index & Hrun & _).
    by exists arrays'.
Qed.

(** An outline for a fresh text set is refused, one for a fresh
    collision-box set is accepted. *)
Lemma addCollisionDebugVertices_returns_iff_witness :
  addCollisionDebugVertices 0 0 1 1 (newSymbolBuffers textInterface)
                            {| point_x := 0; point_y := 0 |} oneRecordInstance false
  = Throw
  ∧ ∃ arrays',
      addCollisionDebugVertices 0 0 1 1 (newSymbolBuffers collisionBoxInterface)
                                {| point_x := 0; point_y := 0 |} oneRecordInstance
                                false
      = Return arrays'.
Proof.
  split.
  - destruct (addCollisionDebugVertices 0 0 1 1 (newSymbolBuffers textInterface)
                {| point_x := 0; point_y := 0 |} oneRecordInstance false)
      as [arrays'|] eqn:Hrun; [|reflexivity].
    destruct (proj1 (addCollisionDebugVertices_returns_iff 0 0 1 1
                       (newSymbolBuffers textInterface)
                       {| point_x := 0; point_y := 0 |} oneRecordInstance false)
                    (ex_intro _ arrays' Hrun)) as [collision Hsome].
    discriminate Hsome.
  - apply (proj2 (addCollisionDebugVertices_returns_iff 0 0 1 1
                    (newSymbolBuffers collisionBoxInterface)
                    {| point_x := 0; point_y := 0 |} oneRecordInstance false)).
    by eexists.
Defined.
